(** * CopperLicht render pipeline: renderer buffers, light packing and the
      scene's frame logic, embedded from [renderer.js] and [flacescene.js]. *)

From stdpp Require Import gmap list sorting strings.
From Stdlib Require Import ZArith Lia.

Local Open Scope Z_scope.

(** ** JavaScript numbers and the math classes

    The engine computes with JavaScript numbers.  The classes [CL3D.Vect3d],
    [CL3D.Matrix4] and the colour helpers [CL3D.getRed] ... are not among the
    source files; the operations the renderer calls on them are the fields of
    the interface below. *)

Record Vect3d (num : Type) := mkVect3d { vX : num; vY : num; vZ : num }.
Arguments mkVect3d {num} _ _ _.
Arguments vX {num} _.
Arguments vY {num} _.
Arguments vZ {num} _.

Record Vect2d (num : Type) := mkVect2d { tX : num; tY : num }.
Arguments mkVect2d {num} _ _.
Arguments tX {num} _.
Arguments tY {num} _.

Record ColorF (num : Type) := mkColorF { cR : num; cG : num; cB : num }.
Arguments mkColorF {num} _ _ _.
Arguments cR {num} _.
Arguments cG {num} _.
Arguments cB {num} _.

Class CL3DMath (num M : Type) := {
  (* numbers *)
  lit : Z → num;                      (* an integer-valued number literal *)
  num_mul : num → num → num;
  num_div : num → num → num;
  toFloat32 : num → num;              (* the rounding of a store into a Float32Array *)
  (* colour helpers, on a packed integer colour *)
  getRed : Z → Z;
  getGreen : Z → Z;
  getBlue : Z → Z;
  getAlpha : Z → Z;
  (* CL3D.Matrix4 *)
  m4_identity : M;                    (* new CL3D.Matrix4(true) *)
  m4_multiply : M → M → M;            (* a.multiply(b) *)
  m4_equals : M → M → bool;           (* a.equals(b) *)
  m4_getInverse : M → M → M;          (* a.getInverse(out): out afterwards *)
  m4_makeInverse : M → M;             (* a.makeInverse(): a afterwards *)
  m4_getTransposed : M → M;
  m4_getTransformedVect : M → Vect3d num → Vect3d num;
  m4_rotateVect : M → Vect3d num → Vect3d num;
  (* CL3D.Vect3d *)
  v3_multiplyThisWithScal : Vect3d num → num → Vect3d num;
  v3_normalize : Vect3d num → Vect3d num
}.

(** ** Typed arrays

    [WebGLFloatArray] is [Float32Array] and [WebGLUnsignedShortArray] is
    [Uint16Array].  A typed array has a fixed length: a store outside it is
    ignored, which is what the list update [<[i:=x]>] does. *)

Definition ToUint16 (z : Z) : Z := z mod 65536.

Section TypedArrays.
Context {num M : Type} {math : CL3DMath num M}.

Definition new_Float32Array (n : nat) : list num := replicate n (toFloat32 (lit 0)).
Definition new_Uint16Array (n : nat) : list Z := replicate n 0.

(** [arr[i] = v] on a Float32Array. *)
Definition f32_set (i : nat) (v : num) (arr : list num) : list num :=
  <[i := toFloat32 v]> arr.

(** [arr[i] = src[k]] on a Uint16Array, where [src] is an ordinary array:
    a read outside [src] yields [undefined], which is stored as 0. *)
Definition u16_set_from (i : nat) (src : list Z) (k : nat) (arr : list Z) : list Z :=
  <[i := match src !! k with Some v => ToUint16 v | None => 0 end]> arr.
End TypedArrays.

(** ** The WebGL context

  Buffer objects live in a store indexed by handle; every call is logged in
  issue order. *)

Inductive BufferTarget := ARRAY_BUFFER | ELEMENT_ARRAY_BUFFER.
Inductive BufferUsage := STATIC_DRAW | DYNAMIC_DRAW.

Inductive TypedArray (num : Type) :=
| Float32Array (l : list num)
| Uint16Array (l : list Z).
Arguments Float32Array {num} _.
Arguments Uint16Array {num} _.

Inductive GLCall (num M : Type) :=
| CreateBuffer (h : nat)
| BindBuffer (t : BufferTarget) (h : option nat)
| BufferData (t : BufferTarget) (d : TypedArray num) (u : BufferUsage)
| BufferSubData (t : BufferTarget) (offset : nat) (d : TypedArray num)
| EnableVertexAttribArray (i : nat)
| DisableVertexAttribArray (i : nat)
| VertexAttribPointer (i size : nat)
| UniformMatrix4fv (loc : nat) (m : M)
| Uniform4fv (loc : option nat) (d : list num)
| Uniform3f (loc : nat) (x y z : num)
| Uniform4f (loc : option nat) (x y z w : num)
| DrawElementsTriangles (count : nat) (indexBuffer : option nat).
Arguments CreateBuffer {num M} _.
Arguments BindBuffer {num M} _ _.
Arguments BufferData {num M} _ _ _.
Arguments BufferSubData {num M} _ _ _.
Arguments EnableVertexAttribArray {num M} _.
Arguments DisableVertexAttribArray {num M} _.
Arguments VertexAttribPointer {num M} _ _.
Arguments UniformMatrix4fv {num M} _ _.
Arguments Uniform4fv {num M} _ _.
Arguments Uniform3f {num M} _ _ _ _.
Arguments Uniform4f {num M} _ _ _ _ _.
Arguments DrawElementsTriangles {num M} _ _.

Record GLState (num M : Type) := mkGL {
nextBuffer : nat;
buffers : gmap nat (TypedArray num * BufferUsage);
boundArray : option nat;
boundElement : option nat;
calls : list (GLCall num M)
}.
Arguments mkGL {num M} _ _ _ _ _.
Arguments nextBuffer {num M} _.
Arguments buffers {num M} _.
Arguments boundArray {num M} _.
Arguments boundElement {num M} _.
Arguments calls {num M} _.

(** A computation on the context that may throw (a JavaScript [TypeError]):
  [None] is the thrown exception. *)
Definition GLM (num M A : Type) : Type := GLState num M → option (A * GLState num M).

Global Instance GLM_ret {num M} : MRet (GLM num M) := λ A a g, Some (a, g).
Global Instance GLM_bind {num M} : MBind (GLM num M) :=
λ A B f m g, match m g with Some (a, g') => f a g' | None => None end.

Definition throw {num M A} : GLM num M A := λ _, None.

Section WebGL.
Context {num M : Type}.
Local Abbreviation GL := (GLState num M).

Definition emit (c : GLCall num M) (g : GL) : GL :=
  mkGL (nextBuffer g) (buffers g) (boundArray g) (boundElement g) (calls g ++ [c]).

Definition bound (t : BufferTarget) (g : GL) : option nat :=
  match t with ARRAY_BUFFER => boundArray g | ELEMENT_ARRAY_BUFFER => boundElement g end.

Definition gl_createBuffer : GLM num M nat := λ g,
  let h := nextBuffer g in
  Some (h, emit (CreateBuffer h)
             (mkGL (S h) (buffers g) (boundArray g) (boundElement g) (calls g))).

Definition gl_bindBuffer (t : BufferTarget) (h : option nat) : GLM num M unit := λ g,
  Some (tt, emit (BindBuffer t h)
              match t with
              | ARRAY_BUFFER => mkGL (nextBuffer g) (buffers g) h (boundElement g) (calls g)
              | ELEMENT_ARRAY_BUFFER => mkGL (nextBuffer g) (buffers g) (boundArray g) h (calls g)
              end).

(** [bufferData] replaces the data store of the bound buffer; with no buffer
    bound it only raises a GL error flag. *)
Definition gl_bufferData (t : BufferTarget) (d : TypedArray num) (u : BufferUsage)
  : GLM num M unit := λ g,
  Some (tt, emit (BufferData t d u)
              (mkGL (nextBuffer g)
                 match bound t g with
                 | Some h => <[h := (d, u)]> (buffers g)
                 | None => buffers g
                 end
                 (boundArray g) (boundElement g) (calls g))).

(** The data a store holds after [bufferSubData] at offset 0: the new data
    over the old prefix; data that does not fit is refused. *)
Definition sub_data (d old : TypedArray num) : option (TypedArray num) :=
  match d, old with
  | Float32Array l, Float32Array o =>
      if decide (length l ≤ length o)%nat then Some (Float32Array (l ++ drop (length l) o)) else None
  | Uint16Array l, Uint16Array o =>
      if decide (length l ≤ length o)%nat then Some (Uint16Array (l ++ drop (length l) o)) else None
  | _, _ => None
  end.

(** The buffer store after [bufferSubData]: the bound buffer, when there is
    one and the data fits, holds the new data. *)
Definition sub_store (t : BufferTarget) (d : TypedArray num) (g : GL)
  : gmap nat (TypedArray num * BufferUsage) :=
  match bound t g with
  | Some h =>
      match buffers g !! h with
      | Some (old, u) =>
          match sub_data d old with
          | Some d' => <[h := (d', u)]> (buffers g)
          | None => buffers g
          end
      | None => buffers g
      end
  | None => buffers g
  end.

Definition gl_bufferSubData (t : BufferTarget) (d : TypedArray num) : GLM num M unit := λ g,
  Some (tt, emit (BufferSubData t 0 d)
              (mkGL (nextBuffer g) (sub_store t d g)
                 (boundArray g) (boundElement g) (calls g))).

Definition gl_call (c : GLCall num M) : GLM num M unit := λ g, Some (tt, emit c g).

Definition gl_drawElements (count : nat) : GLM num M unit := λ g,
  Some (tt, emit (DrawElementsTriangles count (boundElement g)) g).
End WebGL.

(** ** Mesh buffers and their device resource *)

Record Vertex3D (num : Type) := mkVertex3D {
  Pos : Vect3d num;
  Normal : Vect3d num;
  Color : Z;
  TCoords : Vect2d num;
  TCoords2 : Vect2d num
}.
Arguments mkVertex3D {num} _ _ _ _ _.
Arguments Pos {num} _.
Arguments Normal {num} _.
Arguments Color {num} _.
Arguments TCoords {num} _.
Arguments TCoords2 {num} _.

(** The object [createRendererNativeArray] stores in [buf.RendererNativeArray]. *)
Record NativeArray (num : Type) := mkNativeArray {
  positionBuffer : nat;
  positionsArray : list num;
  texcoordsBuffer : nat;
  texcoordsBuffer2 : nat;
  normalBuffer : nat;
  tangentBuffer : option nat;
  binormalBuffer : option nat;
  colorBuffer : nat;
  colorArray : list num;
  indexBuffer : nat;
  indexCount : nat;
  vertexCount : nat
}.
Arguments mkNativeArray {num} _ _ _ _ _ _ _ _ _ _ _ _.
Arguments positionBuffer {num} _.
Arguments positionsArray {num} _.
Arguments texcoordsBuffer {num} _.
Arguments texcoordsBuffer2 {num} _.
Arguments normalBuffer {num} _.
Arguments tangentBuffer {num} _.
Arguments binormalBuffer {num} _.
Arguments colorBuffer {num} _.
Arguments colorArray {num} _.
Arguments indexBuffer {num} _.
Arguments indexCount {num} _.
Arguments vertexCount {num} _.

Record MeshBuffer (num : Type) := mkMeshBuffer {
  Vertices : list (Vertex3D num);
  Indices : list Z;
  Tangents : option (list (Vect3d num));
  Binormals : option (list (Vect3d num));
  RendererNativeArray : option (NativeArray num);
  OnlyPositionsChanged : bool;
  OnlyUpdateBufferIfPossible : bool
}.
Arguments mkMeshBuffer {num} _ _ _ _ _ _ _.
Arguments Vertices {num} _.
Arguments Indices {num} _.
Arguments Tangents {num} _.
Arguments Binormals {num} _.
Arguments RendererNativeArray {num} _.
Arguments OnlyPositionsChanged {num} _.
Arguments OnlyUpdateBufferIfPossible {num} _.

Definition setNativeArray {num} (o : option (NativeArray num)) (buf : MeshBuffer num)
  : MeshBuffer num :=
  mkMeshBuffer (Vertices buf) (Indices buf) (Tangents buf) (Binormals buf) o
    (OnlyPositionsChanged buf) (OnlyUpdateBufferIfPossible buf).

Definition clearUpdateFlags {num} (buf : MeshBuffer num) : MeshBuffer num :=
  mkMeshBuffer (Vertices buf) (Indices buf) (Tangents buf) (Binormals buf)
    (RendererNativeArray buf) false false.

(** The uniform locations a material program caches. *)
Record Program := mkProgram {
  locWorldViewProj : option nat;
  locNormalMatrix : option nat;
  locModelViewMatrix : option nat;
  locModelWorldMatrix : option nat;
  locLightPositions : option nat;
  locLightColors : option nat;
  locDirectionalLight : option nat;
  locDirectionalLightColor : option nat
}.

Record Light (num : Type) := mkLight {
  Position : Vect3d num;
  LColor : ColorF num;
  Radius : num;
  Attenuation : num;
  Direction : option (Vect3d num)
}.
Arguments mkLight {num} _ _ _ _ _.
Arguments Position {num} _.
Arguments LColor {num} _.
Arguments Radius {num} _.
Arguments Attenuation {num} _.
Arguments Direction {num} _.

Record Renderer (num M : Type) := mkRenderer {
  gl : option (GLState num M);
  textureWasLoadedFlag : bool;
  Projection : M;
  View : M;
  World : M;
  AmbientLight : ColorF num;
  Lights : list (Light num);
  DirectionalLight : option (Light num);
  currentGLProgram : option Program
}.
Arguments mkRenderer {num M} _ _ _ _ _ _ _ _ _.
Arguments gl {num M} _.
Arguments textureWasLoadedFlag {num M} _.
Arguments Projection {num M} _.
Arguments View {num M} _.
Arguments World {num M} _.
Arguments AmbientLight {num M} _.
Arguments Lights {num M} _.
Arguments DirectionalLight {num M} _.
Arguments currentGLProgram {num M} _.

Definition setGL {num M} (g : option (GLState num M)) (r : Renderer num M) : Renderer num M :=
  mkRenderer g (textureWasLoadedFlag r) (Projection r) (View r) (World r)
    (AmbientLight r) (Lights r) (DirectionalLight r) (currentGLProgram r).

(** ** [renderer.js]: creating, updating and drawing a mesh buffer *)

Section RendererCode.
Context {num M : Type} {math : CL3DMath num M}.

(** [CL3D.getRed(v.Color)/255.0] and its siblings. *)
Definition channel (c : Z) : num := num_div (lit c) (lit 255).

Definition write_position (i : nat) (v : Vertex3D num) (a : list num) : list num :=
  f32_set (i*3+2) (vZ (Pos v)) (f32_set (i*3+1) (vY (Pos v)) (f32_set (i*3+0) (vX (Pos v)) a)).

Definition write_normal (i : nat) (v : Vertex3D num) (a : list num) : list num :=
  f32_set (i*3+2) (vZ (Normal v)) (f32_set (i*3+1) (vY (Normal v)) (f32_set (i*3+0) (vX (Normal v)) a)).

Definition write_tcoords (i : nat) (t : Vect2d num) (a : list num) : list num :=
  f32_set (i*2+1) (tY t) (f32_set (i*2+0) (tX t) a).

Definition write_color (i : nat) (v : Vertex3D num) (a : list num) : list num :=
  f32_set (i*4+3) (channel (getAlpha (Color v)))
    (f32_set (i*4+2) (channel (getBlue (Color v)))
       (f32_set (i*4+1) (channel (getGreen (Color v)))
          (f32_set (i*4+0) (channel (getRed (Color v))) a))).

Definition write_vect3d (i : nat) (t : Vect3d num) (a : list num) : list num :=
  f32_set (i*3+2) (vZ t) (f32_set (i*3+1) (vY t) (f32_set (i*3+0) (vX t) a)).

(** [for (var i=0; i<len; ++i) { var v = buf.Vertices[i]; body }], started at
    index [i] on the vertices not yet visited. *)
Fixpoint for_vertices {St : Type} (body : nat → Vertex3D num → St → St)
    (i : nat) (vs : list (Vertex3D num)) (s : St) : St :=
  match vs with
  | [] => s
  | v :: vs' => for_vertices body (S i) vs' (body i v s)
  end.

(** The five arrays the vertex loop of [createRendererNativeArray] fills. *)
Record VertexArrays := mkVertexArrays {
  va_positions : list num;
  va_normals : list num;
  va_tcoords : list num;
  va_tcoords2 : list num;
  va_colors : list num
}.

Definition create_vertex_body (i : nat) (v : Vertex3D num) (a : VertexArrays) : VertexArrays :=
  mkVertexArrays
    (write_position i v (va_positions a))
    (write_normal i v (va_normals a))
    (write_tcoords i (TCoords v) (va_tcoords a))
    (write_tcoords i (TCoords2 v) (va_tcoords2 a))
    (write_color i v (va_colors a)).

Definition update_vertex_body (i : nat) (v : Vertex3D num) (a : list num * list num)
  : list num * list num :=
  (write_position i v a.1, write_color i v a.2).

(** The tangent and binormal loop: [buf.Tangents[i]] or [buf.Binormals[i]]
    missing makes the member access throw. *)
Fixpoint fill_tangents (n i : nat) (ts bs : list (Vect3d num)) (ta ba : list num)
  : option (list num * list num) :=
  match n with
  | O => Some (ta, ba)
  | S n' =>
      match ts !! i with
      | None => None
      | Some t =>
          match bs !! i with
          | None => None
          | Some b => fill_tangents n' (S i) ts bs (write_vect3d i t ta) (write_vect3d i b ba)
          end
      end
  end.

(** [for (var j=0; j<indexCount; j+=3)]: the second and third index of each
    triangle change places.  [fuel] bounds the iterations; [indexCount]
    iterations always suffice. *)
Fixpoint rewind_indices (fuel j : nat) (src : list Z) (indexCount : nat) (arr : list Z)
  : list Z :=
  match fuel with
  | O => arr
  | S fuel' =>
      if decide (j < indexCount)%nat then
        rewind_indices fuel' (j + 3) src indexCount
          (u16_set_from (j+2) src (j+1)
             (u16_set_from (j+1) src (j+2)
                (u16_set_from (j+0) src (j+0) arr)))
      else arr
  end.

Definition make_indexArray (src : list Z) : list Z :=
  rewind_indices (length src) 0 src (length src) (new_Uint16Array (length src)).

(** [obj.x = gl.createBuffer(); gl.bindBuffer(t, obj.x); gl.bufferData(t, data, usage)] *)
Definition upload (t : BufferTarget) (d : TypedArray num) (u : BufferUsage) : GLM num M nat :=
  h ← gl_createBuffer;
  gl_bindBuffer t (Some h);;
  gl_bufferData t d u;;
  mret h.

Definition createRendererNativeArray (buf : MeshBuffer num) : GLM num M (MeshBuffer num) :=
  match RendererNativeArray buf with
  | Some _ => mret buf
  | None =>
      let len := length (Vertices buf) in
      let arrays :=
        for_vertices create_vertex_body 0 (Vertices buf)
          (mkVertexArrays (new_Float32Array (len*3)) (new_Float32Array (len*3))
             (new_Float32Array (len*2)) (new_Float32Array (len*2)) (new_Float32Array (len*4))) in
      tb ← match Tangents buf, Binormals buf with
           | Some ts, Some bs =>
               match fill_tangents len 0 ts bs (new_Float32Array (len*3)) (new_Float32Array (len*3)) with
               | Some p => mret (Some p)
               | None => throw
               end
           | _, _ => mret None
           end;
      let indexCount := length (Indices buf) in
      let indexArray := make_indexArray (Indices buf) in
      positionBuffer ← upload ARRAY_BUFFER (Float32Array (va_positions arrays)) DYNAMIC_DRAW;
      texcoordsBuffer ← upload ARRAY_BUFFER (Float32Array (va_tcoords arrays)) STATIC_DRAW;
      texcoordsBuffer2 ← upload ARRAY_BUFFER (Float32Array (va_tcoords2 arrays)) STATIC_DRAW;
      normalBuffer ← upload ARRAY_BUFFER (Float32Array (va_normals arrays)) STATIC_DRAW;
      tbBuffers ← match tb with
                  | Some (tangentsArray, binormalsArray) =>
                      tangentBuffer ← upload ARRAY_BUFFER (Float32Array tangentsArray) STATIC_DRAW;
                      binormalBuffer ← upload ARRAY_BUFFER (Float32Array binormalsArray) STATIC_DRAW;
                      mret (Some tangentBuffer, Some binormalBuffer)
                  | None => mret (None, None)
                  end;
      gl_bindBuffer ARRAY_BUFFER None;;
      colorBuffer ← upload ARRAY_BUFFER (Float32Array (va_colors arrays)) STATIC_DRAW;
      gl_bindBuffer ARRAY_BUFFER None;;
      indexBuffer ← upload ELEMENT_ARRAY_BUFFER (Uint16Array indexArray) STATIC_DRAW;
      gl_bindBuffer ELEMENT_ARRAY_BUFFER None;;
      mret (mkMeshBuffer (Vertices buf) (Indices buf) (Tangents buf) (Binormals buf)
              (Some (mkNativeArray positionBuffer (va_positions arrays)
                       texcoordsBuffer texcoordsBuffer2 normalBuffer
                       tbBuffers.1 tbBuffers.2
                       colorBuffer (va_colors arrays)
                       indexBuffer indexCount len))
              false false)
  end.

Definition updateRendererNativeArray (buf : MeshBuffer num) : GLM num M (MeshBuffer num) :=
  if decide (length (Vertices buf) = 0 ∨ length (Indices buf) = 0)%nat then mret buf
  else
    match RendererNativeArray buf with
    | None => throw
    | Some na =>
        if decide (vertexCount na < length (Vertices buf) ∨
                   indexCount na < length (Indices buf))%nat
        then createRendererNativeArray (setNativeArray None buf)
        else
          let arrays :=
            for_vertices update_vertex_body 0 (Vertices buf) (positionsArray na, colorArray na) in
          gl_bindBuffer ARRAY_BUFFER (Some (positionBuffer na));;
          gl_bufferSubData ARRAY_BUFFER (Float32Array arrays.1);;
          gl_bindBuffer ARRAY_BUFFER (Some (colorBuffer na));;
          gl_bufferSubData ARRAY_BUFFER (Float32Array arrays.2);;
          indexBuffer' ←
            (if decide (indexCount na < length (Indices buf))%nat then
               h ← upload ELEMENT_ARRAY_BUFFER (Uint16Array (make_indexArray (Indices buf))) STATIC_DRAW;
               gl_bindBuffer ELEMENT_ARRAY_BUFFER None;;
               mret h
             else mret (indexBuffer na));
          mret (setNativeArray
                  (Some (mkNativeArray (positionBuffer na) arrays.1
                           (texcoordsBuffer na) (texcoordsBuffer2 na) (normalBuffer na)
                           (tangentBuffer na) (binormalBuffer na)
                           (colorBuffer na) arrays.2
                           indexBuffer' (length (Indices buf)) (length (Vertices buf))))
                  buf)
    end.

Definition updatePositionsInRendererNativeArray (buf : MeshBuffer num)
  : GLM num M (MeshBuffer num) :=
  match RendererNativeArray buf with
  | None => mret buf
  | Some na =>
      let positions := for_vertices write_position 0 (Vertices buf) (positionsArray na) in
      gl_bindBuffer ARRAY_BUFFER (Some (positionBuffer na));;
      gl_bufferSubData ARRAY_BUFFER (Float32Array positions);;
      mret (setNativeArray
              (Some (mkNativeArray (positionBuffer na) positions
                       (texcoordsBuffer na) (texcoordsBuffer2 na) (normalBuffer na)
                       (tangentBuffer na) (binormalBuffer na)
                       (colorBuffer na) (colorArray na)
                       (indexBuffer na) (indexCount na) (vertexCount na)))
              buf)
  end.
End RendererCode.

Section RendererDraw.
Context {num M : Type} {math : CL3DMath num M}.

(** One round of the [for (var i=0; i<4; ++i)] loop of
    [setDynamicLightsIntoConstants], on the pair (positionArray, colorArray). *)
Definition pack_light (mat : M) (lights : list (Light num))
    (useOldNormalMappingAttenuationCalculation : bool)
    (a : list num * list num) (i : nat) : list num * list num :=
  let idx := (i*4)%nat in
  match lights !! i with
  | Some l =>
      let vt := m4_getTransformedVect mat (Position l) in
      let attenuation :=
        if useOldNormalMappingAttenuationCalculation
        then num_div (lit 1) (num_mul (Radius l) (Radius l))
        else Attenuation l in
      (f32_set (idx+3) attenuation
         (f32_set (idx+2) (vZ vt) (f32_set (idx+1) (vY vt) (f32_set idx (vX vt) a.1))),
       f32_set (idx+3) (lit 1)
         (f32_set (idx+2) (cB (LColor l))
            (f32_set (idx+1) (cG (LColor l)) (f32_set idx (cR (LColor l)) a.2))))
  | None =>
      (* add a dark light, since the shader expects 4 lights *)
      (f32_set (idx+3) (lit 1)
         (f32_set (idx+2) (lit 0) (f32_set (idx+1) (lit 0) (f32_set idx (lit 1) a.1))),
       f32_set (idx+3) (lit 1)
         (f32_set (idx+2) (lit 0) (f32_set (idx+1) (lit 0) (f32_set idx (lit 0) a.2))))
  end.

(** The matrix that takes light positions into object space. *)
Definition light_matrix (r : Renderer num M) (useWorldSpacePositionsForLights : bool) : M :=
  if negb useWorldSpacePositionsForLights &&
     (bool_decide (0 < length (Lights r))%nat || bool_decide (is_Some (DirectionalLight r)))
  then m4_getInverse (World r) m4_identity
  else m4_identity.

(** The two arrays handed to [uniform4fv]. *)
Definition light_arrays (r : Renderer num M)
    (useWorldSpacePositionsForLights useOldNormalMappingAttenuationCalculation : bool)
  : list num * list num :=
  let mat := light_matrix r useWorldSpacePositionsForLights in
  let packed :=
    foldl (pack_light mat (Lights r) useOldNormalMappingAttenuationCalculation)
      (new_Float32Array (4*4), new_Float32Array (5*4)) (seq 0 4) in
  (packed.1,
   f32_set 19 (lit 1)
     (f32_set 18 (cB (AmbientLight r))
        (f32_set 17 (cG (AmbientLight r))
           (f32_set 16 (cR (AmbientLight r)) packed.2)))).

Definition setDynamicLightsIntoConstants (r : Renderer num M) (program : Program)
    (useWorldSpacePositionsForLights useOldNormalMappingAttenuationCalculation : bool)
  : GLM num M unit :=
  let mat := light_matrix r useWorldSpacePositionsForLights in
  let arrays :=
    light_arrays r useWorldSpacePositionsForLights useOldNormalMappingAttenuationCalculation in
  gl_call (Uniform4fv (locLightPositions program) arrays.1);;
  gl_call (Uniform4fv (locLightColors program) arrays.2);;
  match locDirectionalLight program with
  | None => mret tt
  | Some loc =>
      let dirlight := DirectionalLight r in
      let dir :=
        match dirlight ≫= Direction with
        | Some d => d
        | None => mkVect3d (lit 1) (lit 0) (lit 0)
        end in
      let dir := v3_normalize (m4_rotateVect mat (v3_multiplyThisWithScal dir (lit (-1)))) in
      gl_call (Uniform3f loc (vX dir) (vY dir) (vZ dir));;
      match dirlight with
      | Some l =>
          gl_call (Uniform4f (locDirectionalLightColor program)
                     (cR (LColor l)) (cG (LColor l)) (cB (LColor l)) (lit 1))
      | None =>
          gl_call (Uniform4f (locDirectionalLightColor program) (lit 0) (lit 0) (lit 0) (lit 1))
      end
  end.

Definition when {A : Type} (o : option A) (f : A → GLM num M unit) : GLM num M unit :=
  match o with Some a => f a | None => mret tt end.

Definition drawWebGlStaticGeometry (r : Renderer num M) (b : option (NativeArray num))
    (indexCountToUse : option nat) : GLM num M unit :=
  match b with
  | None => throw
  | Some b =>
      let withTangentsAndBinormals :=
        bool_decide (is_Some (tangentBuffer b)) && bool_decide (is_Some (binormalBuffer b)) in
      gl_call (EnableVertexAttribArray 0);;
      gl_call (EnableVertexAttribArray 1);;
      gl_call (EnableVertexAttribArray 2);;
      gl_call (EnableVertexAttribArray 3);;
      gl_call (EnableVertexAttribArray 4);;
      gl_bindBuffer ARRAY_BUFFER (Some (positionBuffer b));;
      gl_call (VertexAttribPointer 0 3);;
      gl_bindBuffer ARRAY_BUFFER (Some (texcoordsBuffer b));;
      gl_call (VertexAttribPointer 1 2);;
      gl_bindBuffer ARRAY_BUFFER (Some (texcoordsBuffer2 b));;
      gl_call (VertexAttribPointer 2 2);;
      gl_bindBuffer ARRAY_BUFFER (Some (normalBuffer b));;
      gl_call (VertexAttribPointer 3 3);;
      gl_bindBuffer ARRAY_BUFFER (Some (colorBuffer b));;
      gl_call (VertexAttribPointer 4 4);;
      (if withTangentsAndBinormals then
         gl_call (EnableVertexAttribArray 5);;
         gl_call (EnableVertexAttribArray 6);;
         gl_bindBuffer ARRAY_BUFFER (tangentBuffer b);;
         gl_call (VertexAttribPointer 5 3);;
         gl_bindBuffer ARRAY_BUFFER (binormalBuffer b);;
         gl_call (VertexAttribPointer 6 3)
       else mret tt);;
      gl_bindBuffer ELEMENT_ARRAY_BUFFER (Some (indexBuffer b));;
      let mat := m4_multiply (m4_multiply (Projection r) (View r)) (World r) in
      match currentGLProgram r with
      | None => throw
      | Some program =>
          when (locWorldViewProj program) (λ loc, gl_call (UniformMatrix4fv loc mat));;
          when (locNormalMatrix program) (λ loc,
            let matnormal := m4_multiply (m4_multiply m4_identity (View r)) (World r) in
            gl_call (UniformMatrix4fv loc (m4_getTransposed (m4_makeInverse matnormal))));;
          when (locModelViewMatrix program) (λ loc,
            gl_call (UniformMatrix4fv loc
                       (m4_multiply (m4_multiply m4_identity (View r)) (World r))));;
          when (locModelWorldMatrix program) (λ loc,
            gl_call (UniformMatrix4fv loc (m4_getTransposed (World r))));;
          when (locLightPositions program) (λ _,
            setDynamicLightsIntoConstants r program
              withTangentsAndBinormals withTangentsAndBinormals);;
          gl_drawElements (default (indexCount b) indexCountToUse);;
          (if withTangentsAndBinormals then
             gl_call (DisableVertexAttribArray 5);;
             gl_call (DisableVertexAttribArray 6)
           else mret tt)
      end
  end.

(** [drawMeshBuffer(buf, indexCountToUse)] on a renderer and a mesh buffer that
    exist.  The result is the buffer and the context afterwards, [None] when
    the call throws. *)
Definition drawMeshBuffer (r : Renderer num M) (buf : MeshBuffer num)
    (indexCountToUse : option nat) : option (MeshBuffer num * Renderer num M) :=
  match gl r with
  | None => Some (buf, r)
  | Some g =>
      let prepare : GLM num M (MeshBuffer num) :=
        match RendererNativeArray buf with
        | None => createRendererNativeArray buf
        | Some _ =>
            if OnlyUpdateBufferIfPossible buf then updateRendererNativeArray buf
            else if OnlyPositionsChanged buf then updatePositionsInRendererNativeArray buf
            else mret buf
        end in
      match (buf' ← prepare;
             let buf'' := clearUpdateFlags buf' in
             drawWebGlStaticGeometry r (RendererNativeArray buf'') indexCountToUse;;
             mret buf'') g with
      | Some (buf'', g') => Some (buf'', setGL (Some g') r)
      | None => None
      end
  end.

Definition clearDynamicLights (r : Renderer num M) : Renderer num M :=
  mkRenderer (gl r) (textureWasLoadedFlag r) (Projection r) (View r) (World r)
    (AmbientLight r) [] None (currentGLProgram r).

Definition addDynamicLight (l : Light num) (r : Renderer num M) : Renderer num M :=
  mkRenderer (gl r) (textureWasLoadedFlag r) (Projection r) (View r) (World r)
    (AmbientLight r) (Lights r ++ [l]) (DirectionalLight r) (currentGLProgram r).

Definition setDirectionalLight (l : Light num) (r : Renderer num M) : Renderer num M :=
  mkRenderer (gl r) (textureWasLoadedFlag r) (Projection r) (View r) (World r)
    (AmbientLight r) (Lights r) (Some l) (currentGLProgram r).

Definition setAmbientLight (c : ColorF num) (r : Renderer num M) : Renderer num M :=
  mkRenderer (gl r) (textureWasLoadedFlag r) (Projection r) (View r) (World r)
    c (Lights r) (DirectionalLight r) (currentGLProgram r).

Definition getAndResetTextureWasLoadedFlag (r : Renderer num M) : bool * Renderer num M :=
  (textureWasLoadedFlag r,
   mkRenderer (gl r) false (Projection r) (View r) (World r)
     (AmbientLight r) (Lights r) (DirectionalLight r) (currentGLProgram r)).
End RendererDraw.

(** ** [flacescene.js]: the scene

    Scene nodes are polymorphic objects defined outside the source files at
    hand.  A node is represented by what the scene reads from it: its identity,
    its absolute position, its collision selector and, for a light node, its
    light data.  Positions of nodes are taken on the integer grid, where
    JavaScript's arithmetic is exact. *)

Record SceneNode (num : Type) := mkSceneNode {
  nodeId : nat;
  AbsolutePosition : Vect3d Z;                (* getAbsolutePosition() *)
  Selector : option nat;
  LightData : option (Light num);
  IsDirectional : bool
}.
Arguments mkSceneNode {num} _ _ _ _ _.
Arguments nodeId {num} _.
Arguments AbsolutePosition {num} _.
Arguments Selector {num} _.
Arguments LightData {num} _.
Arguments IsDirectional {num} _.

Record CameraSceneNode (num M : Type) := mkCamera {
  camNode : SceneNode num;
  CamProjection : M;
  ViewMatrix : M
}.
Arguments mkCamera {num M} _ _ _.
Arguments camNode {num M} _.
Arguments CamProjection {num M} _.
Arguments ViewMatrix {num M} _.

Record DeletionEntry (num : Type) := mkDeletionEntry {
  node : SceneNode num;
  timeAfterToDelete : Z
}.
Arguments mkDeletionEntry {num} _ _.
Arguments node {num} _.
Arguments timeAfterToDelete {num} _.

(** The scene.  [Parent] holds the parent links of the scene graph (child
    identity to parent identity) and [CollisionWorld] the selectors the
    collision world holds.  Fields that the functions embedded here only
    write ([LastUsedRenderer], [CurrentCameraFrustrum],
    [SkinnedMeshesRenderedLastTime]) or never touch are left out. *)
Record Scene (num M : Type) := mkScene {
  StartTime : Z;
  ActiveCamera : option (CameraSceneNode num M);
  ForceRedrawThisFrame : bool;
  LastViewProj : M;
  TheSkyBoxSceneNode : option (SceneNode num);
  SkyBoxSceneNode : option (SceneNode num);
  RedrawMode : Z;
  CurrentRenderMode : Z;
  SceneNodesToRender : list (SceneNode num);
  SceneNodesToRenderTransparent : list (SceneNode num);
  LightsToRender : list (SceneNode num);
  Overlay2DToRender : list (SceneNode num);
  NodeCountRenderedLastTime : nat;
  UseCulling : bool;
  SceneAmbientLight : ColorF num;
  DeletionList : list (DeletionEntry num);
  CollisionWorld : option (gset nat);
  Parent : gmap nat nat
}.
Arguments mkScene {num M} _ _ _ _ _ _ _ _ _ _ _ _ _ _ _ _ _ _.
Arguments StartTime {num M} _.
Arguments ActiveCamera {num M} _.
Arguments ForceRedrawThisFrame {num M} _.
Arguments LastViewProj {num M} _.
Arguments TheSkyBoxSceneNode {num M} _.
Arguments SkyBoxSceneNode {num M} _.
Arguments RedrawMode {num M} _.
Arguments CurrentRenderMode {num M} _.
Arguments SceneNodesToRender {num M} _.
Arguments SceneNodesToRenderTransparent {num M} _.
Arguments LightsToRender {num M} _.
Arguments Overlay2DToRender {num M} _.
Arguments NodeCountRenderedLastTime {num M} _.
Arguments UseCulling {num M} _.
Arguments SceneAmbientLight {num M} _.
Arguments DeletionList {num M} _.
Arguments CollisionWorld {num M} _.
Arguments Parent {num M} _.

(** The public constants at the end of [flacescene.js]. *)
Definition REDRAW_WHEN_CAM_MOVED : Z := 2.
Definition REDRAW_WHEN_SCENE_CHANGED : Z := 1.
Definition REDRAW_EVERY_FRAME : Z := 2.

Definition RENDER_MODE_SKYBOX : Z := 1.
Definition RENDER_MODE_DEFAULT : Z := 0.
Definition RENDER_MODE_LIGHTS : Z := 2.
Definition RENDER_MODE_CAMERA : Z := 3.
Definition RENDER_MODE_TRANSPARENT : Z := 4.
Definition RENDER_MODE_2DOVERLAY : Z := 5.

(** Modelled from the spec: [CL3D.Vect3d.getDistanceFromSQ], of the absent
    vector class, is the squared distance between two points. *)
Definition getDistanceFromSQ (a b : Vect3d Z) : Z :=
  (vX a - vX b) * (vX a - vX b) + (vY a - vY b) * (vY a - vY b) + (vZ a - vZ b) * (vZ a - vZ b).

(** [Array.prototype.sort(cmp)].  ECMAScript requires the sort to be stable;
    with a consistent comparison function the outcome of a stable sort is
    determined, and insertion sort computes it: an element is placed before
    the first element of the sorted rest that it does not have to follow. *)
Fixpoint sort_insert {A : Type} (cmp : A → A → Z) (x : A) (l : list A) : list A :=
  match l with
  | [] => [x]
  | y :: l' => if decide (cmp x y ≤ 0) then x :: y :: l' else y :: sort_insert cmp x l'
  end.

Definition Array_sort {A : Type} (cmp : A → A → Z) (l : list A) : list A :=
  foldr (sort_insert cmp) [] l.

(** The comparison function of the light sort in [drawAll]. *)
Definition compare_lights {num} (camPos : Vect3d Z) (a b : SceneNode num) : Z :=
  let distance1 := getDistanceFromSQ camPos (AbsolutePosition a) in
  let distance2 := getDistanceFromSQ camPos (AbsolutePosition b) in
  if decide (distance1 > distance2) then 1
  else if decide (distance1 < distance2) then -1
  else 0.

(** The comparison function of the transparent-node sort in [drawAll]. *)
Definition compare_transparent {num} (camPos : Vect3d Z) (a b : SceneNode num) : Z :=
  let distance1 := getDistanceFromSQ camPos (AbsolutePosition a) in
  let distance2 := getDistanceFromSQ camPos (AbsolutePosition b) in
  if decide (distance1 < distance2) then 1
  else if decide (distance1 > distance2) then -1
  else 0.

(** What one tick supplies from outside the scene: the clock
    ([CL3D.CLTimer.getTime()]), the result of the animate pass
    ([RootNode.OnAnimate]) and the scripting interface's [needsRedraw()]. *)
Record Tick := mkTick {
  now : Z;
  animatorsChanged : bool;
  scriptNeedsRedraw : bool
}.

(** A call of a node's [render], with the render mode current at the call. *)
Record RenderEvent (num : Type) := mkRenderEvent {
  ev_mode : Z;
  ev_node : SceneNode num
}.
Arguments mkRenderEvent {num} _ _.
Arguments ev_mode {num} _.
Arguments ev_node {num} _.

(** Modelled from the spec: [removeChild], of the absent scene node class,
    detaches a child from its parent. *)
Definition removeChild (parent child : nat) (links : gmap nat nat) : gmap nat nat :=
  if decide (links !! child = Some parent) then delete child links else links.

(** Modelled from the spec: [removeSelector], of the absent collision world
    class, removes a selector from the collision structure. *)
Definition removeSelector (sel : nat) (world : gset nat) : gset nat := world ∖ {[sel]}.

Section SceneCode.
Context {num M : Type} {math : CL3DMath num M}.

Definition setRedrawMode (mode : Z) (s : Scene num M) : Scene num M :=
  mkScene (StartTime s) (ActiveCamera s) (ForceRedrawThisFrame s) (LastViewProj s)
    (TheSkyBoxSceneNode s) (SkyBoxSceneNode s) mode (CurrentRenderMode s)
    (SceneNodesToRender s) (SceneNodesToRenderTransparent s) (LightsToRender s)
    (Overlay2DToRender s) (NodeCountRenderedLastTime s) (UseCulling s)
    (SceneAmbientLight s) (DeletionList s) (CollisionWorld s) (Parent s).

Definition setActiveCamera (activeCamera : option (CameraSceneNode num M)) (s : Scene num M)
  : Scene num M :=
  mkScene (StartTime s) activeCamera (ForceRedrawThisFrame s) (LastViewProj s)
    (TheSkyBoxSceneNode s) (SkyBoxSceneNode s) (RedrawMode s) (CurrentRenderMode s)
    (SceneNodesToRender s) (SceneNodesToRenderTransparent s) (LightsToRender s)
    (Overlay2DToRender s) (NodeCountRenderedLastTime s) (UseCulling s)
    (SceneAmbientLight s) (DeletionList s) (CollisionWorld s) (Parent s).

Definition setForceRedrawThisFrame (b : bool) (s : Scene num M) : Scene num M :=
  mkScene (StartTime s) (ActiveCamera s) b (LastViewProj s)
    (TheSkyBoxSceneNode s) (SkyBoxSceneNode s) (RedrawMode s) (CurrentRenderMode s)
    (SceneNodesToRender s) (SceneNodesToRenderTransparent s) (LightsToRender s)
    (Overlay2DToRender s) (NodeCountRenderedLastTime s) (UseCulling s)
    (SceneAmbientLight s) (DeletionList s) (CollisionWorld s) (Parent s).

Definition forceRedrawNextFrame (s : Scene num M) : Scene num M :=
  setForceRedrawThisFrame true s.

Definition addToDeletionQueue (n : SceneNode num) (afterTimeMs : Z) (time : Z)
    (s : Scene num M) : Scene num M :=
  let e := mkDeletionEntry n (afterTimeMs + time) in
  mkScene (StartTime s) (ActiveCamera s) (ForceRedrawThisFrame s) (LastViewProj s)
    (TheSkyBoxSceneNode s) (SkyBoxSceneNode s) (RedrawMode s) (CurrentRenderMode s)
    (SceneNodesToRender s) (SceneNodesToRenderTransparent s) (LightsToRender s)
    (Overlay2DToRender s) (NodeCountRenderedLastTime s) (UseCulling s)
    (SceneAmbientLight s) (DeletionList s ++ [e]) (CollisionWorld s) (Parent s).

(** The loop of [clearDeletionList] over the entries not yet visited.  An
    entry that is due is spliced out, so the loop visits every entry once; the
    result is the entries kept and the parent links, the collision world and
    [ret] afterwards. *)
Fixpoint deletion_loop (deleteAll : bool) (time : Z) (l : list (DeletionEntry num))
    (st : gmap nat nat * option (gset nat) * bool)
  : list (DeletionEntry num) * (gmap nat nat * option (gset nat) * bool) :=
  match l with
  | [] => ([], st)
  | e :: l' =>
      if deleteAll || bool_decide (timeAfterToDelete e < time) then
        let links :=
          match st.1.1 !! nodeId (node e) with
          | Some p => removeChild p (nodeId (node e)) st.1.1
          | None => st.1.1
          end in
        let world :=
          match st.1.2, Selector (node e) with
          | Some w, Some sel => Some (removeSelector sel w)
          | _, _ => st.1.2
          end in
        deletion_loop deleteAll time l' (links, world, true)
      else
        let r := deletion_loop deleteAll time l' st in
        (e :: r.1, r.2)
  end.

Definition clearDeletionList (deleteAll : bool) (time : Z) (s : Scene num M)
  : bool * Scene num M :=
  match DeletionList s with
  | [] => (false, s)
  | l =>
      let r := deletion_loop deleteAll time l (Parent s, CollisionWorld s, false) in
      (r.2.2,
       mkScene (StartTime s) (ActiveCamera s) (ForceRedrawThisFrame s) (LastViewProj s)
         (TheSkyBoxSceneNode s) (SkyBoxSceneNode s) (RedrawMode s) (CurrentRenderMode s)
         (SceneNodesToRender s) (SceneNodesToRenderTransparent s) (LightsToRender s)
         (Overlay2DToRender s) (NodeCountRenderedLastTime s) (UseCulling s)
         (SceneAmbientLight s) r.1 r.2.1.2 r.2.1.1)
  end.

Definition HasViewChangedSinceLastRedraw (s : Scene num M) : bool :=
  match ActiveCamera s with
  | None => true
  | Some cam => negb (m4_equals (m4_multiply (CamProjection cam) (ViewMatrix cam)) (LastViewProj s))
  end.

Definition StoreViewMatrixForRedrawCheck (s : Scene num M) : Scene num M :=
  match ActiveCamera s with
  | None => s
  | Some cam =>
      mkScene (StartTime s) (ActiveCamera s) (ForceRedrawThisFrame s)
        (m4_multiply (CamProjection cam) (ViewMatrix cam))
        (TheSkyBoxSceneNode s) (SkyBoxSceneNode s) (RedrawMode s) (CurrentRenderMode s)
        (SceneNodesToRender s) (SceneNodesToRenderTransparent s) (LightsToRender s)
        (Overlay2DToRender s) (NodeCountRenderedLastTime s) (UseCulling s)
        (SceneAmbientLight s) (DeletionList s) (CollisionWorld s) (Parent s)
  end.

(** [doAnimate(renderer)]: the answer (does the frame have to be drawn), the
    scene and the renderer afterwards. *)
Definition doAnimate (s : Scene num M) (renderer : option (Renderer num M)) (t : Tick)
  : bool * Scene num M * option (Renderer num M) :=
  let s1 :=
    mkScene (if decide (StartTime s = 0) then now t else StartTime s)
      (ActiveCamera s) (ForceRedrawThisFrame s) (LastViewProj s)
      None (* this.TheSkyBoxSceneNode = null *)
      (SkyBoxSceneNode s) (RedrawMode s) (CurrentRenderMode s)
      (SceneNodesToRender s) (SceneNodesToRenderTransparent s) (LightsToRender s)
      (Overlay2DToRender s) (NodeCountRenderedLastTime s) (UseCulling s)
      (SceneAmbientLight s) (DeletionList s) (CollisionWorld s) (Parent s) in
  let cleared := clearDeletionList false (now t) s1 in
  let s2 := cleared.2 in
  let sceneChanged := cleared.1 || animatorsChanged t in
  let viewHasChanged := HasViewChangedSinceLastRedraw s2 in
  let flag :=
    match renderer with
    | Some r => let p := getAndResetTextureWasLoadedFlag r in (p.1, Some p.2)
    | None => (false, None)
    end in
  let textureLoadWasFinished := flag.1 in
  let needToRedraw :=
    ForceRedrawThisFrame s2
    || (bool_decide (RedrawMode s2 = 0) && (viewHasChanged || textureLoadWasFinished))
    || (bool_decide (RedrawMode s2 = 1) && (viewHasChanged || sceneChanged || textureLoadWasFinished))
    || bool_decide (RedrawMode s2 = 2)
    || scriptNeedsRedraw t in
  if needToRedraw then (true, setForceRedrawThisFrame false s2, flag.2)
  else (false, s2, flag.2).
End SceneCode.

Section SceneDraw.
Context {num M : Type} {math : CL3DMath num M}.

(** The test [cullingBox.intersectsWithBox(s.getTransformedBoundingBox())] for
    the culling box of the frustum of a projection-view product seen from a
    camera position; frustum and boxes are outside the source files. *)
Variable intersectsCullingBox : M → Vect3d Z → SceneNode num → bool.

Definition setRenderLists (s : Scene num M)
    (skybox : option (SceneNode num))
    (nodes transparent lights overlays : list (SceneNode num)) : Scene num M :=
  mkScene (StartTime s) (ActiveCamera s) (ForceRedrawThisFrame s) (LastViewProj s)
    (TheSkyBoxSceneNode s) skybox (RedrawMode s) (CurrentRenderMode s)
    nodes transparent lights overlays (NodeCountRenderedLastTime s) (UseCulling s)
    (SceneAmbientLight s) (DeletionList s) (CollisionWorld s) (Parent s).

(** [registerNodeForRendering(s, mode)]; [mode] is [None] when the caller
    passes none. *)
Definition registerNodeForRendering (sc : Scene num M) (s : SceneNode num) (mode : option Z)
  : Scene num M :=
  let mode := default RENDER_MODE_DEFAULT mode in
  if decide (mode = RENDER_MODE_SKYBOX) then
    setRenderLists sc (Some s) (SceneNodesToRender sc) (SceneNodesToRenderTransparent sc)
      (LightsToRender sc) (Overlay2DToRender sc)
  else if decide (mode = RENDER_MODE_DEFAULT) then
    setRenderLists sc (SkyBoxSceneNode sc) (SceneNodesToRender sc ++ [s])
      (SceneNodesToRenderTransparent sc) (LightsToRender sc) (Overlay2DToRender sc)
  else if decide (mode = RENDER_MODE_LIGHTS) then
    setRenderLists sc (SkyBoxSceneNode sc) (SceneNodesToRender sc)
      (SceneNodesToRenderTransparent sc) (LightsToRender sc ++ [s]) (Overlay2DToRender sc)
  else if decide (mode = RENDER_MODE_CAMERA) then sc
  else if decide (mode = RENDER_MODE_TRANSPARENT) then
    setRenderLists sc (SkyBoxSceneNode sc) (SceneNodesToRender sc)
      (SceneNodesToRenderTransparent sc ++ [s]) (LightsToRender sc) (Overlay2DToRender sc)
  else if decide (mode = RENDER_MODE_2DOVERLAY) then
    setRenderLists sc (SkyBoxSceneNode sc) (SceneNodesToRender sc)
      (SceneNodesToRenderTransparent sc) (LightsToRender sc) (Overlay2DToRender sc ++ [s])
  else sc.

(** [RootNode.OnRegisterSceneNode(this)]: the traversal, of the absent scene
    node class, hands the scene the registration calls of the nodes that opt
    in, in traversal order. *)
Definition OnRegisterSceneNode (regs : list (SceneNode num * option Z)) (sc : Scene num M)
  : Scene num M :=
  foldl (λ sc r, registerNodeForRendering sc r.1 r.2) sc regs.

(** Modelled from the spec: the [render] of a light node, of the absent light
    node class, hands its light data to the renderer: a directional light
    through [setDirectionalLight], a point light through [addDynamicLight]. *)
Definition render_light (r : Renderer num M) (n : SceneNode num) : Renderer num M :=
  match LightData n with
  | Some l => if IsDirectional n then setDirectionalLight l r else addDynamicLight l r
  | None => r
  end.

(** Modelled from the spec: the [render] of the camera, of the absent camera
    class, publishes its projection and view matrices to the renderer. *)
Definition render_camera (r : Renderer num M) (cam : CameraSceneNode num M) : Renderer num M :=
  mkRenderer (gl r) (textureWasLoadedFlag r) (CamProjection cam) (ViewMatrix cam) (World r)
    (AmbientLight r) (Lights r) (DirectionalLight r) (currentGLProgram r).

(** The nodes of a list that pass [cullingBox == null ||
    cullingBox.intersectsWithBox(...)], in order. *)
Definition culled (cullingBox : option (SceneNode num → bool)) (l : list (SceneNode num))
  : list (SceneNode num) :=
  match cullingBox with
  | None => l
  | Some box => filter (λ s, box s = true) l
  end.

(** [drawAll(renderer)]: the scene and the renderer afterwards and the
    [render] calls made, in order. *)
Definition drawAll (s : Scene num M) (renderer : Renderer num M)
    (regs : list (SceneNode num * option Z))
  : Scene num M * Renderer num M * list (RenderEvent num) :=
  (* register for rendering *)
  let s1 := OnRegisterSceneNode regs (setRenderLists s (SkyBoxSceneNode s) [] [] [] []) in
  (* active camera *)
  let camPos := (AbsolutePosition ∘ camNode) <$> ActiveCamera s1 in
  let r1 := match ActiveCamera s1 with Some cam => render_camera renderer cam | None => renderer end in
  let evCamera :=
    match ActiveCamera s1 with
    | Some cam => [mkRenderEvent RENDER_MODE_CAMERA (camNode cam)]
    | None => []
    end in
  (* skybox *)
  let evSkybox :=
    match SkyBoxSceneNode s1 with
    | Some sky => [mkRenderEvent RENDER_MODE_SKYBOX sky]
    | None => []
    end in
  let r2 := setAmbientLight (SceneAmbientLight s1) (clearDynamicLights r1) in
  (* sort lights *)
  let lights :=
    match camPos with
    | Some p =>
        if decide (0 < length (LightsToRender s1))%nat
        then Array_sort (compare_lights p) (LightsToRender s1)
        else LightsToRender s1
    | None => LightsToRender s1
    end in
  let r3 := foldl render_light r2 lights in
  let evLights := mkRenderEvent RENDER_MODE_LIGHTS <$> lights in
  (* prepare for frustrum culling *)
  let cullingBox :=
    match camPos with
    | Some p =>
        if UseCulling s1
        then Some (intersectsCullingBox (m4_multiply (Projection r3) (View r3)) p)
        else None
    | None => None
    end in
  (* draw nodes *)
  let nodes := culled cullingBox (SceneNodesToRender s1) in
  let evNodes := mkRenderEvent RENDER_MODE_DEFAULT <$> nodes in
  (* sort transparent nodes *)
  let transparent :=
    match camPos with
    | Some p =>
        if decide (0 < length (SceneNodesToRenderTransparent s1))%nat
        then Array_sort (compare_transparent p) (SceneNodesToRenderTransparent s1)
        else SceneNodesToRenderTransparent s1
    | None => SceneNodesToRenderTransparent s1
    end in
  let drawnTransparent := culled cullingBox transparent in
  let evTransparent := mkRenderEvent RENDER_MODE_TRANSPARENT <$> drawnTransparent in
  (* draw overlays *)
  let evOverlays := mkRenderEvent RENDER_MODE_2DOVERLAY <$> Overlay2DToRender s1 in
  let nodesRendered :=
    (length lights + length nodes + length drawnTransparent + length (Overlay2DToRender s1))%nat in
  let s2 :=
    mkScene (StartTime s1) (ActiveCamera s1) (ForceRedrawThisFrame s1) (LastViewProj s1)
      (TheSkyBoxSceneNode s1) (SkyBoxSceneNode s1) (RedrawMode s1) RENDER_MODE_2DOVERLAY
      (SceneNodesToRender s1) transparent lights
      (Overlay2DToRender s1) nodesRendered (UseCulling s1)
      (SceneAmbientLight s1) (DeletionList s1) (CollisionWorld s1) (Parent s1) in
  (StoreViewMatrixForRedrawCheck s2, r3,
   evCamera ++ evSkybox ++ evLights ++ evNodes ++ evTransparent ++ evOverlays).

(** Modelled from the spec: one tick of the frame scheduler, of the absent
    engine class: the frame is drawn when [doAnimate] asks for it, and
    otherwise the tick ends with no draw call. *)
Definition draw3dScene (s : Scene num M) (renderer : Renderer num M) (t : Tick)
    (regs : list (SceneNode num * option Z))
  : Scene num M * Renderer num M * list (RenderEvent num) :=
  let a := doAnimate s (Some renderer) t in
  let r := default renderer a.2 in
  if a.1.1 then drawAll a.1.2 r regs else (a.1.2, r, []).
End SceneDraw.

(** ** Observations and a concrete instance *)

(** The draws a call log shows: the index count and the index buffer bound at
    the call. *)
Definition draw_calls {num M} (cs : list (GLCall num M)) : list (nat * option nat) :=
  omap (λ c, match c with DrawElementsTriangles n b => Some (n, b) | _ => None end) cs.

(** The [uniform4fv] uploads a call log shows. *)
Definition light_uploads {num M} (cs : list (GLCall num M)) : list (option nat * list num) :=
  omap (λ c, match c with Uniform4fv loc d => Some (loc, d) | _ => None end) cs.

(** A computation that succeeds, leaves the buffer store as it is, adds the
    draws [D] and the light uploads [U] to the log, and takes the element
    buffer binding from [be] to [be']. *)
Definition performs {num M A} (be : option nat) (m : GLM num M A)
    (D : list (nat * option nat)) (U : list (option nat * list num)) (be' : option nat)
  : Prop :=
  ∀ g, boundElement g = be →
    ∃ a g', m g = Some (a, g')
      ∧ nextBuffer g' = nextBuffer g ∧ buffers g' = buffers g ∧ boundElement g' = be'
      ∧ draw_calls (calls g') = draw_calls (calls g) ++ D
      ∧ light_uploads (calls g') = light_uploads (calls g) ++ U.

(** A mesh buffer that has tangents and binormals has one of each for every
    vertex. *)
Definition tangents_ok {num} (buf : MeshBuffer num) : Prop :=
  match Tangents buf, Binormals buf with
  | Some ts, Some bs =>
      (length (Vertices buf) ≤ length ts)%nat ∧ (length (Vertices buf) ≤ length bs)%nat
  | _, _ => True
  end.

(** The buffer handles of a device resource. *)
Definition handles {num} (na : NativeArray num) : list nat :=
  [positionBuffer na; texcoordsBuffer na; texcoordsBuffer2 na; normalBuffer na;
   colorBuffer na; indexBuffer na]
  ++ from_option (λ h, [h]) [] (tangentBuffer na)
  ++ from_option (λ h, [h]) [] (binormalBuffer na).

(** The flush of the pending deletions alone, as a tick performs it. *)
Definition flush_tick {num M} (s : Scene num M) (time : Z) : Scene num M :=
  (clearDeletionList false time s).2.

(** An entry of the deletion queue is due when the flush deletes all or its
    time has passed. *)
Definition due {num} (deleteAll : bool) (time : Z) (e : DeletionEntry num) : Prop :=
  deleteAll = true ∨ timeAfterToDelete e < time.

(** The nodes a registration pass registers under one render mode. *)
Definition registered {num} (mode : Z) (regs : list (SceneNode num * option Z))
  : list (SceneNode num) :=
  (filter (λ r, default RENDER_MODE_DEFAULT r.2 = mode) regs).*1.

(** The [render] calls of a trace made under one render mode. *)
Definition rendered_in {num} (mode : Z) (evs : list (RenderEvent num)) : list (SceneNode num) :=
  ev_node <$> filter (λ e, ev_mode e = mode) evs.

Definition distance_to {num} (camPos : Vect3d Z) (n : SceneNode num) : Z :=
  getDistanceFromSQ camPos (AbsolutePosition n).

(** An instance of the math interface on integers, for running the code on
    concrete inputs: numbers and matrices are integers, a matrix acts on a
    vector by scaling. *)
Definition scale_vect (m : Z) (v : Vect3d Z) : Vect3d Z :=
  mkVect3d (m * vX v) (m * vY v) (m * vZ v).

Definition integer_math : CL3DMath Z Z := {|
  lit := id;
  num_mul := Z.mul;
  num_div := Z.div;
  toFloat32 := id;
  getRed := λ c, Z.land (Z.shiftr c 16) 255;
  getGreen := λ c, Z.land (Z.shiftr c 8) 255;
  getBlue := λ c, Z.land c 255;
  getAlpha := λ c, Z.land (Z.shiftr c 24) 255;
  m4_identity := 1;
  m4_multiply := Z.mul;
  m4_equals := Z.eqb;
  m4_getInverse := λ a out, a;
  m4_makeInverse := id;
  m4_getTransposed := id;
  m4_getTransformedVect := scale_vect;
  m4_rotateVect := scale_vect;
  v3_multiplyThisWithScal := λ v k, scale_vect k v;
  v3_normalize := id
|}.

Definition plain_node (id : nat) (x y z : Z) : SceneNode Z :=
  mkSceneNode id (mkVect3d x y z) None None false.

Definition empty_scene : Scene Z Z :=
  mkScene 0 None false 1 None None 2 0 [] [] [] [] 0 false (mkColorF 0 0 0) [] None ∅.

Definition empty_gl : GLState Z Z := mkGL 0 ∅ None None [].

Definition plain_program : Program :=
  mkProgram (Some 0%nat) None None None (Some 1%nat) (Some 2%nat) None None.

Definition plain_renderer : Renderer Z Z :=
  mkRenderer (Some empty_gl) false 1 1 1 (mkColorF 0 0 0) [] None (Some plain_program).

Definition no_culling : Z → Vect3d Z → SceneNode Z → bool := λ _ _ _, true.

(** The four components a light slot holds after the light loop: the light
    at that place in the renderer's list, or else the dark light. *)
Definition position_slot {num M} {math : CL3DMath num M} (r : Renderer num M)
    (useWorld useOld : bool) (i : nat) : list num :=
  match Lights r !! i with
  | Some l =>
      let vt := m4_getTransformedVect (light_matrix r useWorld) (Position l) in
      [toFloat32 (vX vt); toFloat32 (vY vt); toFloat32 (vZ vt);
       toFloat32 (if useOld then num_div (lit 1) (num_mul (Radius l) (Radius l))
                  else Attenuation l)]
  | None => [toFloat32 (lit 1); toFloat32 (lit 0); toFloat32 (lit 0); toFloat32 (lit 1)]
  end.

Definition color_slot {num M} {math : CL3DMath num M} (r : Renderer num M) (i : nat) : list num :=
  match Lights r !! i with
  | Some l =>
      [toFloat32 (cR (LColor l)); toFloat32 (cG (LColor l)); toFloat32 (cB (LColor l));
       toFloat32 (lit 1)]
  | None => [toFloat32 (lit 0); toFloat32 (lit 0); toFloat32 (lit 0); toFloat32 (lit 1)]
  end.

(** The light data of the point lights among some light nodes, in order. *)
Definition point_lights {num} (l : list (SceneNode num)) : list (Light num) :=
  omap (λ n, if IsDirectional n then None else LightData n) l.

(** Concrete mesh buffers and scenes. *)
Definition vertex_at (x y z : Z) : Vertex3D Z :=
  mkVertex3D (mkVect3d x y z) (mkVect3d 0 0 1) 0xffffffff (mkVect2d 0 0) (mkVect2d 0 0).

Definition triangle_buffer : MeshBuffer Z :=
  mkMeshBuffer [vertex_at 0 0 0; vertex_at 1 0 0; vertex_at 0 1 0] [0; 1; 2]
    None None None false false.

Definition empty_buffer : MeshBuffer Z :=
  mkMeshBuffer [] [] None None None false false.

Definition created (buf : MeshBuffer Z) : option (MeshBuffer Z * GLState Z Z) :=
  createRendererNativeArray (math:=integer_math) buf empty_gl.

(** A buffer created with three vertices whose vertex list then shrinks to one
    vertex and is flagged for an update in place. *)
Definition shrunk_buffer : option (MeshBuffer Z * GLState Z Z) :=
  match created triangle_buffer with
  | Some (buf, g) =>
      Some (mkMeshBuffer [vertex_at 7 8 9] (Indices buf) None None
              (RendererNativeArray buf) false true, g)
  | None => None
  end.

Definition queued_node : SceneNode Z := mkSceneNode 1 (mkVect3d 0 0 0) (Some 7%nat) None false.

Definition scene_with_child : Scene Z Z :=
  mkScene 0 None false 1 None None 2 0 [] [] [] [] 0 false (mkColorF 0 0 0) []
    (Some {[7%nat]}) {[1%nat := 0%nat]}.

Definition origin_camera : CameraSceneNode Z Z := mkCamera (plain_node 0 0 0 0) 1 1.

Definition scene_with_camera : Scene Z Z :=
  mkScene 0 (Some origin_camera) false 1 None None 2 0 [] [] [] [] 0 false
    (mkColorF 0 0 0) [] None ∅.

(** A resource made for one vertex and three indices, and a buffer that has
    grown to three vertices since. *)
Definition small_resource : NativeArray Z :=
  mkNativeArray 0 [0; 0; 0] 1 2 3 None None 4 [1; 1; 1; 1] 5 3 1.

Definition grown_buffer : MeshBuffer Z :=
  mkMeshBuffer [vertex_at 0 0 0; vertex_at 1 0 0; vertex_at 0 1 0] [0; 1; 2]
    None None (Some small_resource) false true.

(** A resource made for three vertices, and a buffer that has one vertex now. *)
Definition large_resource : NativeArray Z :=
  mkNativeArray 0 [0; 0; 0; 1; 0; 0; 0; 1; 0] 1 2 3 None None 4
    [1; 1; 1; 1; 1; 1; 1; 1; 1; 1; 1; 1] 5 3 3.

Definition one_vertex_buffer : MeshBuffer Z :=
  mkMeshBuffer [vertex_at 7 8 9] [0; 1; 2] None None (Some large_resource) false true.

(** The position array of the resource a create or an update leaves. *)
Definition positions_after (res : option (MeshBuffer Z * GLState Z Z)) : option (list Z) :=
  match res with
  | Some (buf, _) => positionsArray <$> RendererNativeArray buf
  | None => None
  end.

Definition light_at (x : Z) : Light Z := mkLight (mkVect3d x 0 0) (mkColorF 1 1 1) 10 1 None.

Definition five_lights_renderer : Renderer Z Z :=
  mkRenderer (Some empty_gl) false 1 1 1 (mkColorF 0 0 0)
    [light_at 1; light_at 2; light_at 3; light_at 4; light_at 5] None (Some plain_program).

(** Three transparent nodes at distances 1, 5 and 5 from the origin, in
    registration order. *)
Definition near_node : SceneNode Z := plain_node 1 1 0 0.
Definition far_node_a : SceneNode Z := plain_node 2 5 0 0.
Definition far_node_b : SceneNode Z := plain_node 3 0 5 0.

Definition three_transparent : list (SceneNode Z * option Z) :=
  [(near_node, Some RENDER_MODE_TRANSPARENT);
   (far_node_a, Some RENDER_MODE_TRANSPARENT);
   (far_node_b, Some RENDER_MODE_TRANSPARENT)].

(** ** Further code of [renderer.js] and [flacescene.js] *)

(** *** Texture sizes

    The bit operators of JavaScript work on the 32-bit integer value of their
    operands. *)
Definition ToInt32 (z : Z) : Z := (z + 2^31) mod 2^32 - 2^31.

(** [(x & (x - 1)) == 0] *)
Definition isPowerOfTwo (x : Z) : bool :=
  bool_decide (Z.land (ToInt32 x) (ToInt32 (x - 1)) = 0).

(** [x | x >> i]: the shift is the sign-propagating one, by [i] modulo 32. *)
Definition or_shifted (i x : Z) : Z :=
  Z.lor (ToInt32 x) (Z.shiftr (ToInt32 x) (Z.land i 31)).

(** [for (var i = 1; i < 32; i <<= 1) x = x | x >> i;] from position [i] on;
    [fuel] bounds the iterations, of which there are five. *)
Fixpoint smear_bits (fuel : nat) (i x : Z) : Z :=
  match fuel with
  | O => x
  | S fuel' =>
      if decide (i < 32)
      then smear_bits fuel' (ToInt32 (Z.shiftl (ToInt32 i) 1)) (or_shifted i x)
      else x
  end.

Definition nextHighestPowerOfTwo (x : Z) : Z := smear_bits 32 1 (x - 1) + 1.

(** What [createTextureFrom2DCanvas] reads of a canvas or video element. *)
Record Canvas := mkCanvas {
  width : Z;
  height : Z;
  videoWidth : option Z;
  videoHeight : option Z
}.

(** The sizes [createTextureFrom2DCanvas] records in the texture it returns. *)
Record TextureSizes := mkTextureSizes {
  CachedWidth : Z;
  CachedHeight : Z;
  OriginalWidth : Z;
  OriginalHeight : Z
}.

(** [if (canvas.videoWidth) origwidth = canvas.videoWidth]: a missing or zero
    value is falsy. *)
Definition truthy_or (v : option Z) (d : Z) : Z :=
  match v with
  | Some w => if decide (w = 0) then d else w
  | None => d
  end.

(** The size computation of [createTextureFrom2DCanvas] (and of
    [updateTextureFrom2DCanvas]): the canvas handed to the device is scaled up
    when one of the two sizes is no power of two. *)
Definition textureSizesFrom2DCanvas (canvas : Canvas) : TextureSizes :=
  let origwidth := truthy_or (videoWidth canvas) (width canvas) in
  let origheight := truthy_or (videoHeight canvas) (height canvas) in
  if negb (isPowerOfTwo origwidth) || negb (isPowerOfTwo origheight)
  then mkTextureSizes (nextHighestPowerOfTwo origwidth) (nextHighestPowerOfTwo origheight)
         origwidth origheight
  else mkTextureSizes origwidth origheight origwidth origheight.

(** The lights and the transparent nodes in the order [drawAll] renders
    them: sorted by distance to the camera when there is one. *)
Definition pass_order {num M} (s : Scene num M)
    (cmp : Vect3d Z → SceneNode num → SceneNode num → Z) (l : list (SceneNode num))
  : list (SceneNode num) :=
  match ActiveCamera s with
  | Some cam => Array_sort (cmp (AbsolutePosition (camNode cam))) l
  | None => l
  end.

(** *** The scene graph and its queries

    What the queries of [flacescene.js] read of a scene node: its id, its
    name, its type string and its children, in order. *)
#[warnings="-register-all"] Inductive GraphNode :=
  mkGraphNode (id : Z) (name : string) (type : string) (children : list GraphNode).

Definition Id (n : GraphNode) : Z := match n with mkGraphNode id _ _ _ => id end.
Definition Name (n : GraphNode) : string := match n with mkGraphNode _ name _ _ => name end.
Definition getType (n : GraphNode) : string := match n with mkGraphNode _ _ type _ => type end.
Definition Children (n : GraphNode) : list GraphNode :=
  match n with mkGraphNode _ _ _ children => children end.

(** [for (i...) { var s = f(n.Children[i]); if (s) return s; } return null;] *)
Definition first_result {A B : Type} (f : A → option B) : list A → option B :=
  fix loop (l : list A) : option B :=
    match l with
    | [] => None
    | child :: l' =>
        match f child with
        | Some s => Some s
        | None => loop l'
        end
    end.

Fixpoint getSceneNodeFromIdImpl (n : GraphNode) (id : Z) : option GraphNode :=
  match n with
  | mkGraphNode nid _ _ children =>
      if decide (nid = id) then Some n
      else first_result (λ child, getSceneNodeFromIdImpl child id) children
  end.

Fixpoint getSceneNodeFromNameImpl (n : GraphNode) (name : string) : option GraphNode :=
  match n with
  | mkGraphNode _ nname _ children =>
      if decide (nname = name) then Some n
      else first_result (λ child, getSceneNodeFromNameImpl child name) children
  end.

(** The array [a] after [getAllSceneNodesOfTypeImpl(n, c, a)]. *)
Fixpoint getAllSceneNodesOfTypeImpl (n : GraphNode) (c : string) (a : list GraphNode)
  : list GraphNode :=
  match n with
  | mkGraphNode _ _ type children =>
      foldl (λ a child, getAllSceneNodesOfTypeImpl child c a)
        (if decide (type = c) then a ++ [n] else a) children
  end.

(** The queries of the scene, on its [RootNode]. *)
Definition getSceneNodeFromId (RootNode : option GraphNode) (id : Z) : option GraphNode :=
  match RootNode with
  | None => None
  | Some root => getSceneNodeFromIdImpl root id
  end.

Definition getSceneNodeFromName (RootNode : option GraphNode) (name : string)
  : option GraphNode :=
  match RootNode with
  | None => None
  | Some root => getSceneNodeFromNameImpl root name
  end.

Definition getAllSceneNodesOfType (RootNode : option GraphNode) (type : string)
  : option (list GraphNode) :=
  match RootNode with
  | None => None
  | Some root => Some (getAllSceneNodesOfTypeImpl root type [])
  end.

(** [getUnusedSceneNodeId()]: [testId k] is the value
    [Math.round((Math.random()*10000)+10)] takes on try [k]; the loop is run
    from try [tries] with [n] tries left. *)
Fixpoint unused_id_loop (RootNode : option GraphNode) (testId : nat → Z) (tries n : nat) : Z :=
  match n with
  | O => -1
  | S n' =>
      match getSceneNodeFromId RootNode (testId tries) with
      | None => testId tries
      | Some _ => unused_id_loop RootNode testId (S tries) n'
      end
  end.

Definition getUnusedSceneNodeId (RootNode : option GraphNode) (testId : nat → Z) : Z :=
  unused_id_loop RootNode testId 0 1000.

(** The nodes of a graph in the order a depth-first traversal meets them,
    a node before its children. *)
Fixpoint preorder (n : GraphNode) : list GraphNode :=
  match n with
  | mkGraphNode _ _ _ children => n :: flat_map preorder children
  end.

Definition graph_nodes (RootNode : option GraphNode) : list GraphNode :=
  from_option preorder [] RootNode.

(** *** The animators registered for events

    An animator is an object and [===] compares identities, here numbers; a
    null argument is [None].  The list is the scene's
    [RegisteredSceneNodeAnimatorsForEventsList]. *)
Definition Animator := nat.

(** The search loop of [registerSceneNodeAnimatorForEvents]. *)
Fixpoint is_registered (a : Animator) (l : list Animator) : bool :=
  match l with
  | [] => false
  | s :: l' => if decide (s = a) then true else is_registered a l'
  end.

Definition registerSceneNodeAnimatorForEvents (a : option Animator) (l : list Animator)
  : list Animator :=
  match a with
  | None => l
  | Some a => if is_registered a l then l else l ++ [a]
  end.

(** The loop of [unregisterSceneNodeAnimatorForEvents]: the first entry
    identical to [a] is spliced out and the loop ends. *)
Fixpoint splice_first (a : Animator) (l : list Animator) : list Animator :=
  match l with
  | [] => []
  | s :: l' => if decide (s = a) then l' else s :: splice_first a l'
  end.

Definition unregisterSceneNodeAnimatorForEvents (a : option Animator) (l : list Animator)
  : list Animator :=
  match a with
  | None => l
  | Some a => splice_first a l
  end.

(** [postMouseDownToAnimators(event)] and its three siblings: the handler
    calls made, in order. *)
Definition postToAnimators {E : Type} (event : E) (l : list Animator) : list (Animator * E) :=
  (λ s, (s, event)) <$> l.

(** A call of one of the two registry functions, and the list after a
    sequence of such calls on a new scene. *)
Inductive RegistryCall :=
| Register (a : option Animator)
| Unregister (a : option Animator).

Definition registry_call (l : list Animator) (c : RegistryCall) : list Animator :=
  match c with
  | Register a => registerSceneNodeAnimatorForEvents a l
  | Unregister a => unregisterSceneNodeAnimatorForEvents a l
  end.

Definition registry_after (cs : list RegistryCall) : list Animator := foldl registry_call [] cs.

(** *** Material types

    The renderer's tables from material type to shader program.  The
    argument [program] of [createMaterialType] stands for what
    [createMaterialTypeInternal] returns: the linked program, or null when the
    shaders did not compile. *)
Record MaterialTables (P : Type) := mkMaterialTables {
  MinExternalMaterialTypeId : Z;
  MaterialPrograms : gmap Z P;
  MaterialProgramsWithLight : gmap Z P
}.
Arguments mkMaterialTables {P} _ _ _.
Arguments MinExternalMaterialTypeId {P} _.
Arguments MaterialPrograms {P} _.
Arguments MaterialProgramsWithLight {P} _.

Definition createMaterialType {P : Type} (program : option P) (t : MaterialTables P)
  : Z * MaterialTables P :=
  match program with
  | None => (-1, t)
  | Some p =>
      let id := MinExternalMaterialTypeId t + 1 in
      (id, mkMaterialTables id (<[id := p]> (MaterialPrograms t))
             (<[id := p]> (MaterialProgramsWithLight t)))
  end.

Definition getGLProgramFromMaterialType {P : Type} (t : MaterialTables P) (mattype : Z)
  : option P :=
  MaterialPrograms t !! mattype.

(** The tables after a sequence of [createMaterialType] calls. *)
Definition createMaterialTypes {P : Type} (programs : list (option P)) (t : MaterialTables P)
  : MaterialTables P :=
  foldl (λ t p, (createMaterialType p t).2) t programs.

(** Further concrete inputs. *)
Definition video_canvas : Canvas := mkCanvas 300 150 (Some 640) (Some 480).

Definition bare_renderer : Renderer Z Z :=
  mkRenderer (Some empty_gl) false 1 1 1 (mkColorF 0 0 0) [] None None.

(** Three vertices with one tangent and three binormals. *)
Definition short_tangents_buffer : MeshBuffer Z :=
  mkMeshBuffer [vertex_at 0 0 0; vertex_at 1 0 0; vertex_at 0 1 0] [0; 1; 2]
    (Some [mkVect3d 1 0 0]) (Some [mkVect3d 0 1 0; mkVect3d 0 1 0; mkVect3d 0 1 0])
    None false false.


(** A context whose store holds the position and the colour array of
    [large_resource]. *)
Definition mirrored_gl : GLState Z Z :=
  mkGL 6
    (<[0%nat := (Float32Array (positionsArray large_resource), DYNAMIC_DRAW)]>
       (<[4%nat := (Float32Array (colorArray large_resource), STATIC_DRAW)]> ∅))
    None None [].

(** A scene with a camera under redraw mode 1. *)
Definition quiet_scene : Scene Z Z :=
  mkScene 0 (Some origin_camera) false 1 None None 1 0 [] [] [] [] 0 false
    (mkColorF 0 0 0) [] None ∅.

(** A triangle whose indices are no unsigned shorts. *)
Definition wide_index_buffer : MeshBuffer Z :=
  mkMeshBuffer [vertex_at 0 0 0; vertex_at 1 0 0; vertex_at 0 1 0] [65536; 1; 70000]
    None None None false false.

(** The data of the index buffer of the resource a draw leaves. *)
Definition index_buffer_after (res : option (MeshBuffer Z * Renderer Z Z)) : option (list Z) :=
  match res with
  | Some (buf, r) =>
      match RendererNativeArray buf, gl r with
      | Some na, Some g =>
          match buffers g !! indexBuffer na with
          | Some (Uint16Array l, _) => Some l
          | _ => None
          end
      | _, _ => None
      end
  | None => None
  end.

(** * Properties *)

Section SceneProperties.
Context {num M : Type} {math : CL3DMath num M}.

Lemma clearDeletionList_frame (deleteAll : bool) (time : Z) (s : Scene num M) :
  let s' := (clearDeletionList deleteAll time s).2 in
  ActiveCamera s' = ActiveCamera s ∧ RedrawMode s' = RedrawMode s ∧
  ForceRedrawThisFrame s' = ForceRedrawThisFrame s ∧ LastViewProj s' = LastViewProj s ∧
  SkyBoxSceneNode s' = SkyBoxSceneNode s ∧ StartTime s' = StartTime s.
Proof. unfold clearDeletionList. destruct (DeletionList s); simpl; auto 10. Qed.

Lemma HasViewChanged_ext (s s' : Scene num M) :
  ActiveCamera s' = ActiveCamera s → LastViewProj s' = LastViewProj s →
  HasViewChangedSinceLastRedraw s' = HasViewChangedSinceLastRedraw s.
Proof. unfold HasViewChangedSinceLastRedraw. intros -> ->. reflexivity. Qed.

(** The decision of [doAnimate] in terms of the scene it is called on. *)
Lemma doAnimate_answer (s : Scene num M) (renderer : option (Renderer num M)) (t : Tick) :
  ∃ sceneChanged : bool,
  (doAnimate s renderer t).1.1 =
    ForceRedrawThisFrame s
    || (bool_decide (RedrawMode s = 0) &&
        (HasViewChangedSinceLastRedraw s || from_option textureWasLoadedFlag false renderer))
    || (bool_decide (RedrawMode s = 1) &&
        (HasViewChangedSinceLastRedraw s || sceneChanged
         || from_option textureWasLoadedFlag false renderer))
    || bool_decide (RedrawMode s = 2)
    || scriptNeedsRedraw t.
Proof.
  unfold doAnimate.
  set (s1 := mkScene _ _ _ _ _ _ _ _ _ _ _ _ _ _ _ _ _ _).
  destruct (clearDeletionList_frame false (now t) s1) as (Hc & Hm & Hf & Hl & _).
  set (cl := clearDeletionList false (now t) s1) in *.
  exists (cl.1 || animatorsChanged t).
  rewrite (HasViewChanged_ext s cl.2) by (rewrite ?Hc, ?Hl; reflexivity).
  rewrite Hm, Hf.
  destruct renderer as [r|]; simpl;
  match goal with |- (if ?b then _ else _).1.1 = _ => destruct b eqn:E end; simpl; congruence.
Qed.

Lemma doAnimate_frame (s : Scene num M) (renderer : option (Renderer num M)) (t : Tick) :
  let s' := (doAnimate s renderer t).1.2 in
  ActiveCamera s' = ActiveCamera s ∧ RedrawMode s' = RedrawMode s ∧
  LastViewProj s' = LastViewProj s ∧ SkyBoxSceneNode s' = SkyBoxSceneNode s.
Proof.
  unfold doAnimate.
  set (s1 := mkScene _ _ _ _ _ _ _ _ _ _ _ _ _ _ _ _ _ _).
  destruct (clearDeletionList_frame false (now t) s1) as (Hc & Hm & Hf & Hl & Hs & _).
  set (cl := clearDeletionList false (now t) s1) in *.
  match goal with |- context [if ?b then _ else _] => destruct b end; simpl;
    rewrite ?Hc, ?Hm, ?Hl, ?Hs; auto.
Qed.

(** C10: with no active camera [HasViewChangedSinceLastRedraw] answers true,
    and [doAnimate] asks for a redraw under each of the three redraw modes it
    distinguishes (0, 1 and 2), whatever else the tick brings; the camera
    stays absent and the mode stays as it is, so this holds on every tick. *)
Theorem redraw_every_tick_without_camera
    (s : Scene num M) (renderer : option (Renderer num M)) (t : Tick) :
  ActiveCamera s = None →
  RedrawMode s = 0 ∨ RedrawMode s = 1 ∨ RedrawMode s = 2 →
  HasViewChangedSinceLastRedraw s = true
  ∧ (doAnimate s renderer t).1.1 = true
  ∧ ActiveCamera (doAnimate s renderer t).1.2 = None
  ∧ RedrawMode (doAnimate s renderer t).1.2 = RedrawMode s.
Proof.
  intros Hcam Hmode.
  assert (Hview : HasViewChangedSinceLastRedraw s = true)
    by (unfold HasViewChangedSinceLastRedraw; rewrite Hcam; reflexivity).
  destruct (doAnimate_frame s renderer t) as (Hc & Hm & _).
  split; [exact Hview|]. split; [|split; [congruence|exact Hm]].
  destruct (doAnimate_answer s renderer t) as [ch ->]. rewrite Hview.
  destruct Hmode as [-> | [-> | ->]]; simpl;
    destruct (ForceRedrawThisFrame s); simpl; auto.
Qed.

(** Under redraw mode 0, the value [doAnimate] itself treats as "camera
    moved", an unchanged view with no texture loaded, no forced redraw and no
    script request is not redrawn; a forced redraw is drawn once and the flag
    is reset. *)
Lemma mode_zero_suppresses_redraw
    (s : Scene num M) (renderer : option (Renderer num M)) (t : Tick) :
  RedrawMode s = 0 → HasViewChangedSinceLastRedraw s = false →
  from_option textureWasLoadedFlag false renderer = false → scriptNeedsRedraw t = false →
  (doAnimate s renderer t).1.1 = ForceRedrawThisFrame s
  ∧ ForceRedrawThisFrame (doAnimate s renderer t).1.2 = false.
Proof.
  intros Hmode Hview Htex Hscript.
  destruct (doAnimate_answer s renderer t) as [ch Hans].
  rewrite Hmode, Hview, Htex, Hscript in Hans. simpl in Hans.
  rewrite !orb_false_r in Hans. split; [exact Hans|].
  revert Hans. unfold doAnimate.
  set (s1 := mkScene _ _ _ _ _ _ _ _ _ _ _ _ _ _ _ _ _ _).
  destruct (clearDeletionList_frame false (now t) s1) as (_ & _ & Hf & _).
  set (cl := clearDeletionList false (now t) s1) in *.
  match goal with |- context [if ?b then _ else _] => destruct b end; simpl; [reflexivity|].
  intros Hans. rewrite Hf. simpl. symmetry. exact Hans.
Qed.

(** C1, the code at the public constant: once the redraw mode is set with
    [CL3D.Scene.REDRAW_WHEN_CAM_MOVED], [doAnimate] asks for a redraw on every
    tick, with the camera unchanged, no animator change, no texture loaded
    and no forced redraw. *)
Theorem cam_moved_constant_redraws_every_tick
    (s : Scene num M) (renderer : option (Renderer num M)) (t : Tick) :
  (doAnimate (setRedrawMode REDRAW_WHEN_CAM_MOVED s) renderer t).1.1 = true.
Proof.
  destruct (doAnimate_answer (setRedrawMode REDRAW_WHEN_CAM_MOVED s) renderer t) as [ch ->].
  simpl. rewrite !orb_true_r. reflexivity.
Qed.
(** *** The deletion queue *)

Lemma due_test (deleteAll : bool) (time : Z) (e : DeletionEntry num) :
  deleteAll || bool_decide (timeAfterToDelete e < time) = true ↔ due deleteAll time e.
Proof.
  unfold due. rewrite orb_true_iff, bool_decide_eq_true. reflexivity.
Qed.

Lemma removeChild_lookup (p c id : nat) (links : gmap nat nat) :
  removeChild p c links !! id = None ∨ removeChild p c links !! id = links !! id.
Proof.
  unfold removeChild. case_decide; [|auto].
  destruct (decide (c = id)) as [->|Hne].
  - left. apply lookup_delete_eq.
  - right. apply lookup_delete_ne. exact Hne.
Qed.

(** The loop only ever removes parent links. *)
Lemma deletion_loop_links_None deleteAll time (l : list (DeletionEntry num)) st (id : nat) :
  st.1.1 !! id = None → (deletion_loop deleteAll time l st).2.1.1 !! id = None.
Proof.
  revert st. induction l as [|e l IH]; intros st Hst; simpl; [exact Hst|].
  destruct (deleteAll || bool_decide (timeAfterToDelete e < time)); simpl.
  - apply IH. simpl. destruct (st.1.1 !! nodeId (node e)) as [p|]; [|exact Hst].
    destruct (removeChild_lookup p (nodeId (node e)) id st.1.1) as [E|E]; congruence.
  - apply IH. exact Hst.
Qed.

(** A node none of whose entries is due keeps its parent. *)
Lemma deletion_loop_links_kept deleteAll time (l : list (DeletionEntry num)) st (id : nat) :
  (∀ e, e ∈ l → nodeId (node e) = id → ¬ due deleteAll time e) →
  (deletion_loop deleteAll time l st).2.1.1 !! id = st.1.1 !! id.
Proof.
  revert st. induction l as [|e l IH]; intros st Hl; simpl; [reflexivity|].
  destruct (deleteAll || bool_decide (timeAfterToDelete e < time)) eqn:E; simpl.
  - rewrite IH by (intros e' He'; apply Hl; right; exact He'). simpl.
    apply due_test in E.
    assert (Hne : nodeId (node e) ≠ id) by (intros Heq; exact (Hl e (list_elem_of_here _ _) Heq E)).
    destruct (st.1.1 !! nodeId (node e)) as [p|]; [|reflexivity].
    unfold removeChild. case_decide; [|reflexivity].
    apply lookup_delete_ne. exact Hne.
  - apply IH. intros e' He'. apply Hl. right. exact He'.
Qed.

(** A node with a due entry has no parent afterwards. *)
Lemma deletion_loop_links_removed deleteAll time (l : list (DeletionEntry num)) st e :
  e ∈ l → due deleteAll time e →
  (deletion_loop deleteAll time l st).2.1.1 !! nodeId (node e) = None.
Proof.
  revert st. induction l as [|e' l IH]; intros st Hin Hdue; [inversion Hin|].
  simpl. apply elem_of_cons in Hin as [<-|Hin].
  - apply due_test in Hdue. rewrite Hdue. simpl.
    apply deletion_loop_links_None. simpl.
    destruct (st.1.1 !! nodeId (node e)) as [p|] eqn:Hp; [|exact Hp].
    unfold removeChild. rewrite decide_True by exact Hp. apply lookup_delete_eq.
  - destruct (deleteAll || bool_decide (timeAfterToDelete e' < time)); simpl; apply IH; auto.
Qed.

(** The entries kept are those not due, in order. *)
Lemma deletion_loop_kept deleteAll time (l : list (DeletionEntry num)) st e :
  e ∈ (deletion_loop deleteAll time l st).1 ↔ e ∈ l ∧ ¬ due deleteAll time e.
Proof.
  revert st. induction l as [|e' l IH]; intros st; simpl.
  - split; [intros Hin; inversion Hin | intros [Hin _]; inversion Hin].
  - destruct (deleteAll || bool_decide (timeAfterToDelete e' < time)) eqn:E; simpl.
    + rewrite IH. apply due_test in E. rewrite elem_of_cons.
      split; [intros [? ?]; auto | intros [[->|?] ?]; [contradiction | auto]].
    + rewrite !elem_of_cons, IH.
      assert (¬ due deleteAll time e') by (rewrite <- due_test, E; discriminate).
      split; [intros [->|[? ?]]; auto | intros [[->|?] ?]; auto].
Qed.

(** The collision world stays a collision world, and loses the selector of
    every node with a due entry. *)
Lemma deletion_loop_world deleteAll time (l : list (DeletionEntry num)) st (w : gset nat) :
  st.1.2 = Some w →
  ∃ w', (deletion_loop deleteAll time l st).2.1.2 = Some w' ∧ w' ⊆ w ∧
        ∀ e sel, e ∈ l → due deleteAll time e → Selector (node e) = Some sel → sel ∉ w'.
Proof.
  revert st w. induction l as [|e l IH]; intros st w Hw; simpl.
  - exists w. split; [exact Hw|]. split; [set_solver|]. intros e sel Hin. inversion Hin.
  - destruct (deleteAll || bool_decide (timeAfterToDelete e < time)) eqn:E; simpl.
    + rewrite Hw. destruct (Selector (node e)) as [sel0|] eqn:Hsel.
      * destruct (IH (match st.1.1 !! nodeId (node e) with
                      | Some p => removeChild p (nodeId (node e)) st.1.1
                      | None => st.1.1
                      end, Some (removeSelector sel0 w), true) (removeSelector sel0 w) eq_refl)
          as (w' & Hw' & Hsub & Hrem).
        exists w'. split; [exact Hw'|]. unfold removeSelector in Hsub.
        split; [intros x Hx; apply Hsub in Hx; apply elem_of_difference in Hx as [Hx _]; exact Hx|].
        intros e1 sel Hin Hdue Hs. apply elem_of_cons in Hin as [->|Hin]; [|eauto].
        assert (sel = sel0) as -> by congruence.
        intros Hx. apply Hsub in Hx. apply elem_of_difference in Hx as [_ Hx].
        apply Hx. apply elem_of_singleton. reflexivity.
      * destruct (IH (match st.1.1 !! nodeId (node e) with
                      | Some p => removeChild p (nodeId (node e)) st.1.1
                      | None => st.1.1
                      end, Some w, true) w eq_refl) as (w' & Hw' & Hsub & Hrem).
        exists w'. split; [exact Hw'|]. split; [exact Hsub|].
        intros e1 sel Hin Hdue Hs. apply elem_of_cons in Hin as [->|Hin]; [congruence|eauto].
    + destruct (IH st w Hw) as (w' & Hw' & Hsub & Hrem).
      exists w'. split; [exact Hw'|]. split; [exact Hsub|].
      intros e1 sel Hin Hdue Hs. apply elem_of_cons in Hin as [->|Hin]; [|eauto].
      apply due_test in Hdue. congruence.
Qed.
Lemma clearDeletionList_loop (deleteAll : bool) (time : Z) (s : Scene num M) :
  let r := deletion_loop deleteAll time (DeletionList s) (Parent s, CollisionWorld s, false) in
  let s' := (clearDeletionList deleteAll time s).2 in
  DeletionList s' = r.1 ∧ Parent s' = r.2.1.1 ∧ CollisionWorld s' = r.2.1.2.
Proof.
  unfold clearDeletionList. destruct (DeletionList s) as [|e l] eqn:E.
  - simpl. rewrite E. auto.
  - repeat split.
Qed.

(** What a tick of [doAnimate] does to the scene graph, the collision world
    and the queue is the flush of the pending deletions at the tick's time. *)
Lemma doAnimate_flushes (s : Scene num M) (renderer : option (Renderer num M)) (t : Tick) :
  let s' := (doAnimate s renderer t).1.2 in
  Parent s' = Parent (flush_tick s (now t))
  ∧ CollisionWorld s' = CollisionWorld (flush_tick s (now t))
  ∧ DeletionList s' = DeletionList (flush_tick s (now t)).
Proof.
  unfold doAnimate, flush_tick.
  set (s1 := mkScene _ _ _ _ _ _ _ _ _ _ _ _ _ _ _ _ _ _).
  destruct (clearDeletionList_loop false (now t) s1) as (Hd1 & Hp1 & Hw1).
  destruct (clearDeletionList_loop false (now t) s) as (Hd & Hp & Hw).
  cbn zeta in *. rewrite Hd, Hp, Hw.
  set (cl := clearDeletionList false (now t) s1) in *.
  match goal with |- context [if ?b then _ else _] => destruct b end; simpl;
    rewrite Hd1, Hp1, Hw1; auto.
Qed.

(** Ticks that come no later than the deadline leave the queued node where it
    is: attached as before, and still queued with the same deadline. *)
Lemma flush_tick_early (s : Scene num M) (n : SceneNode num) (deadline time : Z) :
  (∀ e, e ∈ DeletionList s → nodeId (node e) = nodeId n → timeAfterToDelete e = deadline) →
  time ≤ deadline →
  Parent (flush_tick s time) !! nodeId n = Parent s !! nodeId n
  ∧ (∀ e, e ∈ DeletionList (flush_tick s time) →
          nodeId (node e) = nodeId n → timeAfterToDelete e = deadline)
  ∧ (∀ e, e ∈ DeletionList s → nodeId (node e) = nodeId n → e ∈ DeletionList (flush_tick s time))
  ∧ (∀ w, CollisionWorld s = Some w → ∃ w', CollisionWorld (flush_tick s time) = Some w').
Proof.
  intros Hq Hle. unfold flush_tick.
  destruct (clearDeletionList_loop false time s) as (Hd & Hp & Hw). simpl in *.
  assert (Hnot : ∀ e, e ∈ DeletionList s → nodeId (node e) = nodeId n → ¬ due false time e).
  { intros e He Hid [Hf|Hlt]; [discriminate|]. rewrite (Hq e He Hid) in Hlt. lia. }
  rewrite Hp, Hd, Hw. split; [|split; [|split]].
  - rewrite deletion_loop_links_kept by exact Hnot. reflexivity.
  - intros e He. apply deletion_loop_kept in He as [He _]. auto.
  - intros e He Hid. apply deletion_loop_kept. auto.
  - intros w Hsw.
    destruct (deletion_loop_world false time (DeletionList s)
                (Parent s, CollisionWorld s, false) w Hsw) as (w' & Hw' & _).
    eauto.
Qed.

Lemma flush_ticks_early (times : list Z) (s : Scene num M) (n : SceneNode num) (deadline : Z) :
  (∀ e, e ∈ DeletionList s → nodeId (node e) = nodeId n → timeAfterToDelete e = deadline) →
  Forall (λ t, t ≤ deadline) times →
  let s1 := foldl flush_tick s times in
  Parent s1 !! nodeId n = Parent s !! nodeId n
  ∧ (∀ e, e ∈ DeletionList s1 → nodeId (node e) = nodeId n → timeAfterToDelete e = deadline)
  ∧ (∀ e, e ∈ DeletionList s → nodeId (node e) = nodeId n → e ∈ DeletionList s1)
  ∧ (∀ w, CollisionWorld s = Some w → ∃ w', CollisionWorld s1 = Some w').
Proof.
  revert s. induction times as [|time times IH]; intros s Hq Hall; simpl.
  - split; [reflexivity|]. split; [exact Hq|]. split; [auto|eauto].
  - apply Forall_cons in Hall as [Hle Hall].
    destruct (flush_tick_early s n deadline time Hq Hle) as (Hp & Hq' & Hkeep & Hw).
    destruct (IH (flush_tick s time) Hq' Hall) as (Hp1 & Hq1 & Hkeep1 & Hw1).
    split; [congruence|]. split; [exact Hq1|]. split; [auto|].
    intros w Hsw. destruct (Hw w Hsw) as [w' Hw']. eauto.
Qed.

(** C7, amended: a node queued once through [addToDeletionQueue] with delay
    [d] at time [t0] keeps its parent through every flush whose time is at or
    before [t0 + d]; the first flush whose time is strictly after [t0 + d]
    leaves it without parent and without queue entry, and the collision
    world, when the scene has one and the node has a selector, without that
    selector. *)
Theorem deferred_deletion_after_deadline
    (s : Scene num M) (n : SceneNode num) (d t0 : Z) (times : list Z) (time : Z) :
  (∀ e, e ∈ DeletionList s → nodeId (node e) ≠ nodeId n) →
  Forall (λ t, t ≤ t0 + d) times →
  t0 + d < time →
  let s1 := foldl flush_tick (addToDeletionQueue n d t0 s) times in
  let s2 := flush_tick s1 time in
  Parent s1 !! nodeId n = Parent s !! nodeId n
  ∧ Parent s2 !! nodeId n = None
  ∧ (∀ e, e ∈ DeletionList s2 → nodeId (node e) ≠ nodeId n)
  ∧ (∀ w sel, CollisionWorld s = Some w → Selector n = Some sel →
        ∃ w', CollisionWorld s2 = Some w' ∧ sel ∉ w').
Proof.
  intros Hfresh Hall Hlate. simpl.
  set (s0 := addToDeletionQueue n d t0 s).
  set (e0 := mkDeletionEntry n (d + t0)).
  assert (Hq : ∀ e, e ∈ DeletionList s0 → nodeId (node e) = nodeId n →
                    timeAfterToDelete e = t0 + d).
  { intros e He Hid. simpl in He. apply elem_of_app in He as [He|He].
    - destruct (Hfresh e He Hid).
    - apply list_elem_of_singleton in He as ->. simpl. lia. }
  assert (Hin0 : e0 ∈ DeletionList s0) by (simpl; apply elem_of_app; right; left).
  destruct (flush_ticks_early times s0 n (t0 + d) Hq Hall) as (Hp1 & Hq1 & Hkeep1 & Hw1).
  set (s1 := foldl flush_tick s0 times) in *.
  assert (Hin1 : e0 ∈ DeletionList s1) by (apply Hkeep1; [exact Hin0|reflexivity]).
  assert (Hdue : due false time e0) by (right; simpl; lia).
  unfold flush_tick at 1 2 3.
  destruct (clearDeletionList_loop false time s1) as (Hd & Hp & Hw). simpl in Hd, Hp, Hw.
  split; [exact Hp1|]. split; [|split].
  - rewrite Hp.
    exact (deletion_loop_links_removed false time (DeletionList s1) _ e0 Hin1 Hdue).
  - intros e He Hid. rewrite Hd in He. apply deletion_loop_kept in He as [He Hnd].
    apply Hnd. right. rewrite (Hq1 e He Hid). exact Hlate.
  - intros w sel Hsw Hsel. destruct (Hw1 w Hsw) as [w1 Hw1'].
    destruct (deletion_loop_world false time (DeletionList s1)
                (Parent s1, CollisionWorld s1, false) w1 Hw1') as (w' & Hw' & _ & Hrem).
    exists w'. rewrite Hw. split; [exact Hw'|].
    exact (Hrem e0 sel Hin1 Hdue Hsel).
Qed.
(** *** Registration *)

Lemma registerNodeForRendering_lists (sc : Scene num M) (n : SceneNode num) (mode : option Z) :
  let m := default RENDER_MODE_DEFAULT mode in
  let sc' := registerNodeForRendering sc n mode in
  SceneNodesToRender sc' =
    SceneNodesToRender sc ++ (if decide (m = RENDER_MODE_DEFAULT) then [n] else [])
  ∧ SceneNodesToRenderTransparent sc' =
    SceneNodesToRenderTransparent sc ++ (if decide (m = RENDER_MODE_TRANSPARENT) then [n] else [])
  ∧ LightsToRender sc' =
    LightsToRender sc ++ (if decide (m = RENDER_MODE_LIGHTS) then [n] else [])
  ∧ Overlay2DToRender sc' =
    Overlay2DToRender sc ++ (if decide (m = RENDER_MODE_2DOVERLAY) then [n] else [])
  ∧ SkyBoxSceneNode sc' =
    (if decide (m = RENDER_MODE_SKYBOX) then Some n else SkyBoxSceneNode sc)
  ∧ ActiveCamera sc' = ActiveCamera sc ∧ UseCulling sc' = UseCulling sc.
Proof.
  unfold registerNodeForRendering,
    RENDER_MODE_DEFAULT, RENDER_MODE_TRANSPARENT, RENDER_MODE_LIGHTS,
    RENDER_MODE_2DOVERLAY, RENDER_MODE_SKYBOX, RENDER_MODE_CAMERA.
  simpl. generalize (default 0 mode). intros m.
  repeat case_decide; try lia; simpl; rewrite ?app_nil_r; auto 10.
Qed.

Lemma registered_snoc (mode : Z) (regs : list (SceneNode num * option Z)) r :
  registered mode (regs ++ [r]) =
    registered mode regs ++
      (if decide (default RENDER_MODE_DEFAULT r.2 = mode) then [r.1] else []).
Proof.
  unfold registered. rewrite filter_app, fmap_app. f_equal.
  rewrite filter_cons. case_decide; reflexivity.
Qed.

Lemma OnRegisterSceneNode_lists (regs : list (SceneNode num * option Z)) (sc : Scene num M) :
  let sc' := OnRegisterSceneNode regs sc in
  SceneNodesToRender sc' = SceneNodesToRender sc ++ registered RENDER_MODE_DEFAULT regs
  ∧ SceneNodesToRenderTransparent sc' =
      SceneNodesToRenderTransparent sc ++ registered RENDER_MODE_TRANSPARENT regs
  ∧ LightsToRender sc' = LightsToRender sc ++ registered RENDER_MODE_LIGHTS regs
  ∧ Overlay2DToRender sc' = Overlay2DToRender sc ++ registered RENDER_MODE_2DOVERLAY regs
  ∧ SkyBoxSceneNode sc' =
      from_option Some (SkyBoxSceneNode sc) (last (registered RENDER_MODE_SKYBOX regs))
  ∧ ActiveCamera sc' = ActiveCamera sc ∧ UseCulling sc' = UseCulling sc.
Proof.
  unfold OnRegisterSceneNode.
  induction regs as [|r regs IH] using rev_ind; simpl.
  - rewrite !app_nil_r. auto 10.
  - rewrite foldl_app. simpl.
    destruct IH as (H1 & H2 & H3 & H4 & H5 & H6 & H7).
    destruct (registerNodeForRendering_lists
                (foldl (λ sc r, registerNodeForRendering sc r.1 r.2) sc regs) r.1 r.2)
      as (G1 & G2 & G3 & G4 & G5 & G6 & G7).
    simpl in *. rewrite G1, G2, G3, G4, G5, G6, G7, H1, H2, H3, H4, H5, H6, H7.
    rewrite !registered_snoc, !app_assoc.
    repeat split.
    case_decide; [rewrite last_snoc; reflexivity | rewrite app_nil_r; reflexivity].
Qed.

(** *** The trace of [drawAll] *)

Lemma rendered_in_app (mode : Z) (e1 e2 : list (RenderEvent num)) :
  rendered_in mode (e1 ++ e2) = rendered_in mode e1 ++ rendered_in mode e2.
Proof. unfold rendered_in. rewrite filter_app, fmap_app. reflexivity. Qed.

Lemma rendered_in_fmap (mode m : Z) (l : list (SceneNode num)) :
  rendered_in mode (mkRenderEvent m <$> l) = if decide (m = mode) then l else [].
Proof.
  unfold rendered_in. destruct (decide (m = mode)) as [Heq|Hne];
    induction l as [|x l IH]; try reflexivity; rewrite fmap_cons, filter_cons; cbn [ev_mode].
  - rewrite decide_True by exact Heq. rewrite fmap_cons, IH. reflexivity.
  - rewrite decide_False by exact Hne. exact IH.
Qed.
End SceneProperties.

(** *** The sort *)

Section Sorting.
Context {A : Type} (cmp : A → A → Z).

Lemma sort_insert_perm (x : A) (l : list A) : sort_insert cmp x l ≡ₚ x :: l.
Proof.
  induction l as [|y l IH]; simpl; [reflexivity|].
  case_decide; [reflexivity|]. rewrite IH. apply Permutation_swap.
Qed.

Lemma Array_sort_perm (l : list A) : Array_sort cmp l ≡ₚ l.
Proof.
  unfold Array_sort. induction l as [|x l IH]; simpl; [reflexivity|].
  rewrite sort_insert_perm, IH. reflexivity.
Qed.

Lemma sort_insert_sorted (R : A → A → Prop) `{!Transitive R} (x : A) (l : list A) :
  (∀ a b, cmp a b ≤ 0 → R a b) → (∀ a b, ¬ cmp a b ≤ 0 → R b a) →
  StronglySorted R l → StronglySorted R (sort_insert cmp x l).
Proof.
  intros Hle Hgt. induction 1 as [|y l Hs IH Hall]; simpl.
  - repeat constructor.
  - case_decide as Hc.
    + constructor; [constructor; assumption|].
      constructor; [auto|]. eapply Forall_impl; [exact Hall|].
      intros z Hyz. transitivity y; auto.
    + constructor; [exact IH|].
      rewrite sort_insert_perm. constructor; auto.
Qed.

Lemma Array_sort_sorted (R : A → A → Prop) `{!Transitive R} (l : list A) :
  (∀ a b, cmp a b ≤ 0 → R a b) → (∀ a b, ¬ cmp a b ≤ 0 → R b a) →
  StronglySorted R (Array_sort cmp l).
Proof.
  intros Hle Hgt. unfold Array_sort. induction l as [|x l IH]; simpl.
  - constructor.
  - apply sort_insert_sorted; assumption.
Qed.

(** Stability: elements that the comparison function never orders against
    each other keep their relative order. *)
Lemma sort_insert_stable (P : A → Prop) `{!∀ a, Decision (P a)} (x : A) (l : list A) :
  (∀ a b, P a → P b → cmp a b ≤ 0) →
  filter P (sort_insert cmp x l) = filter P (x :: l).
Proof.
  intros Heq. induction l as [|y l IH]; simpl; [reflexivity|].
  case_decide as Hc; [reflexivity|].
  rewrite (filter_cons _ y), IH, !filter_cons.
  destruct (decide (P x)) as [Hx|Hx], (decide (P y)) as [Hy|Hy]; try reflexivity.
  destruct Hc. auto.
Qed.

Lemma Array_sort_stable (P : A → Prop) `{!∀ a, Decision (P a)} (l : list A) :
  (∀ a b, P a → P b → cmp a b ≤ 0) →
  filter P (Array_sort cmp l) = filter P l.
Proof.
  intros Heq. unfold Array_sort. induction l as [|x l IH]; simpl; [reflexivity|].
  rewrite sort_insert_stable by exact Heq. rewrite !filter_cons, IH. reflexivity.
Qed.
End Sorting.

(** Decides the comparisons between render mode constants in the goal. *)
Ltac decide_modes :=
  repeat match goal with
  | |- context [decide (?a = ?b)] =>
      destruct (decide (a = b)) as [Hm|Hm];
      [try discriminate Hm | try (destruct Hm; reflexivity)]
  end.

Section DrawAllProperties.
Context {num M : Type} {math : CL3DMath num M}.
Variable intersectsCullingBox : M → Vect3d Z → SceneNode num → bool.

Lemma sort_when_nonempty {A : Type} (cmp : A → A → Z) (l : list A) :
  (if decide (0 < length l)%nat then Array_sort cmp l else l) = Array_sort cmp l.
Proof. destruct l; reflexivity. Qed.

Lemma rendered_in_single (mode m : Z) (x : SceneNode num) :
  rendered_in mode [mkRenderEvent m x] = if decide (m = mode) then [x] else [].
Proof. exact (rendered_in_fmap mode m [x]). Qed.

(** The lists a frame starts from are empty, so what [drawAll] holds after
    the registration pass is what this frame's pass registered; only the
    skybox slot still shows an earlier frame. *)
Lemma drawAll_registration (s : Scene num M) (regs : list (SceneNode num * option Z)) :
  let s1 := OnRegisterSceneNode regs (setRenderLists s (SkyBoxSceneNode s) [] [] [] []) in
  SceneNodesToRender s1 = registered RENDER_MODE_DEFAULT regs
  ∧ SceneNodesToRenderTransparent s1 = registered RENDER_MODE_TRANSPARENT regs
  ∧ LightsToRender s1 = registered RENDER_MODE_LIGHTS regs
  ∧ Overlay2DToRender s1 = registered RENDER_MODE_2DOVERLAY regs
  ∧ SkyBoxSceneNode s1 =
      from_option Some (SkyBoxSceneNode s) (last (registered RENDER_MODE_SKYBOX regs))
  ∧ ActiveCamera s1 = ActiveCamera s ∧ UseCulling s1 = UseCulling s.
Proof.
  exact (OnRegisterSceneNode_lists regs (setRenderLists s (SkyBoxSceneNode s) [] [] [] [])).
Qed.

(** The [render] calls of the transparent pass. *)
Lemma drawAll_transparent (s : Scene num M) (r : Renderer num M)
    (regs : list (SceneNode num * option Z)) (cam : CameraSceneNode num M) :
  ActiveCamera s = Some cam →
  ∃ box,
    rendered_in RENDER_MODE_TRANSPARENT (drawAll intersectsCullingBox s r regs).2 =
      culled box (Array_sort (compare_transparent (AbsolutePosition (camNode cam)))
                    (registered RENDER_MODE_TRANSPARENT regs))
    ∧ (UseCulling s = false → box = None).
Proof.
  intros Hcam. unfold drawAll.
  destruct (drawAll_registration s regs) as (H1 & H2 & H3 & H4 & H5 & H6 & H7).
  set (s1 := OnRegisterSceneNode regs _) in *.
  cbn zeta. rewrite H6, Hcam, H2, H7. cbn [fmap option_fmap option_map compose].
  rewrite !sort_when_nonempty.
  match goal with |- context [culled ?b (Array_sort (compare_transparent _) _)] =>
    exists b end.
  split; [|intros ->; reflexivity].
  cbn [snd]. rewrite !rendered_in_app, !rendered_in_fmap, rendered_in_single.
  destruct (SkyBoxSceneNode s1); [rewrite rendered_in_single|]; decide_modes;
    simpl; rewrite ?app_nil_r; reflexivity.
Qed.

(** C6: with an active camera the transparent pass renders the nodes
    registered as transparent in the order of the stable sort by decreasing
    squared distance to the camera position (the nodes a culling box turns
    away left out): a permutation of the registered nodes, every node at
    least as far as all nodes after it, nodes at equal distance in
    registration order. *)
Theorem transparent_nodes_farthest_first
    (s : Scene num M) (r : Renderer num M)
    (regs : list (SceneNode num * option Z)) (cam : CameraSceneNode num M) :
  ActiveCamera s = Some cam →
  let camPos := AbsolutePosition (camNode cam) in
  let queued := registered RENDER_MODE_TRANSPARENT regs in
  let sorted := Array_sort (compare_transparent camPos) queued in
  (∃ box,
     rendered_in RENDER_MODE_TRANSPARENT (drawAll intersectsCullingBox s r regs).2 =
       culled box sorted
     ∧ (UseCulling s = false → box = None))
  ∧ sorted ≡ₚ queued
  ∧ StronglySorted (λ a b, distance_to camPos b ≤ distance_to camPos a) sorted
  ∧ ∀ d, filter (λ n, distance_to camPos n = d) sorted =
         filter (λ n, distance_to camPos n = d) queued.
Proof.
  intros Hcam camPos queued sorted.
  split; [exact (drawAll_transparent s r regs cam Hcam)|].
  split; [apply Array_sort_perm|]. split.
  - apply Array_sort_sorted.
    + intros a b c Hab Hbc. lia.
    + intros a b. unfold compare_transparent, distance_to. repeat case_decide; lia.
    + intros a b. unfold compare_transparent, distance_to. repeat case_decide; lia.
  - intros d. apply Array_sort_stable.
    intros a b Ha Hb. unfold compare_transparent, distance_to in *. repeat case_decide; lia.
Qed.

(** C8, the code on a skybox: a skybox registered in one drawn frame is
    rendered again in the next drawn frame, in which no node registers as
    skybox. *)
Theorem stale_skybox_is_rendered
    (s : Scene num M) (r : Renderer num M) (t : Tick)
    (sky : SceneNode num) (others : list (SceneNode num)) :
  let frame1 := drawAll intersectsCullingBox s r [(sky, Some RENDER_MODE_SKYBOX)] in
  let a := doAnimate frame1.1.1 (Some frame1.1.2) t in
  let frame2 :=
    drawAll intersectsCullingBox a.1.2 frame1.1.2
      ((λ n, (n, Some RENDER_MODE_DEFAULT)) <$> others) in
  registered RENDER_MODE_SKYBOX ((λ n, (n, Some RENDER_MODE_DEFAULT)) <$> others) = []
  ∧ rendered_in RENDER_MODE_SKYBOX frame2.2 = [sky].
Proof.
  cbn zeta.
  assert (Hnone : registered RENDER_MODE_SKYBOX
                    ((λ n : SceneNode num, (n, Some RENDER_MODE_DEFAULT)) <$> others) = []).
  { unfold registered. induction others as [|o others IH]; [reflexivity|].
    rewrite fmap_cons, filter_cons.
    destruct (decide _) as [Hm|Hm]; [discriminate Hm | exact IH]. }
  split; [exact Hnone|].
  set (frame1 := drawAll intersectsCullingBox s r [(sky, Some RENDER_MODE_SKYBOX)]).
  assert (Hsky1 : SkyBoxSceneNode frame1.1.1 = Some sky).
  { subst frame1. unfold drawAll. cbn zeta.
    destruct (drawAll_registration s [(sky, Some RENDER_MODE_SKYBOX)])
      as (_ & _ & _ & _ & H5 & _).
    set (s1 := OnRegisterSceneNode _ _) in *.
    cbn [fst]. unfold StoreViewMatrixForRedrawCheck. cbn [ActiveCamera].
    destruct (ActiveCamera s1); cbn [SkyBoxSceneNode]; rewrite H5; reflexivity. }
  destruct (doAnimate_frame frame1.1.1 (Some frame1.1.2) t) as (_ & _ & _ & Hsky2).
  set (a := doAnimate frame1.1.1 (Some frame1.1.2) t) in *.
  rewrite Hsky1 in Hsky2.
  unfold drawAll at 1. cbn zeta.
  destruct (drawAll_registration a.1.2 ((λ n, (n, Some RENDER_MODE_DEFAULT)) <$> others))
    as (_ & _ & _ & _ & H5 & _).
  set (s1 := OnRegisterSceneNode _ _) in *.
  rewrite Hnone, Hsky2 in H5. simpl in H5. rewrite H5.
  cbn [snd]. rewrite !rendered_in_app, !rendered_in_fmap, rendered_in_single.
  destruct (ActiveCamera s1); [rewrite rendered_in_single|]; decide_modes;
    simpl; rewrite ?app_nil_r; reflexivity.
Qed.
End DrawAllProperties.

(** ** The renderer *)

Section IndexRewinding.

Lemma u16_set_from_length (i : nat) (src : list Z) (k : nat) (arr : list Z) :
  length (u16_set_from i src k arr) = length arr.
Proof. unfold u16_set_from. apply length_insert. Qed.

Lemma rewind_indices_length (fuel j : nat) (src : list Z) (n : nat) (arr : list Z) :
  length (rewind_indices fuel j src n arr) = length arr.
Proof.
  revert j arr. induction fuel as [|fuel IH]; intros j arr; simpl; [reflexivity|].
  case_decide; [|reflexivity]. rewrite IH, !u16_set_from_length. reflexivity.
Qed.

Lemma rewind_indices_S (fuel j : nat) (src : list Z) (n : nat) (arr : list Z) :
  rewind_indices (S fuel) j src n arr =
    if decide (j < n)%nat then
      rewind_indices fuel (j + 3) src n
        (u16_set_from (j+2) src (j+1) (u16_set_from (j+1) src (j+2) (u16_set_from (j+0) src (j+0) arr)))
    else arr.
Proof. reflexivity. Qed.

(** The loop leaves what lies before its position as it is. *)
Lemma rewind_indices_before (fuel j : nat) (src : list Z) (n : nat) (arr : list Z) (i : nat) :
  (i < j)%nat → rewind_indices fuel j src n arr !! i = arr !! i.
Proof.
  revert j arr. induction fuel as [|fuel IH]; intros j arr Hi; simpl; [reflexivity|].
  case_decide; [|reflexivity]. rewrite IH by lia. unfold u16_set_from.
  rewrite !list_lookup_insert_ne by lia. reflexivity.
Qed.

(** Every complete triangle the loop still has to visit ends up with its
    second and third index exchanged. *)
Lemma rewind_indices_triangle (fuel k : nat) (src : list Z) (arr : list Z) (t : nat)
    (i0 i1 i2 : Z) :
  length arr = length src →
  (k ≤ t < k + fuel)%nat →
  src !! (3*t)%nat = Some i0 → src !! (3*t+1)%nat = Some i1 → src !! (3*t+2)%nat = Some i2 →
  let res := rewind_indices fuel (3*k) src (length src) arr in
  res !! (3*t)%nat = Some (ToUint16 i0)
  ∧ res !! (3*t+1)%nat = Some (ToUint16 i2)
  ∧ res !! (3*t+2)%nat = Some (ToUint16 i1).
Proof.
  intros Hlen Ht H0 H1 H2. cbn zeta.
  assert (Hin : (3*t+2 < length src)%nat) by (apply lookup_lt_is_Some; eauto).
  revert k arr Hlen Ht. induction fuel as [|fuel IH]; intros k arr Hlen Ht; [lia|].
  rewrite rewind_indices_S, decide_True by lia.
  destruct (decide (t = k)) as [->|Hne].
  - rewrite !rewind_indices_before by lia.
    unfold u16_set_from. replace (3*k+0)%nat with (3*k)%nat by lia.
    rewrite H0, H1, H2.
    rewrite list_lookup_insert_ne, list_lookup_insert_ne, list_lookup_insert_eq by
      (rewrite ?length_insert; lia).
    rewrite list_lookup_insert_ne, list_lookup_insert_eq by (rewrite ?length_insert; lia).
    rewrite list_lookup_insert_eq by (rewrite ?length_insert; lia).
    auto.
  - replace (3*k+3)%nat with (3 * S k)%nat by lia.
    apply IH; [|lia]. rewrite !u16_set_from_length. exact Hlen.
Qed.

(** The device index array: as long as the index list, and on every complete
    triangle the indices of the list (as unsigned shorts) with the second and
    third exchanged. *)
Lemma make_indexArray_swap (src : list Z) (t : nat) (i0 i1 i2 : Z) :
  src !! (3*t)%nat = Some i0 → src !! (3*t+1)%nat = Some i1 → src !! (3*t+2)%nat = Some i2 →
  make_indexArray src !! (3*t)%nat = Some (ToUint16 i0)
  ∧ make_indexArray src !! (3*t+1)%nat = Some (ToUint16 i2)
  ∧ make_indexArray src !! (3*t+2)%nat = Some (ToUint16 i1).
Proof.
  intros H0 H1 H2. unfold make_indexArray.
  assert (Hin : (3*t+2 < length src)%nat) by (apply lookup_lt_is_Some; eauto).
  apply (rewind_indices_triangle (length src) 0 src _ t i0 i1 i2); auto; [|lia].
  unfold new_Uint16Array. apply length_replicate.
Qed.

Lemma make_indexArray_length (src : list Z) : length (make_indexArray src) = length src.
Proof.
  unfold make_indexArray. rewrite rewind_indices_length.
  unfold new_Uint16Array. apply length_replicate.
Qed.

Lemma ToUint16_id (z : Z) : 0 ≤ z < 65536 → ToUint16 z = z.
Proof. intros Hz. unfold ToUint16. apply Z.mod_small. exact Hz. Qed.
End IndexRewinding.

Section VertexLoops.
Context {num M : Type} {math : CL3DMath num M}.

Lemma f32_set_length (k : nat) (v : num) (l : list num) : length (f32_set k v l) = length l.
Proof. apply length_insert. Qed.

Lemma f32_set_take (m k : nat) (v : num) (l : list num) :
  take m (f32_set k v l) = f32_set k v (take m l).
Proof.
  unfold f32_set. destruct (decide (k < m)%nat).
  - apply take_insert_lt. assumption.
  - rewrite take_insert_ge by lia. symmetry. apply list_insert_ge.
    rewrite length_take. lia.
Qed.

Lemma f32_set_drop (m k : nat) (v : num) (l : list num) :
  (k < m)%nat → drop m (f32_set k v l) = drop m l.
Proof. intros Hk. unfold f32_set. apply drop_insert_lt. exact Hk. Qed.

(** Two arrays of one length that agree before [k] agree up to [k] once
    [k] is stored to. *)
Lemma f32_set_agree (k : nat) (v : num) (a b : list num) :
  length a = length b → take k a = take k b →
  take (S k) (f32_set k v a) = take (S k) (f32_set k v b).
Proof.
  intros Hlen Hpre. unfold f32_set. apply list_eq. intros j.
  destruct (decide (j < S k)%nat) as [Hj|Hj].
  - rewrite !lookup_take_lt by exact Hj. rewrite !list_lookup_insert, Hlen.
    case_decide; [reflexivity|].
    destruct (decide (j < k)%nat) as [Hjk|Hjk].
    + rewrite <- (lookup_take_lt a k j), <- (lookup_take_lt b k j) by exact Hjk.
      rewrite Hpre. reflexivity.
    + rewrite !lookup_ge_None_2 by lia. reflexivity.
  - rewrite !lookup_take_ge by lia. reflexivity.
Qed.

Lemma take_agree_le (k m : nat) (a b : list num) :
  (k ≤ m)%nat → take m a = take m b → take k a = take k b.
Proof.
  intros Hle Heq. rewrite <- (Nat.min_l k m) by exact Hle.
  rewrite <- !take_take, Heq. reflexivity.
Qed.

(** *** Loops that store [w] consecutive entries per vertex *)

Section Strided.
Variable body : nat → Vertex3D num → list num → list num.
Variable w : nat.
Hypothesis body_length : ∀ i v l, length (body i v l) = length l.
Hypothesis body_take : ∀ m i v l, take m (body i v l) = body i v (take m l).
Hypothesis body_drop : ∀ m i v l, (w*i + w ≤ m)%nat → drop m (body i v l) = drop m l.
Hypothesis body_agree : ∀ i v a b,
  length a = length b → take (w*i) a = take (w*i) b →
  take (w*i + w) (body i v a) = take (w*i + w) (body i v b).

Lemma for_vertices_length (i : nat) (vs : list (Vertex3D num)) (l : list num) :
  length (for_vertices body i vs l) = length l.
Proof.
  revert i l. induction vs as [|v vs IH]; intros i l; simpl; [reflexivity|].
  rewrite IH. apply body_length.
Qed.

Lemma for_vertices_take (m i : nat) (vs : list (Vertex3D num)) (l : list num) :
  take m (for_vertices body i vs l) = for_vertices body i vs (take m l).
Proof.
  revert i l. induction vs as [|v vs IH]; intros i l; simpl; [reflexivity|].
  rewrite IH, body_take. reflexivity.
Qed.

Lemma for_vertices_drop (m i : nat) (vs : list (Vertex3D num)) (l : list num) :
  (w * (i + length vs) ≤ m)%nat → drop m (for_vertices body i vs l) = drop m l.
Proof.
  revert i l. induction vs as [|v vs IH]; intros i l Hm; simpl in *; [reflexivity|].
  rewrite IH by lia. apply body_drop. lia.
Qed.

Lemma for_vertices_agree (i : nat) (vs : list (Vertex3D num)) (a b : list num) :
  length a = length b → take (w*i) a = take (w*i) b →
  take (w * (i + length vs)) (for_vertices body i vs a) =
  take (w * (i + length vs)) (for_vertices body i vs b).
Proof.
  revert i a b. induction vs as [|v vs IH]; intros i a b Hlen Hpre; simpl.
  - rewrite Nat.add_0_r. exact Hpre.
  - replace (i + S (length vs))%nat with (S i + length vs)%nat by lia.
    apply IH; [rewrite !body_length; exact Hlen|].
    replace (w * S i)%nat with (w*i + w)%nat by lia.
    apply body_agree; assumption.
Qed.

(** The loop run on an array that is long enough yields what it yields on a
    fresh array of exactly the size the vertices need, followed by the old
    entries beyond that size. *)
Lemma for_vertices_overwrite (vs : list (Vertex3D num)) (old fresh : list num) :
  (w * length vs ≤ length old)%nat → length fresh = (w * length vs)%nat →
  for_vertices body 0 vs old =
    for_vertices body 0 vs fresh ++ drop (w * length vs) old.
Proof.
  intros Hold Hfresh.
  rewrite <- (take_drop (w * length vs) (for_vertices body 0 vs old)).
  rewrite for_vertices_drop by (simpl; lia). f_equal.
  rewrite for_vertices_take.
  set (a := take (w * length vs) old).
  assert (Ha : length a = (w * length vs)%nat) by (subst a; rewrite length_take; lia).
  assert (Hag : take (w * (0 + length vs)) (for_vertices body 0 vs a) =
                take (w * (0 + length vs)) (for_vertices body 0 vs fresh)).
  { apply for_vertices_agree; [lia|]. rewrite Nat.mul_0_r. reflexivity. }
  rewrite (take_ge (for_vertices body 0 vs a)) in Hag
    by (rewrite for_vertices_length; simpl; lia).
  rewrite (take_ge (for_vertices body 0 vs fresh)) in Hag
    by (rewrite for_vertices_length; simpl; lia).
  exact Hag.
Qed.
End Strided.

Lemma write_position_length i v (l : list num) : length (write_position i v l) = length l.
Proof. unfold write_position. rewrite !f32_set_length. reflexivity. Qed.

Lemma write_position_take m i v (l : list num) :
  take m (write_position i v l) = write_position i v (take m l).
Proof. unfold write_position. rewrite !f32_set_take. reflexivity. Qed.

Lemma write_position_drop m i v (l : list num) :
  (3*i + 3 ≤ m)%nat → drop m (write_position i v l) = drop m l.
Proof. intros Hm. unfold write_position. rewrite !f32_set_drop by lia. reflexivity. Qed.

Lemma write_position_agree i v (a b : list num) :
  length a = length b → take (3*i) a = take (3*i) b →
  take (3*i + 3) (write_position i v a) = take (3*i + 3) (write_position i v b).
Proof.
  intros Hlen Hpre. unfold write_position.
  replace (i*3+0)%nat with (3*i)%nat by lia.
  replace (i*3+1)%nat with (S (3*i))%nat by lia.
  replace (i*3+2)%nat with (S (S (3*i)))%nat by lia.
  replace (3*i+3)%nat with (S (S (S (3*i))))%nat by lia.
  apply f32_set_agree; [rewrite !f32_set_length; exact Hlen|].
  apply f32_set_agree; [rewrite !f32_set_length; exact Hlen|].
  apply f32_set_agree; assumption.
Qed.

Lemma write_color_length i v (l : list num) : length (write_color i v l) = length l.
Proof. unfold write_color. rewrite !f32_set_length. reflexivity. Qed.

Lemma write_color_take m i v (l : list num) :
  take m (write_color i v l) = write_color i v (take m l).
Proof. unfold write_color. rewrite !f32_set_take. reflexivity. Qed.

Lemma write_color_drop m i v (l : list num) :
  (4*i + 4 ≤ m)%nat → drop m (write_color i v l) = drop m l.
Proof. intros Hm. unfold write_color. rewrite !f32_set_drop by lia. reflexivity. Qed.

Lemma write_color_agree i v (a b : list num) :
  length a = length b → take (4*i) a = take (4*i) b →
  take (4*i + 4) (write_color i v a) = take (4*i + 4) (write_color i v b).
Proof.
  intros Hlen Hpre. unfold write_color.
  replace (i*4+0)%nat with (4*i)%nat by lia.
  replace (i*4+1)%nat with (S (4*i))%nat by lia.
  replace (i*4+2)%nat with (S (S (4*i)))%nat by lia.
  replace (i*4+3)%nat with (S (S (S (4*i))))%nat by lia.
  replace (4*i+4)%nat with (S (S (S (S (4*i)))))%nat by lia.
  apply f32_set_agree; [rewrite !f32_set_length; exact Hlen|].
  apply f32_set_agree; [rewrite !f32_set_length; exact Hlen|].
  apply f32_set_agree; [rewrite !f32_set_length; exact Hlen|].
  apply f32_set_agree; assumption.
Qed.

(** The loops of create and of update store the same positions and colours. *)
Lemma create_loop_positions i (vs : list (Vertex3D num)) a :
  va_positions (for_vertices create_vertex_body i vs a) =
    for_vertices write_position i vs (va_positions a).
Proof. revert i a. induction vs as [|v vs IH]; intros i a; simpl; [reflexivity|]. apply IH. Qed.

Lemma create_loop_colors i (vs : list (Vertex3D num)) a :
  va_colors (for_vertices create_vertex_body i vs a) =
    for_vertices write_color i vs (va_colors a).
Proof. revert i a. induction vs as [|v vs IH]; intros i a; simpl; [reflexivity|]. apply IH. Qed.

Lemma update_loop_positions i (vs : list (Vertex3D num)) (a : list num * list num) :
  (for_vertices update_vertex_body i vs a).1 = for_vertices write_position i vs a.1.
Proof. revert i a. induction vs as [|v vs IH]; intros i a; simpl; [reflexivity|]. apply IH. Qed.

Lemma update_loop_colors i (vs : list (Vertex3D num)) (a : list num * list num) :
  (for_vertices update_vertex_body i vs a).2 = for_vertices write_color i vs a.2.
Proof. revert i a. induction vs as [|v vs IH]; intros i a; simpl; [reflexivity|]. apply IH. Qed.
End VertexLoops.

(** Runs the primitive calls of the context in the goal. *)
Ltac gl_compute :=
  cbv [upload mbind mret GLM_bind GLM_ret gl_createBuffer gl_bindBuffer gl_bufferData
       gl_bufferSubData gl_call gl_drawElements
       emit bound nextBuffer buffers boundArray boundElement calls fst snd].

Section CreateProperties.
Context {num M : Type} {math : CL3DMath num M}.

Lemma fill_tangents_succeeds (n i : nat) (ts bs : list (Vect3d num)) (ta ba : list num) :
  (i + n ≤ length ts)%nat → (i + n ≤ length bs)%nat →
  is_Some (fill_tangents n i ts bs ta ba).
Proof.
  revert i ta ba. induction n as [|n IH]; intros i ta ba Hts Hbs; simpl; [eauto|].
  destruct (lookup_lt_is_Some_2 ts i) as [t Ht]; [lia|].
  destruct (lookup_lt_is_Some_2 bs i) as [b Hb]; [lia|].
  rewrite Ht, Hb. apply IH; lia.
Qed.

Lemma draw_calls_app (cs1 cs2 : list (GLCall num M)) :
  draw_calls (cs1 ++ cs2) = draw_calls cs1 ++ draw_calls cs2.
Proof. apply omap_app. Qed.

Lemma light_uploads_app (cs1 cs2 : list (GLCall num M)) :
  light_uploads (cs1 ++ cs2) = light_uploads cs1 ++ light_uploads cs2.
Proof. apply omap_app. Qed.

Lemma create_fresh (buf : MeshBuffer num) (g : GLState num M) :
  RendererNativeArray buf = None → tangents_ok buf →
  ∃ na g',
    createRendererNativeArray buf g =
      Some (mkMeshBuffer (Vertices buf) (Indices buf) (Tangents buf) (Binormals buf)
              (Some na) false false, g')
    ∧ positionsArray na =
        for_vertices write_position 0 (Vertices buf)
          (new_Float32Array (length (Vertices buf) * 3))
    ∧ colorArray na =
        for_vertices write_color 0 (Vertices buf)
          (new_Float32Array (length (Vertices buf) * 4))
    ∧ indexCount na = length (Indices buf) ∧ vertexCount na = length (Vertices buf)
    ∧ buffers g' !! positionBuffer na = Some (Float32Array (positionsArray na), DYNAMIC_DRAW)
    ∧ buffers g' !! colorBuffer na = Some (Float32Array (colorArray na), STATIC_DRAW)
    ∧ buffers g' !! indexBuffer na =
        Some (Uint16Array (make_indexArray (Indices buf)), STATIC_DRAW)
    ∧ Forall (λ h, nextBuffer g ≤ h < nextBuffer g')%nat (handles na)
    ∧ draw_calls (calls g') = draw_calls (calls g)
    ∧ light_uploads (calls g') = light_uploads (calls g).
Proof.
  intros Hnone Hok. unfold createRendererNativeArray. rewrite Hnone.
  unfold tangents_ok in Hok. destruct g as [nb bufs ba be cs].
  destruct (Tangents buf) as [ts|], (Binormals buf) as [bs|];
    [destruct Hok as [Hts Hbs];
     destruct (fill_tangents_succeeds (length (Vertices buf)) 0 ts bs
                 (new_Float32Array (length (Vertices buf) * 3))
                 (new_Float32Array (length (Vertices buf) * 3))) as [[ta ba'] Hfill];
       [lia|lia|]; rewrite Hfill | | | ];
    gl_compute; eexists _, _; (split; [reflexivity|]).
  all: cbn [positionsArray colorArray indexCount vertexCount positionBuffer colorBuffer
         indexBuffer nextBuffer buffers calls handles texcoordsBuffer texcoordsBuffer2
         normalBuffer tangentBuffer binormalBuffer from_option app].
  all: rewrite create_loop_positions, create_loop_colors.
  all: cbn [va_positions va_colors].
  all: repeat split.
  all: lazymatch goal with
       | |- _ !! _ = _ => repeat (rewrite lookup_insert_ne by lia); apply lookup_insert_eq
       | |- Forall _ _ => repeat (constructor; [cbn beta; lia|]); constructor
       | |- _ => rewrite ?draw_calls_app, ?light_uploads_app;
                 cbn [draw_calls light_uploads omap app]; rewrite ?app_nil_r; reflexivity
       end.
Qed.
End CreateProperties.

Section DrawProperties.
Context {num M : Type} {math : CL3DMath num M}.

Lemma performs_bind {A B} be (m : GLM num M A) (f : A → GLM num M B) D1 U1 be1 D2 U2 be2 :
  performs be m D1 U1 be1 → (∀ a, performs be1 (f a) D2 U2 be2) →
  performs be (m ≫= f) (D1 ++ D2) (U1 ++ U2) be2.
Proof.
  intros Hm Hf g Hg. destruct (Hm g Hg) as (a & g1 & E1 & N1 & B1 & Be1 & Dr1 & Up1).
  destruct (Hf a g1 Be1) as (b & g2 & E2 & N2 & B2 & Be2 & Dr2 & Up2).
  exists b, g2. unfold mbind, GLM_bind. rewrite E1.
  split; [exact E2|]. rewrite N2, B2, Dr2, Up2, Dr1, Up1, !app_assoc. auto.
Qed.

Lemma performs_ret {A} be (a : A) : performs (num:=num) (M:=M) be (mret a) [] [] be.
Proof.
  intros g Hg. exists a, g. rewrite !app_nil_r. auto 10.
Qed.

Lemma performs_call be (c : GLCall num M) :
  performs be (gl_call c) (draw_calls [c]) (light_uploads [c]) be.
Proof.
  intros g Hg. eexists tt, _. split; [reflexivity|].
  destruct g; cbn [emit nextBuffer buffers boundElement calls] in *.
  rewrite draw_calls_app, light_uploads_app. auto.
Qed.

Lemma performs_silent be (c : GLCall num M) :
  draw_calls [c] = [] → light_uploads [c] = [] → performs be (gl_call c) [] [] be.
Proof. intros <- <-. apply performs_call. Qed.

Lemma performs_upload be (loc : option nat) (d : list num) :
  performs (M:=M) be (gl_call (Uniform4fv loc d)) [] [(loc, d)] be.
Proof. apply (performs_call be (Uniform4fv loc d)). Qed.

Lemma performs_bind_array be (h : option nat) :
  performs (num:=num) (M:=M) be (gl_bindBuffer ARRAY_BUFFER h) [] [] be.
Proof.
  intros g Hg. eexists tt, _. split; [reflexivity|].
  destruct g; cbn [emit nextBuffer buffers boundElement calls] in *.
  rewrite draw_calls_app, light_uploads_app. auto.
Qed.

Lemma performs_bind_element be (h : option nat) :
  performs (num:=num) (M:=M) be (gl_bindBuffer ELEMENT_ARRAY_BUFFER h) [] [] h.
Proof.
  intros g Hg. eexists tt, _. split; [reflexivity|].
  destruct g; cbn [emit nextBuffer buffers boundElement calls] in *.
  rewrite draw_calls_app, light_uploads_app. auto.
Qed.

Lemma performs_draw be (count : nat) :
  performs (num:=num) (M:=M) be (gl_drawElements count) [(count, be)] [] be.
Proof.
  intros g Hg. eexists tt, _. split; [reflexivity|].
  destruct g; cbn [emit nextBuffer buffers boundElement calls] in *. subst be.
  rewrite draw_calls_app, light_uploads_app.
  repeat split; reflexivity.
Qed.

Lemma performs_when {A} be (o : option A) (f : A → GLM num M unit) U :
  (∀ a, performs be (f a) [] U be) →
  performs be (when o f) [] (match o with Some _ => U | None => [] end) be.
Proof.
  intros Hf. destruct o as [a|]; [apply Hf | apply performs_ret].
Qed.

Lemma performs_if {A} be (b : bool) (m1 m2 : GLM num M A) D1 U1 D2 U2 be' :
  performs be m1 D1 U1 be' → performs be m2 D2 U2 be' →
  performs be (if b then m1 else m2) (if b then D1 else D2) (if b then U1 else U2) be'.
Proof. destruct b; auto. Qed.

Lemma performs_eq {A} be (m : GLM num M A) D U D' U' be' :
  performs be m D U be' → D = D' → U = U' → performs be m D' U' be'.
Proof. intros Hm <- <-. exact Hm. Qed.
End DrawProperties.

(** One step of a derivation of [performs], by the shape of the computation. *)
Ltac performs_step :=
  lazymatch goal with
  | |- performs _ (mbind _ _) _ _ _ => eapply performs_bind; [|intros]
  | |- performs _ (gl_call (Uniform4fv _ _)) _ _ _ => apply performs_upload
  | |- performs _ (gl_call _) _ _ _ => apply performs_silent; reflexivity
  | |- performs _ (gl_bindBuffer ARRAY_BUFFER _) _ _ _ => apply performs_bind_array
  | |- performs _ (gl_bindBuffer ELEMENT_ARRAY_BUFFER _) _ _ _ => apply performs_bind_element
  | |- performs _ (gl_drawElements _) _ _ _ => apply performs_draw
  | |- performs _ (mret _) _ _ _ => apply performs_ret
  | |- performs _ (when _ _) _ _ _ => apply performs_when; intros; cbn beta
  | |- performs _ (if _ then _ else _) _ _ _ => apply performs_if
  | |- performs _ (match ?o with Some _ => _ | None => _ end) _ _ _ => destruct o
  end.

Section DrawGeometry.
Context {num M : Type} {math : CL3DMath num M}.

Lemma setDynamicLightsIntoConstants_performs (r : Renderer num M) (program : Program)
    (useWorld useOld : bool) (be : option nat) :
  performs be (setDynamicLightsIntoConstants r program useWorld useOld) []
    [(locLightPositions program, (light_arrays r useWorld useOld).1);
     (locLightColors program, (light_arrays r useWorld useOld).2)] be.
Proof.
  unfold setDynamicLightsIntoConstants. cbn zeta.
  eapply performs_eq; [repeat performs_step| |]; reflexivity.
Qed.

(** What [drawWebGlStaticGeometry] does on a device resource, with a program
    bound: it leaves the buffer store alone, uploads the light arrays when the
    program has a light-positions uniform, and issues one draw, of the given
    number of indices or else of the resource's index count, from the
    resource's index buffer. *)
Lemma drawWebGlStaticGeometry_performs (r : Renderer num M) (b : NativeArray num)
    (indexCountToUse : option nat) (program : Program) (be : option nat) :
  currentGLProgram r = Some program →
  let tb := bool_decide (is_Some (tangentBuffer b)) && bool_decide (is_Some (binormalBuffer b)) in
  performs be (drawWebGlStaticGeometry r (Some b) indexCountToUse)
    [(default (indexCount b) indexCountToUse, Some (indexBuffer b))]
    (match locLightPositions program with
     | Some _ => [(locLightPositions program, (light_arrays r tb tb).1);
                  (locLightColors program, (light_arrays r tb tb).2)]
     | None => []
     end)
    (Some (indexBuffer b)).
Proof.
  intros Hp tb. unfold drawWebGlStaticGeometry. rewrite Hp. cbn zeta. fold tb.
  eapply performs_eq;
    [repeat first [performs_step | apply setDynamicLightsIntoConstants_performs] | |].
  - destruct tb; reflexivity.
  - destruct tb, (locWorldViewProj program), (locNormalMatrix program),
      (locModelViewMatrix program), (locModelWorldMatrix program),
      (locLightPositions program); reflexivity.
Qed.
End DrawGeometry.

Section BufferProperties.
Context {num M : Type} {math : CL3DMath num M}.

Lemma new_Float32Array_length (n : nat) : length (new_Float32Array n) = n.
Proof. apply length_replicate. Qed.

Lemma nonempty_guard (buf : MeshBuffer num) :
  Vertices buf ≠ [] → Indices buf ≠ [] →
  ¬ (length (Vertices buf) = 0 ∨ length (Indices buf) = 0)%nat.
Proof.
  intros Hv Hi [H|H]; apply length_zero_iff_nil in H; contradiction.
Qed.

(** C4: an update of a buffer whose vertex or index count has grown beyond the
    counts stored in its device resource is a create of the buffer without
    that resource; with tangents and binormals in order it yields a resource
    built from the buffer's data alone, all of whose handles are new. *)
Theorem update_on_growth_is_create
    (buf : MeshBuffer num) (old : NativeArray num) (g : GLState num M) :
  Vertices buf ≠ [] → Indices buf ≠ [] →
  RendererNativeArray buf = Some old →
  (vertexCount old < length (Vertices buf) ∨ indexCount old < length (Indices buf))%nat →
  updateRendererNativeArray buf g = createRendererNativeArray (setNativeArray None buf) g
  ∧ (tangents_ok buf →
     ∃ na g',
       updateRendererNativeArray buf g = Some (setNativeArray (Some na) (clearUpdateFlags buf), g')
       ∧ positionsArray na =
           for_vertices write_position 0 (Vertices buf)
             (new_Float32Array (length (Vertices buf) * 3))
       ∧ colorArray na =
           for_vertices write_color 0 (Vertices buf)
             (new_Float32Array (length (Vertices buf) * 4))
       ∧ indexCount na = length (Indices buf) ∧ vertexCount na = length (Vertices buf)
       ∧ buffers g' !! positionBuffer na = Some (Float32Array (positionsArray na), DYNAMIC_DRAW)
       ∧ buffers g' !! colorBuffer na = Some (Float32Array (colorArray na), STATIC_DRAW)
       ∧ buffers g' !! indexBuffer na =
           Some (Uint16Array (make_indexArray (Indices buf)), STATIC_DRAW)
       ∧ Forall (λ h, nextBuffer g ≤ h < nextBuffer g')%nat (handles na)).
Proof.
  intros Hv Hi Hold Hgrow.
  assert (Heq : updateRendererNativeArray buf g =
                createRendererNativeArray (setNativeArray None buf) g).
  { unfold updateRendererNativeArray.
    rewrite decide_False by (apply nonempty_guard; assumption).
    rewrite Hold, decide_True by exact Hgrow. reflexivity. }
  split; [exact Heq|]. intros Hok. rewrite Heq.
  destruct (create_fresh (setNativeArray None buf) g eq_refl Hok)
    as (na & g' & E & Hp & Hc & Hic & Hvc & Bp & Bc & Bi & Hfresh & _).
  exists na, g'. cbn [setNativeArray Vertices Indices Tangents Binormals] in *.
  repeat split; assumption.
Qed.

(** The update of a buffer whose counts have not grown, on a resource whose
    arrays hold at least its vertex count. *)
Lemma update_in_place (buf : MeshBuffer num) (old : NativeArray num) (g : GLState num M) :
  Vertices buf ≠ [] → Indices buf ≠ [] →
  RendererNativeArray buf = Some old →
  (length (Vertices buf) ≤ vertexCount old)%nat →
  (length (Indices buf) ≤ indexCount old)%nat →
  ∃ g',
    updateRendererNativeArray buf g =
      Some (setNativeArray
              (Some (mkNativeArray (positionBuffer old)
                       (for_vertices write_position 0 (Vertices buf) (positionsArray old))
                       (texcoordsBuffer old) (texcoordsBuffer2 old) (normalBuffer old)
                       (tangentBuffer old) (binormalBuffer old) (colorBuffer old)
                       (for_vertices write_color 0 (Vertices buf) (colorArray old))
                       (indexBuffer old) (length (Indices buf)) (length (Vertices buf))))
              buf, g')
    ∧ nextBuffer g' = nextBuffer g
    ∧ draw_calls (calls g') = draw_calls (calls g)
    ∧ light_uploads (calls g') = light_uploads (calls g).
Proof.
  intros Hv Hi Hold Hvc Hic. unfold updateRendererNativeArray.
  rewrite decide_False by (apply nonempty_guard; assumption).
  rewrite Hold, decide_False by lia. rewrite decide_False by lia.
  rewrite update_loop_positions, update_loop_colors. cbn [fst snd].
  destruct g as [nb bufs ba be cs]. gl_compute.
  eexists. split; [reflexivity|]. cbn [nextBuffer calls].
  split; [reflexivity|].
  rewrite !draw_calls_app, !light_uploads_app. cbn [draw_calls light_uploads omap app].
  rewrite !app_nil_r. split; reflexivity.
Qed.
(** C5, amended: an update of a buffer whose counts have not grown beyond
    those of its device resource allocates nothing and keeps every buffer
    handle of the resource; the position array holds, on its first
    3 * |Vertices| entries, what a create from scratch stores for the same
    vertices, and its old entries beyond; the colour array likewise on its
    first 4 * |Vertices| entries.  Arrays of exactly the size the vertices
    need equal those of a create from scratch. *)
Theorem update_in_place_keeps_handles
    (buf : MeshBuffer num) (old : NativeArray num) (g : GLState num M) :
  Vertices buf ≠ [] → Indices buf ≠ [] →
  RendererNativeArray buf = Some old →
  (length (Vertices buf) ≤ vertexCount old)%nat →
  (length (Indices buf) ≤ indexCount old)%nat →
  (3 * vertexCount old ≤ length (positionsArray old))%nat →
  (4 * vertexCount old ≤ length (colorArray old))%nat →
  let fresh_positions :=
    for_vertices write_position 0 (Vertices buf) (new_Float32Array (length (Vertices buf) * 3)) in
  let fresh_colors :=
    for_vertices write_color 0 (Vertices buf) (new_Float32Array (length (Vertices buf) * 4)) in
  ∃ na g',
    updateRendererNativeArray buf g = Some (setNativeArray (Some na) buf, g')
    ∧ nextBuffer g' = nextBuffer g
    ∧ (positionBuffer na = positionBuffer old ∧ texcoordsBuffer na = texcoordsBuffer old
       ∧ texcoordsBuffer2 na = texcoordsBuffer2 old ∧ normalBuffer na = normalBuffer old
       ∧ tangentBuffer na = tangentBuffer old ∧ binormalBuffer na = binormalBuffer old
       ∧ colorBuffer na = colorBuffer old ∧ indexBuffer na = indexBuffer old)
    ∧ positionsArray na =
        fresh_positions ++ drop (3 * length (Vertices buf)) (positionsArray old)
    ∧ colorArray na = fresh_colors ++ drop (4 * length (Vertices buf)) (colorArray old)
    ∧ (length (positionsArray old) = (3 * length (Vertices buf))%nat →
       positionsArray na = fresh_positions)
    ∧ (length (colorArray old) = (4 * length (Vertices buf))%nat → colorArray na = fresh_colors)
    ∧ (3 * vertexCount na ≤ length (positionsArray na))%nat
    ∧ (4 * vertexCount na ≤ length (colorArray na))%nat.
Proof.
  intros Hv Hi Hold Hvc Hic Hpl Hcl fresh_positions fresh_colors.
  destruct (update_in_place buf old g Hv Hi Hold Hvc Hic) as (g' & E & Hn & _).
  eexists _, g'. split; [exact E|]. split; [exact Hn|].
  cbn [positionBuffer texcoordsBuffer texcoordsBuffer2 normalBuffer tangentBuffer
       binormalBuffer colorBuffer indexBuffer positionsArray colorArray vertexCount].
  split; [repeat split|].
  assert (Hp : for_vertices write_position 0 (Vertices buf) (positionsArray old) =
               fresh_positions ++ drop (3 * length (Vertices buf)) (positionsArray old)).
  { apply (for_vertices_overwrite write_position 3 write_position_length
             write_position_take write_position_drop write_position_agree); [lia|].
    rewrite new_Float32Array_length. lia. }
  assert (Hc : for_vertices write_color 0 (Vertices buf) (colorArray old) =
               fresh_colors ++ drop (4 * length (Vertices buf)) (colorArray old)).
  { apply (for_vertices_overwrite write_color 4 write_color_length
             write_color_take write_color_drop write_color_agree); [lia|].
    rewrite new_Float32Array_length. lia. }
  split; [exact Hp|]. split; [exact Hc|].
  split; [intros Hlen; rewrite Hp, drop_ge by lia; apply app_nil_r|].
  split; [intros Hlen; rewrite Hc, drop_ge by lia; apply app_nil_r|].
  rewrite (for_vertices_length write_position write_position_length).
  rewrite (for_vertices_length write_color write_color_length). lia.
Qed.

(** What [drawMeshBuffer] does before it draws: whichever of create, update,
    position update or nothing the buffer's state selects, the buffer has a
    device resource afterwards and the log shows no new draw and no new light
    upload. *)
Lemma prepare_succeeds (buf : MeshBuffer num) (g : GLState num M) :
  tangents_ok buf →
  ∃ buf1 g1 na,
    match RendererNativeArray buf with
    | None => createRendererNativeArray buf
    | Some _ =>
        if OnlyUpdateBufferIfPossible buf then updateRendererNativeArray buf
        else if OnlyPositionsChanged buf then updatePositionsInRendererNativeArray buf
        else mret buf
    end g = Some (buf1, g1)
    ∧ RendererNativeArray buf1 = Some na
    ∧ Vertices buf1 = Vertices buf ∧ Indices buf1 = Indices buf
    ∧ draw_calls (calls g1) = draw_calls (calls g)
    ∧ light_uploads (calls g1) = light_uploads (calls g).
Proof.
  intros Hok. destruct (RendererNativeArray buf) as [old|] eqn:Hold.
  - destruct (OnlyUpdateBufferIfPossible buf).
    + unfold updateRendererNativeArray. case_decide as Hempty.
      { exists buf, g, old. auto 10. }
      rewrite Hold. case_decide as Hgrow.
      * destruct (create_fresh (setNativeArray None buf) g eq_refl Hok)
          as (na & g' & E & _ & _ & _ & _ & _ & _ & _ & _ & Hd & Hu).
        eexists _, g', na. split; [exact E|]. auto 10.
      * rewrite decide_False by lia.
        destruct g as [nb bufs ba be cs]. gl_compute.
        eexists _, _, _. split; [reflexivity|]. cbn [calls].
        rewrite !draw_calls_app, !light_uploads_app. cbn [draw_calls light_uploads omap app].
        rewrite !app_nil_r. auto 10.
    + destruct (OnlyPositionsChanged buf).
      * unfold updatePositionsInRendererNativeArray. rewrite Hold.
        destruct g as [nb bufs ba be cs]. gl_compute.
        eexists _, _, _. split; [reflexivity|]. cbn [calls].
        rewrite !draw_calls_app, !light_uploads_app. cbn [draw_calls light_uploads omap app].
        rewrite !app_nil_r. auto 10.
      * exists buf, g, old. auto 10.
  - destruct (create_fresh buf g Hold Hok)
      as (na & g' & E & _ & _ & _ & _ & _ & _ & _ & _ & Hd & Hu).
    eexists _, g', na. split; [exact E|]. auto 10.
Qed.
(** The update of a buffer whose counts have grown builds a new resource. *)
Lemma update_on_growth_index_buffer
    (buf : MeshBuffer num) (old : NativeArray num) (g : GLState num M) :
  Vertices buf ≠ [] → Indices buf ≠ [] → tangents_ok buf →
  (vertexCount old < length (Vertices buf) ∨ indexCount old < length (Indices buf))%nat →
  ∃ na g',
    updateRendererNativeArray (setNativeArray (Some old) buf) g =
      Some (mkMeshBuffer (Vertices buf) (Indices buf) (Tangents buf) (Binormals buf)
              (Some na) false false, g')
    ∧ buffers g' !! indexBuffer na =
        Some (Uint16Array (make_indexArray (Indices buf)), STATIC_DRAW).
Proof.
  intros Hv Hi Hok Hgrow. unfold updateRendererNativeArray.
  cbn [setNativeArray Vertices Indices RendererNativeArray].
  rewrite decide_False by (apply nonempty_guard; assumption).
  rewrite decide_True by exact Hgrow.
  destruct (create_fresh (setNativeArray None (setNativeArray (Some old) buf)) g eq_refl Hok)
    as (na & g' & E & _ & _ & _ & _ & _ & _ & Bi & _).
  exists na, g'. split; [exact E|exact Bi].
Qed.
End BufferProperties.

Section DrawMeshBuffer.
Context {num M : Type} {math : CL3DMath num M}.

(** [drawMeshBuffer] on a renderer with a context and a bound program: the
    buffer has a device resource afterwards, one draw is issued from the
    resource's index buffer, and the light arrays are uploaded when the
    program has a light-positions uniform. *)
Lemma drawMeshBuffer_performs (r : Renderer num M) (buf : MeshBuffer num)
    (indexCountToUse : option nat) (g : GLState num M) (program : Program) :
  gl r = Some g → currentGLProgram r = Some program → tangents_ok buf →
  ∃ buf' g' na,
    drawMeshBuffer r buf indexCountToUse = Some (buf', setGL (Some g') r)
    ∧ RendererNativeArray buf' = Some na
    ∧ Vertices buf' = Vertices buf ∧ Indices buf' = Indices buf
    ∧ draw_calls (calls g') =
        draw_calls (calls g) ++ [(default (indexCount na) indexCountToUse, Some (indexBuffer na))]
    ∧ light_uploads (calls g') =
        light_uploads (calls g) ++
        let tb := bool_decide (is_Some (tangentBuffer na)) &&
                  bool_decide (is_Some (binormalBuffer na)) in
        match locLightPositions program with
        | Some _ => [(locLightPositions program, (light_arrays r tb tb).1);
                     (locLightColors program, (light_arrays r tb tb).2)]
        | None => []
        end.
Proof.
  intros Hgl Hp Hok. unfold drawMeshBuffer. rewrite Hgl.
  destruct (prepare_succeeds buf g Hok) as (buf1 & g1 & na & E & Hna & Hv & Hi & Hd & Hu).
  unfold mbind at 1. unfold GLM_bind at 1. rewrite E.
  replace (RendererNativeArray (clearUpdateFlags buf1)) with (Some na)
    by (symmetry; exact Hna).
  destruct (drawWebGlStaticGeometry_performs r na indexCountToUse program
              (boundElement g1) Hp g1 eq_refl)
    as (u & g2 & E2 & _ & _ & _ & Hd2 & Hu2).
  unfold mbind, GLM_bind. rewrite E2. cbn [mret GLM_ret].
  exists (clearUpdateFlags buf1), g2, na.
  split; [reflexivity|]. split; [exact Hna|]. split; [exact Hv|]. split; [exact Hi|].
  rewrite Hd2, Hu2, Hd, Hu. split; reflexivity.
Qed.

(** A fresh buffer is created and then drawn. *)
Lemma drawMeshBuffer_fresh (r : Renderer num M) (buf : MeshBuffer num)
    (indexCountToUse : option nat) (g : GLState num M) (program : Program) :
  gl r = Some g → currentGLProgram r = Some program → tangents_ok buf →
  RendererNativeArray buf = None →
  ∃ buf' g' na,
    drawMeshBuffer r buf indexCountToUse = Some (buf', setGL (Some g') r)
    ∧ RendererNativeArray buf' = Some na
    ∧ indexCount na = length (Indices buf) ∧ vertexCount na = length (Vertices buf)
    ∧ length (positionsArray na) = (length (Vertices buf) * 3)%nat
    ∧ length (colorArray na) = (length (Vertices buf) * 4)%nat
    ∧ buffers g' !! indexBuffer na =
        Some (Uint16Array (make_indexArray (Indices buf)), STATIC_DRAW)
    ∧ Forall (λ h, nextBuffer g ≤ h < nextBuffer g')%nat (handles na)
    ∧ draw_calls (calls g') =
        draw_calls (calls g) ++ [(default (indexCount na) indexCountToUse, Some (indexBuffer na))].
Proof.
  intros Hgl Hp Hok Hnone. unfold drawMeshBuffer. rewrite Hgl, Hnone.
  destruct (create_fresh buf g Hnone Hok)
    as (na & g1 & E & Hpa & Hca & Hic & Hvc & _ & _ & Bi & Hfresh & Hd & _).
  unfold mbind at 1. unfold GLM_bind at 1. rewrite E.
  cbn [clearUpdateFlags RendererNativeArray].
  destruct (drawWebGlStaticGeometry_performs r na indexCountToUse program
              (boundElement g1) Hp g1 eq_refl)
    as (u & g2 & E2 & Hn2 & Hb2 & _ & Hd2 & _).
  unfold mbind, GLM_bind. rewrite E2. cbn [mret GLM_ret].
  eexists _, g2, na. split; [reflexivity|]. split; [reflexivity|].
  split; [exact Hic|]. split; [exact Hvc|].
  split; [rewrite Hpa, (for_vertices_length write_position write_position_length);
          apply new_Float32Array_length|].
  split; [rewrite Hca, (for_vertices_length write_color write_color_length);
          apply new_Float32Array_length|].
  rewrite Hb2, Hn2, Hd2, Hd. auto.
Qed.

(** C2, amended: on a renderer with a context and a bound program, for a
    buffer with vertices and indices whose indices are unsigned shorts (from
    0 to 65535) and whose tangent and binormal lists, when it has both, have
    an entry for every vertex, creating the device resource and drawing it
    with no index count given issues one triangle-list draw of as many
    indices as the buffer has, from an index buffer that holds, on every
    triangle, the buffer's indices with the second and third exchanged; the
    index buffer built when an update finds the counts grown holds the same
    array. *)
Theorem create_then_draw_rewinds
    (r : Renderer num M) (buf : MeshBuffer num) (g : GLState num M) (program : Program) :
  gl r = Some g → currentGLProgram r = Some program →
  RendererNativeArray buf = None →
  Vertices buf ≠ [] → Indices buf ≠ [] → tangents_ok buf →
  Forall (λ i, 0 ≤ i < 65536) (Indices buf) →
  let device := make_indexArray (Indices buf) in
  (∃ buf' g' na,
     drawMeshBuffer r buf None = Some (buf', setGL (Some g') r)
     ∧ RendererNativeArray buf' = Some na
     ∧ buffers g' !! indexBuffer na = Some (Uint16Array device, STATIC_DRAW)
     ∧ draw_calls (calls g') =
         draw_calls (calls g) ++ [(length (Indices buf), Some (indexBuffer na))])
  ∧ length device = length (Indices buf)
  ∧ (∀ t i0 i1 i2,
       Indices buf !! (3*t)%nat = Some i0 →
       Indices buf !! (3*t+1)%nat = Some i1 →
       Indices buf !! (3*t+2)%nat = Some i2 →
       device !! (3*t)%nat = Some i0
       ∧ device !! (3*t+1)%nat = Some i2
       ∧ device !! (3*t+2)%nat = Some i1)
  ∧ (∀ old g0,
       (vertexCount old < length (Vertices buf) ∨ indexCount old < length (Indices buf))%nat →
       ∃ buf2 g2 na2,
         updateRendererNativeArray (setNativeArray (Some old) buf) g0 = Some (buf2, g2)
         ∧ RendererNativeArray buf2 = Some na2
         ∧ buffers g2 !! indexBuffer na2 = Some (Uint16Array device, STATIC_DRAW)).
Proof.
  intros Hgl Hp Hnone Hv Hi Hok Hrange device.
  split; [|split; [|split]].
  - destruct (drawMeshBuffer_fresh r buf None g program Hgl Hp Hok Hnone)
      as (buf' & g' & na & E & Hna & Hic & _ & _ & _ & Bi & _ & Hd).
    exists buf', g', na. rewrite <- Hic. auto.
  - apply make_indexArray_length.
  - intros t i0 i1 i2 H0 H1 H2.
    destruct (make_indexArray_swap (Indices buf) t i0 i1 i2 H0 H1 H2) as (G0 & G1 & G2).
    rewrite Forall_forall in Hrange.
    rewrite ToUint16_id in G0 by (apply Hrange; eapply list_elem_of_lookup_2; exact H0).
    rewrite ToUint16_id in G1 by (apply Hrange; eapply list_elem_of_lookup_2; exact H2).
    rewrite ToUint16_id in G2 by (apply Hrange; eapply list_elem_of_lookup_2; exact H1).
    auto.
  - intros old g0 Hgrow.
    destruct (update_on_growth_index_buffer buf old g0 Hv Hi Hok Hgrow)
      as (na2 & g2 & E & Bi).
    eexists _, g2, na2. split; [exact E|]. split; [reflexivity|exact Bi].
Qed.
(** C9, amended: on a renderer with a context and a bound program, for a
    buffer whose vertex list or index list is empty and whose tangent and
    binormal lists, when it has both, have an entry for every vertex (as they
    always have when the vertex list is empty), the create is no error and no
    no-op: it allocates the buffers of a device resource with arrays of the
    sizes the lists give, attaches it to the buffer, and the draw that
    follows issues one draw call of as many indices as the index list has. *)
Theorem empty_buffer_is_created_and_drawn
    (r : Renderer num M) (buf : MeshBuffer num) (g : GLState num M) (program : Program) :
  gl r = Some g → currentGLProgram r = Some program → tangents_ok buf →
  RendererNativeArray buf = None →
  Vertices buf = [] ∨ Indices buf = [] →
  ∃ buf' g' na,
    drawMeshBuffer r buf None = Some (buf', setGL (Some g') r)
    ∧ RendererNativeArray buf' = Some na
    ∧ indexCount na = length (Indices buf) ∧ vertexCount na = length (Vertices buf)
    ∧ length (positionsArray na) = (length (Vertices buf) * 3)%nat
    ∧ length (colorArray na) = (length (Vertices buf) * 4)%nat
    ∧ (nextBuffer g < nextBuffer g')%nat
    ∧ Forall (λ h, nextBuffer g ≤ h < nextBuffer g')%nat (handles na)
    ∧ draw_calls (calls g') =
        draw_calls (calls g) ++ [(length (Indices buf), Some (indexBuffer na))].
Proof.
  intros Hgl Hp Hok Hnone _.
  destruct (drawMeshBuffer_fresh r buf None g program Hgl Hp Hok Hnone)
    as (buf' & g' & na & E & Hna & Hic & Hvc & Hpl & Hcl & _ & Hfresh & Hd).
  cbn [default from_option] in Hd. rewrite Hic in Hd.
  exists buf', g', na.
  repeat (split; [assumption|]).
  split; [|split; [exact Hfresh|exact Hd]].
  apply Forall_cons in Hfresh as [Hfirst _]. lia.
Qed.
End DrawMeshBuffer.

Section LightPacking.
Context {num M : Type} {math : CL3DMath num M}.

(** The arrays of [setDynamicLightsIntoConstants], slot by slot. *)
Lemma light_arrays_slots (r : Renderer num M) (useWorld useOld : bool) :
  light_arrays r useWorld useOld =
    (position_slot r useWorld useOld 0 ++ position_slot r useWorld useOld 1 ++
     position_slot r useWorld useOld 2 ++ position_slot r useWorld useOld 3,
     color_slot r 0 ++ color_slot r 1 ++ color_slot r 2 ++ color_slot r 3 ++
     [toFloat32 (cR (AmbientLight r)); toFloat32 (cG (AmbientLight r));
      toFloat32 (cB (AmbientLight r)); toFloat32 (lit 1)]).
Proof.
  unfold light_arrays, pack_light, position_slot, color_slot.
  cbn [foldl seq].
  destruct (Lights r !! 0%nat), (Lights r !! 1%nat), (Lights r !! 2%nat), (Lights r !! 3%nat);
    reflexivity.
Qed.

Lemma position_slot_length (r : Renderer num M) (a b : bool) (i : nat) :
  length (position_slot r a b i) = 4%nat.
Proof. unfold position_slot. destruct (Lights r !! i); reflexivity. Qed.

Lemma color_slot_length (r : Renderer num M) (i : nat) : length (color_slot r i) = 4%nat.
Proof. unfold color_slot. destruct (Lights r !! i); reflexivity. Qed.

Lemma foldl_render_light (l : list (SceneNode num)) (r : Renderer num M) :
  Lights (foldl render_light r l) = Lights r ++ point_lights l.
Proof.
  revert r. induction l as [|n l IH]; intros r; simpl.
  - rewrite app_nil_r. reflexivity.
  - rewrite IH. unfold render_light, point_lights. cbn [omap list_omap].
    destruct (LightData n) as [d|], (IsDirectional n); cbn [Lights setDirectionalLight addDynamicLight];
      rewrite <- ?app_assoc; reflexivity.
Qed.
Variable intersectsCullingBox : M → Vect3d Z → SceneNode num → bool.

(** The light list [drawAll] leaves in the renderer: the point lights among
    the registered light nodes, in the order of the stable sort by increasing
    squared distance to the camera position. *)
Lemma drawAll_lights (s : Scene num M) (r : Renderer num M)
    (regs : list (SceneNode num * option Z)) (cam : CameraSceneNode num M) :
  ActiveCamera s = Some cam →
  Lights (drawAll intersectsCullingBox s r regs).1.2 =
    point_lights (Array_sort (compare_lights (AbsolutePosition (camNode cam)))
                    (registered RENDER_MODE_LIGHTS regs)).
Proof.
  intros Hcam. unfold drawAll.
  destruct (drawAll_registration s regs) as (H1 & H2 & H3 & H4 & H5 & H6 & H7).
  set (s1 := OnRegisterSceneNode regs _) in *.
  cbn zeta. cbn [fst snd]. rewrite foldl_render_light.
  rewrite H6, Hcam, H3. cbn [fmap option_fmap option_map compose].
  rewrite sort_when_nonempty. reflexivity.
Qed.

(** C3: a [drawMeshBuffer] under a program with a light-positions uniform
    uploads two arrays: four slots of position and attenuation, and four
    slots of colour followed by a fifth with the ambient colour.  Slot [i]
    comes from entry [i] of the renderer's light list, so only the first four
    entries are uploaded, and a slot with no entry holds the dark light, of
    colour zero.  The list itself is the one [drawAll] built: with a camera,
    the point lights sorted nearest first, lights at equal distance in
    registration order. *)
Theorem lights_are_packed_into_four_slots
    (r : Renderer num M) (buf : MeshBuffer num) (indexCountToUse : option nat)
    (g : GLState num M) (program : Program) (loc : nat) :
  gl r = Some g → currentGLProgram r = Some program → tangents_ok buf →
  locLightPositions program = Some loc →
  (∃ buf' g' tb,
     drawMeshBuffer r buf indexCountToUse = Some (buf', setGL (Some g') r)
     ∧ light_uploads (calls g') =
         light_uploads (calls g) ++
         [(Some loc,
           position_slot r tb tb 0 ++ position_slot r tb tb 1 ++
           position_slot r tb tb 2 ++ position_slot r tb tb 3);
          (locLightColors program,
           color_slot r 0 ++ color_slot r 1 ++ color_slot r 2 ++ color_slot r 3 ++
           [toFloat32 (cR (AmbientLight r)); toFloat32 (cG (AmbientLight r));
            toFloat32 (cB (AmbientLight r)); toFloat32 (lit 1)])])
  ∧ (∀ a b i, length (position_slot r a b i) = 4%nat ∧ length (color_slot r i) = 4%nat)
  ∧ (∀ a b i l, Lights r !! i = Some l →
       color_slot r i =
         [toFloat32 (cR (LColor l)); toFloat32 (cG (LColor l)); toFloat32 (cB (LColor l));
          toFloat32 (lit 1)]
       ∧ take 3 (position_slot r a b i) =
           [toFloat32 (vX (m4_getTransformedVect (light_matrix r a) (Position l)));
            toFloat32 (vY (m4_getTransformedVect (light_matrix r a) (Position l)));
            toFloat32 (vZ (m4_getTransformedVect (light_matrix r a) (Position l)))])
  ∧ (∀ a b i, (length (Lights r) ≤ i)%nat →
       color_slot r i = [toFloat32 (lit 0); toFloat32 (lit 0); toFloat32 (lit 0); toFloat32 (lit 1)]
       ∧ position_slot r a b i =
           [toFloat32 (lit 1); toFloat32 (lit 0); toFloat32 (lit 0); toFloat32 (lit 1)])
  ∧ (∀ (s : Scene num M) (r0 : Renderer num M) regs cam,
       ActiveCamera s = Some cam →
       let camPos := AbsolutePosition (camNode cam) in
       let queued := registered RENDER_MODE_LIGHTS regs in
       let sorted := Array_sort (compare_lights camPos) queued in
       Lights (drawAll intersectsCullingBox s r0 regs).1.2 = point_lights sorted
       ∧ sorted ≡ₚ queued
       ∧ StronglySorted (λ x y, distance_to camPos x ≤ distance_to camPos y) sorted
       ∧ ∀ d, filter (λ n, distance_to camPos n = d) sorted =
              filter (λ n, distance_to camPos n = d) queued).
Proof.
  intros Hgl Hp Hok Hloc. split; [|split; [|split; [|split]]].
  - destruct (drawMeshBuffer_performs r buf indexCountToUse g program Hgl Hp Hok)
      as (buf' & g' & na & E & _ & _ & _ & _ & Hu).
    exists buf', g',
      (bool_decide (is_Some (tangentBuffer na)) && bool_decide (is_Some (binormalBuffer na))).
    split; [exact E|]. rewrite Hu. cbn zeta. rewrite Hloc, light_arrays_slots. reflexivity.
  - intros a b i. split; [apply position_slot_length | apply color_slot_length].
  - intros a b i l Hl. unfold color_slot, position_slot. rewrite Hl. split; reflexivity.
  - intros a b i Hi. unfold color_slot, position_slot.
    rewrite lookup_ge_None_2 by exact Hi. split; reflexivity.
  - intros s r0 regs cam Hcam camPos queued sorted.
    split; [exact (drawAll_lights s r0 regs cam Hcam)|].
    split; [apply Array_sort_perm|]. split.
    + apply Array_sort_sorted.
      * intros x y z Hxy Hyz. lia.
      * intros x y. unfold compare_lights, distance_to. repeat case_decide; lia.
      * intros x y. unfold compare_lights, distance_to. repeat case_decide; lia.
    + intros d. apply Array_sort_stable.
      intros x y Hx Hy. unfold compare_lights, distance_to in *. repeat case_decide; lia.
Qed.

End LightPacking.

(** * The code on concrete inputs *)

Section ConcreteRuns.
Local Existing Instance integer_math.

Lemma create_then_draw_triangle :
  ∃ buf' g' na,
    drawMeshBuffer plain_renderer triangle_buffer None =
      Some (buf', setGL (Some g') plain_renderer)
    ∧ RendererNativeArray buf' = Some na
    ∧ buffers g' !! indexBuffer na =
        Some (Uint16Array (make_indexArray (Indices triangle_buffer)), STATIC_DRAW)
    ∧ draw_calls (calls g') =
        draw_calls (calls empty_gl) ++ [(length (Indices triangle_buffer), Some (indexBuffer na))].
Proof.
  refine (proj1 (create_then_draw_rewinds plain_renderer triangle_buffer empty_gl plain_program
                   eq_refl eq_refl eq_refl _ _ I _)).
  - discriminate.
  - discriminate.
  - repeat constructor; lia.
Defined.

(** C2 as stated fails on a buffer with vertices and indices whose indices
    are no unsigned shorts: the index array is a [Uint16Array], so the device
    holds the indices modulo 65536 and not the buffer's own; and it fails on a
    buffer with fewer tangents than vertices, whose create throws, so that
    nothing is drawn. *)
Lemma wide_indices_are_wrapped :
  Vertices wide_index_buffer ≠ [] ∧ Indices wide_index_buffer = [65536; 1; 70000]
  ∧ index_buffer_after (drawMeshBuffer plain_renderer wide_index_buffer None) =
      Some [0; 4464; 1]
  ∧ index_buffer_after (drawMeshBuffer plain_renderer wide_index_buffer None) ≠
      Some [65536; 70000; 1]
  ∧ Vertices short_tangents_buffer ≠ [] ∧ Indices short_tangents_buffer ≠ []
  ∧ drawMeshBuffer plain_renderer short_tangents_buffer None = None.
Proof.
  assert (H : index_buffer_after (drawMeshBuffer plain_renderer wide_index_buffer None) =
              Some [0; 4464; 1]) by (vm_compute; reflexivity).
  split; [discriminate|]. split; [reflexivity|]. split; [exact H|].
  split; [rewrite H; discriminate|].
  split; [discriminate|]. split; [discriminate|]. vm_compute. reflexivity.
Qed.

Lemma five_lights_four_slots :
  ∃ buf' g' tb,
    drawMeshBuffer five_lights_renderer triangle_buffer None =
      Some (buf', setGL (Some g') five_lights_renderer)
    ∧ light_uploads (calls g') =
        light_uploads (calls empty_gl) ++
        [(Some 1%nat,
          position_slot five_lights_renderer tb tb 0 ++ position_slot five_lights_renderer tb tb 1 ++
          position_slot five_lights_renderer tb tb 2 ++ position_slot five_lights_renderer tb tb 3);
         (locLightColors plain_program,
          color_slot five_lights_renderer 0 ++ color_slot five_lights_renderer 1 ++
          color_slot five_lights_renderer 2 ++ color_slot five_lights_renderer 3 ++
          [toFloat32 (cR (AmbientLight five_lights_renderer));
           toFloat32 (cG (AmbientLight five_lights_renderer));
           toFloat32 (cB (AmbientLight five_lights_renderer)); toFloat32 (lit 1)])].
Proof.
  exact (proj1 (lights_are_packed_into_four_slots no_culling five_lights_renderer
                  triangle_buffer None empty_gl plain_program 1 eq_refl eq_refl I eq_refl)).
Defined.

Lemma grown_buffer_is_created :
  updateRendererNativeArray grown_buffer empty_gl =
    createRendererNativeArray (setNativeArray None grown_buffer) empty_gl.
Proof.
  refine (proj1 (update_on_growth_is_create grown_buffer small_resource empty_gl
                   _ _ eq_refl _)).
  - discriminate.
  - discriminate.
  - left. simpl. lia.
Defined.

Lemma one_vertex_update_keeps_handles :
  ∃ na g',
    updateRendererNativeArray one_vertex_buffer empty_gl =
      Some (setNativeArray (Some na) one_vertex_buffer, g')
    ∧ nextBuffer g' = nextBuffer empty_gl
    ∧ positionBuffer na = positionBuffer large_resource
    ∧ positionsArray na = [7; 8; 9; 1; 0; 0; 0; 1; 0].
Proof.
  assert (Hv : Vertices one_vertex_buffer ≠ []) by discriminate.
  assert (Hi : Indices one_vertex_buffer ≠ []) by discriminate.
  destruct (update_in_place_keeps_handles one_vertex_buffer large_resource empty_gl
              Hv Hi eq_refl) as (na & g' & E & Hn & (Hp & _) & Hpa & _);
    [simpl; lia | simpl; lia | simpl; lia | simpl; lia |].
  exists na, g'. split; [exact E|]. split; [exact Hn|]. split; [exact Hp|].
  rewrite Hpa. reflexivity.
Defined.

(** C5 as stated fails when the vertex list has shrunk: the update leaves a
    position array of nine entries, a create from scratch one of three. *)
Lemma update_after_shrink_differs_from_create :
  positions_after (updateRendererNativeArray one_vertex_buffer empty_gl) =
    Some [7; 8; 9; 1; 0; 0; 0; 1; 0]
  ∧ positions_after (createRendererNativeArray (setNativeArray None one_vertex_buffer) empty_gl) =
    Some [7; 8; 9]
  ∧ positions_after (updateRendererNativeArray one_vertex_buffer empty_gl) ≠
    positions_after (createRendererNativeArray (setNativeArray None one_vertex_buffer) empty_gl).
Proof.
  assert (H1 : positions_after (updateRendererNativeArray one_vertex_buffer empty_gl) =
               Some [7; 8; 9; 1; 0; 0; 0; 1; 0]) by (vm_compute; reflexivity).
  assert (H2 : positions_after
                 (createRendererNativeArray (setNativeArray None one_vertex_buffer) empty_gl) =
               Some [7; 8; 9]) by (vm_compute; reflexivity).
  split; [exact H1|]. split; [exact H2|]. rewrite H1, H2. discriminate.
Qed.

Lemma far_nodes_first_near_node_last :
  rendered_in RENDER_MODE_TRANSPARENT
    (drawAll no_culling scene_with_camera plain_renderer three_transparent).2 =
    [far_node_a; far_node_b; near_node].
Proof.
  destruct (transparent_nodes_farthest_first no_culling scene_with_camera plain_renderer
              three_transparent origin_camera eq_refl) as ((box & Hr & Hbox) & _).
  rewrite Hr, (Hbox eq_refl). reflexivity.
Defined.

Lemma queued_node_is_deleted_after_deadline :
  Parent (foldl flush_tick (addToDeletionQueue queued_node 500 1000 scene_with_child)
            [1200; 1500]) !! 1%nat = Some 0%nat
  ∧ Parent (flush_tick
              (foldl flush_tick (addToDeletionQueue queued_node 500 1000 scene_with_child)
                 [1200; 1500]) 1501) !! 1%nat = None.
Proof.
  destruct (deferred_deletion_after_deadline scene_with_child queued_node 500 1000
              [1200; 1500] 1501) as (H1 & H2 & _).
  - intros e He. inversion He.
  - repeat constructor; lia.
  - lia.
  - split; [exact H1 | exact H2].
Defined.

(** C7 as stated fails at the deadline itself: the flush of the tick whose
    time is [t0 + d] leaves the node attached, its selector in the collision
    world and its entry in the queue. *)
Lemma node_survives_tick_at_deadline :
  let s := flush_tick (addToDeletionQueue queued_node 500 1000 scene_with_child) (1000 + 500) in
  Parent s !! 1%nat = Some 0%nat
  ∧ CollisionWorld s = Some {[7%nat]}
  ∧ DeletionList s = [mkDeletionEntry queued_node 1500].
Proof. vm_compute. repeat split; reflexivity. Qed.

Lemma empty_buffer_draw :
  ∃ buf' g' na,
    drawMeshBuffer plain_renderer empty_buffer None = Some (buf', setGL (Some g') plain_renderer)
    ∧ RendererNativeArray buf' = Some na
    ∧ (nextBuffer empty_gl < nextBuffer g')%nat
    ∧ draw_calls (calls g') = [(0%nat, Some (indexBuffer na))].
Proof.
  destruct (empty_buffer_is_created_and_drawn plain_renderer empty_buffer empty_gl plain_program
              eq_refl eq_refl I eq_refl (or_introl eq_refl))
    as (buf' & g' & na & E & Hna & _ & _ & _ & _ & Hn & _ & Hd).
  exists buf', g', na. auto.
Defined.

(** C9 as stated fails on the empty buffer: the create allocates six buffers
    and attaches a resource, and the draw issues a draw call. *)
Lemma create_on_empty_buffer_is_no_noop :
  match drawMeshBuffer plain_renderer empty_buffer None with
  | Some (buf', r') =>
      is_Some (RendererNativeArray buf')
      ∧ buf' ≠ empty_buffer
      ∧ (nextBuffer <$> gl r') = Some 6%nat
      ∧ (draw_calls ∘ calls <$> gl r') = Some [(0%nat, Some 5%nat)]
  | None => False
  end.
Proof.
  vm_compute. split; [eexists; reflexivity|]. split; [discriminate|]. split; reflexivity.
Qed.

Lemma no_camera_redraws :
  (doAnimate (setRedrawMode 0 empty_scene) None (mkTick 5 false false)).1.1 = true.
Proof.
  exact (proj1 (proj2 (redraw_every_tick_without_camera (setRedrawMode 0 empty_scene) None
                         (mkTick 5 false false) eq_refl (or_introl eq_refl)))).
Defined.

(** C1 on a scene that does not change: under the mode set with the public
    constant the second tick is drawn as well. *)
Lemma unchanged_scene_is_redrawn :
  let s := setRedrawMode REDRAW_WHEN_CAM_MOVED scene_with_camera in
  let tick1 := draw3dScene no_culling s plain_renderer (mkTick 10 false false) [] in
  let tick2 := draw3dScene no_culling tick1.1.1 tick1.1.2 (mkTick 20 false false) [] in
  HasViewChangedSinceLastRedraw tick1.1.1 = false
  ∧ (doAnimate tick1.1.1 (Some tick1.1.2) (mkTick 20 false false)).1.1 = true
  ∧ tick2.2 = [mkRenderEvent RENDER_MODE_CAMERA (camNode origin_camera)].
Proof. vm_compute. repeat split; reflexivity. Qed.
End ConcreteRuns.

(** * Further properties *)

(** ** Powers of two *)

Section PowersOfTwo.

Lemma ToInt32_small (z : Z) : -2^31 ≤ z < 2^31 → ToInt32 z = z.
Proof. intros Hz. unfold ToInt32. rewrite Z.mod_small by lia. lia. Qed.

Lemma land_pow2_pred (k : Z) : 0 ≤ k → Z.land (2^k) (2^k - 1) = 0.
Proof.
  intros Hk. apply Z.bits_inj'. intros n Hn.
  rewrite Z.land_spec, Z.bits_0, Z.pow2_bits_eqb by lia.
  replace (2^k - 1) with (Z.ones k) by (rewrite Z.ones_equiv; lia).
  destruct (Z.eqb_spec k n) as [->|Hne]; [|reflexivity].
  rewrite Z.ones_spec_high by lia. reflexivity.
Qed.

Lemma land_pred_zero_pow2 (x : Z) : 0 < x → Z.land x (x - 1) = 0 → x = 2 ^ Z.log2 x.
Proof.
  intros Hx Hland.
  destruct (Z.log2_spec x Hx) as [Hlo Hhi].
  destruct (decide (x = 2 ^ Z.log2 x)) as [Heq|Hne]; [exact Heq|exfalso].
  assert (Hlog : Z.log2 (x - 1) = Z.log2 x).
  { apply Z.log2_unique; [apply Z.log2_nonneg|]. lia. }
  assert (Hpos : 0 < 2 ^ Z.log2 x) by (apply Z.pow_pos_nonneg; [lia|apply Z.log2_nonneg]).
  assert (Hbit : Z.testbit (Z.land x (x - 1)) (Z.log2 x) = true).
  { rewrite Z.land_spec, Z.bit_log2 by lia.
    rewrite <- Hlog. rewrite Z.bit_log2 by lia. reflexivity. }
  rewrite Hland, Z.bits_0 in Hbit. discriminate.
Qed.

Lemma isPowerOfTwo_iff (x : Z) :
  0 ≤ x < 2^31 →
  (isPowerOfTwo x = true ↔ x = 0 ∨ ∃ k, 0 ≤ k ∧ x = 2^k).
Proof.
  intros Hx. unfold isPowerOfTwo. rewrite bool_decide_eq_true.
  rewrite (ToInt32_small x) by lia. 
  destruct (decide (x = 0)) as [->|Hne].
  - rewrite Z.land_0_l. split; auto.
  - rewrite (ToInt32_small (x - 1)) by lia. split.
    + intros Hland. right. exists (Z.log2 x). split; [apply Z.log2_nonneg|].
      apply land_pred_zero_pow2; [lia|exact Hland].
    + intros [->|(k & Hk & ->)]; [contradiction|]. apply land_pow2_pred. exact Hk.
Qed.
Lemma smear_bits_steps (y : Z) :
  smear_bits 32 1 y =
    or_shifted 16 (or_shifted 8 (or_shifted 4 (or_shifted 2 (or_shifted 1 y)))).
Proof. reflexivity. Qed.

Lemma lor_below_pow2 (a b k : Z) :
  0 ≤ k → 0 ≤ a < 2^k → 0 ≤ b < 2^k → 0 ≤ Z.lor a b < 2^k.
Proof.
  intros Hk Ha Hb.
  assert (Hnn : 0 ≤ Z.lor a b) by (apply Z.lor_nonneg; lia).
  split; [exact Hnn|].
  destruct (decide (Z.lor a b = 0)) as [->|Hne]; [apply Z.pow_pos_nonneg; lia|].
  apply Z.log2_lt_pow2; [lia|]. rewrite Z.log2_lor by lia.
  destruct (decide (a = 0)) as [->|Ha0], (decide (b = 0)) as [->|Hb0].
  - simpl in Hne. contradiction.
  - rewrite Z.max_r by (simpl; apply Z.log2_nonneg). apply Z.log2_lt_pow2; lia.
  - rewrite Z.max_l by (simpl; apply Z.log2_nonneg). apply Z.log2_lt_pow2; lia.
  - apply Z.max_lub_lt; apply Z.log2_lt_pow2; lia.
Qed.

Lemma shiftr_below (a m : Z) : 0 ≤ a → 0 ≤ m → 0 ≤ Z.shiftr a m ≤ a.
Proof.
  intros Ha Hm. split; [apply Z.shiftr_nonneg; exact Ha|].
  rewrite Z.shiftr_div_pow2 by exact Hm.
  assert (0 < 2^m) by (apply Z.pow_pos_nonneg; lia).
  apply Z.div_le_upper_bound; [lia|nia].
Qed.

(** One round of the smearing: a value whose top [m] bits, from bit [L] down,
    are set has its top [2 m] bits set afterwards. *)
Lemma or_shifted_doubles (L m a : Z) :
  0 ≤ L ≤ 30 → 0 < m → Z.land m 31 = m →
  0 ≤ a < 2^(L+1) →
  (∀ n, 0 ≤ n ≤ L → L - n < m → Z.testbit a n = true) →
  0 ≤ or_shifted m a < 2^(L+1)
  ∧ ∀ n, 0 ≤ n ≤ L → L - n < 2 * m → Z.testbit (or_shifted m a) n = true.
Proof.
  intros HL Hm Hland Ha Hbits. unfold or_shifted. rewrite Hland.
  assert (H31 : 2^(L+1) ≤ 2^31) by (apply Z.pow_le_mono_r; lia).
  rewrite (ToInt32_small a) by lia.
  destruct (shiftr_below a m) as [Hs0 Hs1]; [lia|lia|].
  split; [apply lor_below_pow2; lia|].
  intros n Hn Hdist. rewrite Z.lor_spec, Z.shiftr_spec by lia.
  destruct (decide (L - n < m)) as [Hnear|Hfar].
  - rewrite Hbits by lia. reflexivity.
  - rewrite (Hbits (n + m)) by lia. apply orb_true_r.
Qed.

(** The loop of [nextHighestPowerOfTwo] on a positive value below 2^31 sets
    every bit below the highest set bit. *)
Lemma smear_bits_ones (y : Z) :
  0 < y < 2^31 → smear_bits 32 1 y = 2 ^ (Z.log2 y + 1) - 1.
Proof.
  intros Hy. rewrite smear_bits_steps.
  destruct (Z.log2_spec y) as [Hlo Hhi]; [lia|].
  set (L := Z.log2 y) in *.
  assert (HL : 0 ≤ L ≤ 30).
  { split; [apply Z.log2_nonneg|].
    assert (L < 31) by (apply Z.log2_lt_pow2; lia). lia. }
  assert (H0 : ∀ n, 0 ≤ n ≤ L → L - n < 1 → Z.testbit y n = true).
  { intros n Hn Hd. replace n with L by lia. apply Z.bit_log2. lia. }
  replace (Z.succ L) with (L + 1) in Hhi by lia.
  destruct (or_shifted_doubles L 1 y HL ltac:(lia) eq_refl ltac:(lia) H0) as [B1 H1].
  destruct (or_shifted_doubles L 2 _ HL ltac:(lia) eq_refl B1 H1) as [B2 H2].
  destruct (or_shifted_doubles L 4 _ HL ltac:(lia) eq_refl B2 H2) as [B4 H4].
  destruct (or_shifted_doubles L 8 _ HL ltac:(lia) eq_refl B4 H4) as [B8 H8].
  destruct (or_shifted_doubles L 16 _ HL ltac:(lia) eq_refl B8 H8) as [B16 H16].
  set (r := or_shifted 16 _) in *.
  replace (2 ^ (L + 1) - 1) with (Z.ones (L + 1)) by (rewrite Z.ones_equiv; lia).
  apply Z.bits_inj'. intros n Hn.
  destruct (decide (n ≤ L)) as [Hle|Hgt].
  - rewrite H16, Z.ones_spec_low by lia. reflexivity.
  - rewrite Z.ones_spec_high by lia.
    destruct (decide (r = 0)) as [->|Hr]; [apply Z.bits_0|].
    apply Z.bits_above_log2; [lia|].
    assert (Z.log2 r < L + 1) by (apply Z.log2_lt_pow2; lia). lia.
Qed.

Lemma nextHighestPowerOfTwo_bounds (x : Z) :
  1 ≤ x ≤ 2^31 →
  ∃ k, 0 ≤ k ∧ nextHighestPowerOfTwo x = 2^k ∧ x ≤ 2^k ∧ 2^k < 2 * x.
Proof.
  intros Hx. unfold nextHighestPowerOfTwo.
  destruct (decide (x = 1)) as [->|Hne].
  - exists 0. split; [lia|]. split; [reflexivity|]. simpl. lia.
  - rewrite smear_bits_ones by lia.
    destruct (Z.log2_spec (x - 1)) as [Hlo Hhi]; [lia|].
    replace (Z.succ (Z.log2 (x - 1))) with (Z.log2 (x - 1) + 1) in Hhi by lia.
    exists (Z.log2 (x - 1) + 1).
    assert (Hnn : 0 ≤ Z.log2 (x - 1)) by apply Z.log2_nonneg.
    split; [lia|]. split; [lia|]. split; [lia|].
    rewrite Z.pow_add_r by lia. lia.
Qed.

Lemma nextHighestPowerOfTwo_zero : nextHighestPowerOfTwo 0 = 0.
Proof. reflexivity. Qed.

(** A size that is a power of two is its own next highest power of two. *)
Lemma nextHighestPowerOfTwo_fixed (k : Z) :
  0 ≤ k ≤ 31 → nextHighestPowerOfTwo (2^k) = 2^k.
Proof.
  intros Hk.
  assert (Hpos : 0 < 2^k) by (apply Z.pow_pos_nonneg; lia).
  assert (Hle : 2^k ≤ 2^31) by (apply Z.pow_le_mono_r; lia).
  destruct (nextHighestPowerOfTwo_bounds (2^k)) as (j & Hj & -> & Hlo & Hhi); [lia|].
  destruct (Z.lt_trichotomy j k) as [Hlt|[->|Hgt]]; [|reflexivity|].
  - assert (2^j < 2^k) by (apply Z.pow_lt_mono_r; lia). lia.
  - assert (2^(k+1) ≤ 2^j) by (apply Z.pow_le_mono_r; lia).
    rewrite Z.pow_add_r in * by lia. lia.
Qed.
(** X1: on a size below 2^31, [isPowerOfTwo] answers true exactly for the
    powers of two and for zero. *)
Theorem isPowerOfTwo_spec (x : Z) :
  0 ≤ x < 2^31 →
  (isPowerOfTwo x = true ↔ x = 0 ∨ ∃ k, 0 ≤ k ∧ x = 2^k).
Proof. exact (isPowerOfTwo_iff x). Qed.

(** X2: [nextHighestPowerOfTwo] on a size from 1 to 2^31 is the least power of
    two that is not below the size, so a power of two is mapped to itself. *)
Theorem nextHighestPowerOfTwo_spec (x : Z) :
  1 ≤ x ≤ 2^31 →
  (∃ k, 0 ≤ k ∧ nextHighestPowerOfTwo x = 2^k ∧ x ≤ 2^k ∧ 2^k < 2 * x)
  ∧ (∀ k, 0 ≤ k → x = 2^k → nextHighestPowerOfTwo x = x).
Proof.
  intros Hx. split; [exact (nextHighestPowerOfTwo_bounds x Hx)|].
  intros k Hk ->. apply nextHighestPowerOfTwo_fixed. split; [exact Hk|].
  destruct (decide (k ≤ 31)) as [Hle|Hgt]; [exact Hle|exfalso].
  assert (2^32 ≤ 2^k) by (apply Z.pow_le_mono_r; lia). lia.
Qed.

(** X3: the sizes recorded for a texture made from a canvas whose sizes lie
    between 1 and 2^30: the cached sizes are powers of two, not below the
    original sizes and below their double; they are the original sizes when
    both of these are powers of two already. *)
Theorem texture_sizes_are_powers_of_two (canvas : Canvas) :
  let ow := truthy_or (videoWidth canvas) (width canvas) in
  let oh := truthy_or (videoHeight canvas) (height canvas) in
  let t := textureSizesFrom2DCanvas canvas in
  1 ≤ ow ≤ 2^30 → 1 ≤ oh ≤ 2^30 →
  OriginalWidth t = ow ∧ OriginalHeight t = oh
  ∧ (∃ k, 0 ≤ k ∧ CachedWidth t = 2^k) ∧ (∃ k, 0 ≤ k ∧ CachedHeight t = 2^k)
  ∧ ow ≤ CachedWidth t < 2 * ow ∧ oh ≤ CachedHeight t < 2 * oh
  ∧ isPowerOfTwo (CachedWidth t) = true ∧ isPowerOfTwo (CachedHeight t) = true
  ∧ (isPowerOfTwo ow = true → isPowerOfTwo oh = true →
     CachedWidth t = ow ∧ CachedHeight t = oh).
Proof.
  intros ow oh t How Hoh. subst t. unfold textureSizesFrom2DCanvas. fold ow oh.
  assert (Hcase : ∀ W H : Z,
            (∃ k, 0 ≤ k ∧ W = 2^k) → (∃ k, 0 ≤ k ∧ H = 2^k) →
            ow ≤ W < 2 * ow → oh ≤ H < 2 * oh →
            (isPowerOfTwo ow = true → isPowerOfTwo oh = true → W = ow ∧ H = oh) →
            let t := mkTextureSizes W H ow oh in
            OriginalWidth t = ow ∧ OriginalHeight t = oh
            ∧ (∃ k, 0 ≤ k ∧ CachedWidth t = 2^k) ∧ (∃ k, 0 ≤ k ∧ CachedHeight t = 2^k)
            ∧ ow ≤ CachedWidth t < 2 * ow ∧ oh ≤ CachedHeight t < 2 * oh
            ∧ isPowerOfTwo (CachedWidth t) = true ∧ isPowerOfTwo (CachedHeight t) = true
            ∧ (isPowerOfTwo ow = true → isPowerOfTwo oh = true →
               CachedWidth t = ow ∧ CachedHeight t = oh)).
  { intros W H HW HH BW BH Hsame. simpl.
    assert (2 * 2^30 = 2^31) by reflexivity.
    repeat split; try lia; try assumption; try (apply Hsame; assumption).
    - apply isPowerOfTwo_iff; [lia|]. right. exact HW.
    - apply isPowerOfTwo_iff; [lia|]. right. exact HH. }
  assert (H31 : 2^30 < 2^31) by reflexivity.
  destruct (isPowerOfTwo ow) eqn:Ew, (isPowerOfTwo oh) eqn:Eh; cbn [negb orb].
  - apply isPowerOfTwo_iff in Ew as [?|Ew]; [lia| |lia].
    apply isPowerOfTwo_iff in Eh as [?|Eh]; [lia| |lia].
    apply Hcase; auto; lia.
  - destruct (nextHighestPowerOfTwo_bounds ow) as (k & Hk & Ek & B1 & B2); [lia|].
    destruct (nextHighestPowerOfTwo_bounds oh) as (j & Hj & Ej & C1 & C2); [lia|].
    apply Hcase; eauto; try lia; discriminate.
  - destruct (nextHighestPowerOfTwo_bounds ow) as (k & Hk & Ek & B1 & B2); [lia|].
    destruct (nextHighestPowerOfTwo_bounds oh) as (j & Hj & Ej & C1 & C2); [lia|].
    apply Hcase; eauto; try lia; discriminate.
  - destruct (nextHighestPowerOfTwo_bounds ow) as (k & Hk & Ek & B1 & B2); [lia|].
    destruct (nextHighestPowerOfTwo_bounds oh) as (j & Hj & Ej & C1 & C2); [lia|].
    apply Hcase; eauto; try lia; discriminate.
Qed.
End PowersOfTwo.

(** ** More on mesh buffers *)

Section MeshBufferErrors.
Context {num M : Type} {math : CL3DMath num M}.

Lemma bind_fails {A B} (m : GLM num M A) (f : A → GLM num M B) (g : GLState num M) :
  (∀ a g', f a g' = None) → (m ≫= f) g = None.
Proof.
  intros Hf. unfold mbind, GLM_bind. destruct (m g) as [[a g']|]; [apply Hf|reflexivity].
Qed.

Lemma drawWebGlStaticGeometry_without_program (r : Renderer num M)
    (b : option (NativeArray num)) (cnt : option nat) (g : GLState num M) :
  currentGLProgram r = None → drawWebGlStaticGeometry r b cnt g = None.
Proof.
  intros Hp. unfold drawWebGlStaticGeometry. rewrite Hp.
  destruct b as [b|]; [|reflexivity].
  repeat (apply bind_fails; intros). reflexivity.
Qed.

Lemma bind_of_failure {A B} (m : GLM num M A) (f : A → GLM num M B) (g : GLState num M) :
  m g = None → (m ≫= f) g = None.
Proof. intros Hm. unfold mbind, GLM_bind. rewrite Hm. reflexivity. Qed.

(** X4: [drawMeshBuffer] on a renderer with a context and no program bound
    throws, whatever the buffer: the draw reads the uniform locations of a
    program that is not there. *)
Theorem drawMeshBuffer_without_program_throws (r : Renderer num M) (buf : MeshBuffer num)
    (cnt : option nat) (g : GLState num M) :
  gl r = Some g → currentGLProgram r = None → drawMeshBuffer r buf cnt = None.
Proof.
  intros Hgl Hp. unfold drawMeshBuffer. rewrite Hgl. cbn zeta.
  rewrite bind_fails; [reflexivity|].
  intros buf' g'. apply bind_of_failure.
  apply drawWebGlStaticGeometry_without_program. exact Hp.
Qed.
End MeshBufferErrors.


Section MeshBufferDraws.
Context {num M : Type} {math : CL3DMath num M}.

Lemma fill_tangents_fails (n i : nat) (ts bs : list (Vect3d num)) (ta ba : list num) :
  (i ≤ length ts)%nat → (i ≤ length bs)%nat →
  (length ts < i + n ∨ length bs < i + n)%nat →
  fill_tangents n i ts bs ta ba = None.
Proof.
  revert i ta ba. induction n as [|n IH]; intros i ta ba Hts Hbs Hshort; [lia|].
  cbn [fill_tangents].
  destruct (ts !! i) as [t|] eqn:Ht; [|reflexivity].
  destruct (bs !! i) as [b|] eqn:Hb; [|reflexivity].
  apply lookup_lt_Some in Ht, Hb. apply IH; lia.
Qed.

Lemma create_short_tangents (buf : MeshBuffer num) (g : GLState num M) :
  RendererNativeArray buf = None → ¬ tangents_ok buf →
  createRendererNativeArray buf g = None.
Proof.
  intros Hnone Hshort. unfold createRendererNativeArray, tangents_ok in *. rewrite Hnone.
  destruct (Tangents buf) as [ts|]; [|tauto].
  destruct (Binormals buf) as [bs|]; [|tauto].
  rewrite fill_tangents_fails by lia. reflexivity.
Qed.

(** X5: the first draw of a mesh buffer that has both a tangent and a
    binormal list, one of them shorter than the vertex list, throws on every
    renderer with a context: the tangent loop of the create reads an entry
    that is not there. *)
Theorem first_draw_throws_when_tangents_short (r : Renderer num M) (buf : MeshBuffer num)
    (cnt : option nat) (g : GLState num M) (ts bs : list (Vect3d num)) :
  gl r = Some g → RendererNativeArray buf = None →
  Tangents buf = Some ts → Binormals buf = Some bs →
  (length ts < length (Vertices buf) ∨ length bs < length (Vertices buf))%nat →
  drawMeshBuffer r buf cnt = None.
Proof.
  intros Hgl Hnone Ht Hb Hshort.
  unfold drawMeshBuffer. rewrite Hgl, Hnone. cbn zeta.
  rewrite bind_of_failure; [reflexivity|].
  apply create_short_tangents; [exact Hnone|].
  unfold tangents_ok. rewrite Ht, Hb. lia.
Qed.





End MeshBufferDraws.


Section MeshBufferUpdates.
Context {num M : Type} {math : CL3DMath num M}.

Lemma positions_overwrite (vs : list (Vertex3D num)) (a : list num) :
  (3 * length vs ≤ length a)%nat →
  for_vertices write_position 0 vs a =
    for_vertices write_position 0 vs (new_Float32Array (length vs * 3))
    ++ drop (3 * length vs) a.
Proof.
  intros Hlen.
  apply (for_vertices_overwrite write_position 3 write_position_length
           write_position_take write_position_drop write_position_agree); [lia|].
  rewrite new_Float32Array_length. lia.
Qed.

Lemma colors_overwrite (vs : list (Vertex3D num)) (a : list num) :
  (4 * length vs ≤ length a)%nat →
  for_vertices write_color 0 vs a =
    for_vertices write_color 0 vs (new_Float32Array (length vs * 4))
    ++ drop (4 * length vs) a.
Proof.
  intros Hlen.
  apply (for_vertices_overwrite write_color 4 write_color_length
           write_color_take write_color_drop write_color_agree); [lia|].
  rewrite new_Float32Array_length. lia.
Qed.

Lemma positions_idempotent (vs : list (Vertex3D num)) (a : list num) :
  (3 * length vs ≤ length a)%nat →
  for_vertices write_position 0 vs (for_vertices write_position 0 vs a) =
    for_vertices write_position 0 vs a.
Proof.
  intros Hlen.
  rewrite (positions_overwrite vs (for_vertices write_position 0 vs a))
    by (rewrite (for_vertices_length write_position write_position_length); exact Hlen).
  rewrite (for_vertices_drop write_position 3 write_position_drop) by (simpl; lia).
  symmetry. apply positions_overwrite. exact Hlen.
Qed.

Lemma colors_idempotent (vs : list (Vertex3D num)) (a : list num) :
  (4 * length vs ≤ length a)%nat →
  for_vertices write_color 0 vs (for_vertices write_color 0 vs a) =
    for_vertices write_color 0 vs a.
Proof.
  intros Hlen.
  rewrite (colors_overwrite vs (for_vertices write_color 0 vs a))
    by (rewrite (for_vertices_length write_color write_color_length); exact Hlen).
  rewrite (for_vertices_drop write_color 4 write_color_drop) by (simpl; lia).
  symmetry. apply colors_overwrite. exact Hlen.
Qed.

Lemma sub_data_same_length (l o : list num) :
  length l = length o → sub_data (Float32Array l) (Float32Array o) = Some (Float32Array l).
Proof.
  intros Hlen. cbn [sub_data]. rewrite decide_True by lia.
  rewrite drop_ge by lia. rewrite app_nil_r. reflexivity.
Qed.

(** X8: the position update of a buffer with a device resource rewrites the
    position array and uploads it to the position buffer, and nothing else:
    no buffer object is allocated, every handle, the colour array and both
    counts of the resource stay, every other buffer object keeps its data, and
    the position array keeps its length, so that vertices added since the
    resource was made are not stored. *)
Theorem position_update_frame (buf : MeshBuffer num) (old : NativeArray num)
    (g : GLState num M) (u : BufferUsage) :
  RendererNativeArray buf = Some old →
  buffers g !! positionBuffer old = Some (Float32Array (positionsArray old), u) →
  ∃ na g',
    updatePositionsInRendererNativeArray buf g = Some (setNativeArray (Some na) buf, g')
    ∧ handles na = handles old
    ∧ colorArray na = colorArray old
    ∧ indexCount na = indexCount old ∧ vertexCount na = vertexCount old
    ∧ length (positionsArray na) = length (positionsArray old)
    ∧ ((3 * length (Vertices buf) ≤ length (positionsArray old))%nat →
       positionsArray na =
         for_vertices write_position 0 (Vertices buf)
           (new_Float32Array (length (Vertices buf) * 3))
         ++ drop (3 * length (Vertices buf)) (positionsArray old))
    ∧ nextBuffer g' = nextBuffer g
    ∧ buffers g' !! positionBuffer old = Some (Float32Array (positionsArray na), u)
    ∧ (∀ h, h ≠ positionBuffer old → buffers g' !! h = buffers g !! h)
    ∧ draw_calls (calls g') = draw_calls (calls g).
Proof.
  intros Hold Hstore. unfold updatePositionsInRendererNativeArray. rewrite Hold. cbn zeta.
  destruct g as [nb bufs ba be cs]. cbn [buffers] in Hstore. gl_compute.
  eexists _, _. split; [reflexivity|].
  cbn [handles positionBuffer texcoordsBuffer texcoordsBuffer2 normalBuffer colorBuffer
       indexBuffer tangentBuffer binormalBuffer colorArray positionsArray indexCount
       vertexCount nextBuffer buffers calls].
  assert (Hlen : length (for_vertices write_position 0 (Vertices buf) (positionsArray old))
                 = length (positionsArray old))
    by apply (for_vertices_length write_position write_position_length).
  unfold sub_store. cbn [bound boundArray buffers]. rewrite Hstore.
  rewrite sub_data_same_length by exact Hlen.
  repeat split.
  - exact Hlen.
  - apply positions_overwrite.
  - apply lookup_insert_eq.
  - intros h Hh. apply lookup_insert_ne. congruence.
  - rewrite !draw_calls_app. cbn [draw_calls omap app]. rewrite !app_nil_r. reflexivity.
Qed.

(** The buffer store after an update in place on a store that holds the
    resource's arrays. *)
Lemma update_in_place_store (buf : MeshBuffer num) (old : NativeArray num)
    (g : GLState num M) (up uc : BufferUsage) :
  Vertices buf ≠ [] → Indices buf ≠ [] →
  RendererNativeArray buf = Some old →
  (length (Vertices buf) ≤ vertexCount old)%nat →
  (length (Indices buf) ≤ indexCount old)%nat →
  positionBuffer old ≠ colorBuffer old →
  buffers g !! positionBuffer old = Some (Float32Array (positionsArray old), up) →
  buffers g !! colorBuffer old = Some (Float32Array (colorArray old), uc) →
  ∃ g',
    updateRendererNativeArray buf g =
      Some (setNativeArray
              (Some (mkNativeArray (positionBuffer old)
                       (for_vertices write_position 0 (Vertices buf) (positionsArray old))
                       (texcoordsBuffer old) (texcoordsBuffer2 old) (normalBuffer old)
                       (tangentBuffer old) (binormalBuffer old) (colorBuffer old)
                       (for_vertices write_color 0 (Vertices buf) (colorArray old))
                       (indexBuffer old) (length (Indices buf)) (length (Vertices buf))))
              buf, g')
    ∧ nextBuffer g' = nextBuffer g
    ∧ buffers g' =
        <[colorBuffer old :=
            (Float32Array (for_vertices write_color 0 (Vertices buf) (colorArray old)), uc)]>
          (<[positionBuffer old :=
               (Float32Array (for_vertices write_position 0 (Vertices buf) (positionsArray old)),
                up)]> (buffers g)).
Proof.
  intros Hv Hi Hold Hvc Hic Hne Hpb Hcb. unfold updateRendererNativeArray.
  rewrite decide_False by (apply nonempty_guard; assumption).
  rewrite Hold, decide_False by lia. rewrite decide_False by lia.
  rewrite update_loop_positions, update_loop_colors. cbn [fst snd].
  destruct g as [nb bufs ba be cs]. cbn [buffers] in Hpb, Hcb. gl_compute.
  eexists. split; [reflexivity|]. cbn [nextBuffer buffers].
  split; [reflexivity|].
  unfold sub_store. cbn [bound boundArray buffers]. rewrite Hpb.
  rewrite sub_data_same_length
    by apply (for_vertices_length write_position write_position_length).
  rewrite lookup_insert_ne by exact Hne. rewrite Hcb.
  rewrite sub_data_same_length
    by apply (for_vertices_length write_color write_color_length).
  reflexivity.
Qed.

(** X9: an update in place brings the device copies of the position and the
    colour array up to date and leaves every other buffer object alone; the
    index buffer in particular keeps its data, whatever the buffer's index
    list holds now, while the resource's index count becomes the length of
    that list. *)
Theorem update_in_place_uploads (buf : MeshBuffer num) (old : NativeArray num)
    (g : GLState num M) (up uc : BufferUsage) :
  Vertices buf ≠ [] → Indices buf ≠ [] →
  RendererNativeArray buf = Some old →
  (length (Vertices buf) ≤ vertexCount old)%nat →
  (length (Indices buf) ≤ indexCount old)%nat →
  positionBuffer old ≠ colorBuffer old →
  buffers g !! positionBuffer old = Some (Float32Array (positionsArray old), up) →
  buffers g !! colorBuffer old = Some (Float32Array (colorArray old), uc) →
  ∃ na g',
    updateRendererNativeArray buf g = Some (setNativeArray (Some na) buf, g')
    ∧ buffers g' !! positionBuffer na = Some (Float32Array (positionsArray na), up)
    ∧ buffers g' !! colorBuffer na = Some (Float32Array (colorArray na), uc)
    ∧ (∀ h, h ≠ positionBuffer old → h ≠ colorBuffer old → buffers g' !! h = buffers g !! h)
    ∧ indexBuffer na = indexBuffer old
    ∧ indexCount na = length (Indices buf).
Proof.
  intros Hv Hi Hold Hvc Hic Hne Hpb Hcb.
  destruct (update_in_place_store buf old g up uc Hv Hi Hold Hvc Hic Hne Hpb Hcb)
    as (g' & E & _ & Hstore).
  eexists _, g'. split; [exact E|].
  cbn [positionBuffer colorBuffer positionsArray colorArray indexBuffer indexCount].
  rewrite Hstore. repeat split.
  - rewrite lookup_insert_ne by congruence. apply lookup_insert_eq.
  - apply lookup_insert_eq.
  - intros h Hhp Hhc. rewrite !lookup_insert_ne by congruence. reflexivity.
Qed.

(** X10: updating in place twice with no change to the buffer in between is
    updating once: the second update leaves the mesh buffer, its resource and
    the buffer store as the first left them. *)
Theorem update_in_place_idempotent (buf : MeshBuffer num) (old : NativeArray num)
    (g : GLState num M) (up uc : BufferUsage) :
  Vertices buf ≠ [] → Indices buf ≠ [] →
  RendererNativeArray buf = Some old →
  (length (Vertices buf) ≤ vertexCount old)%nat →
  (length (Indices buf) ≤ indexCount old)%nat →
  (3 * vertexCount old ≤ length (positionsArray old))%nat →
  (4 * vertexCount old ≤ length (colorArray old))%nat →
  positionBuffer old ≠ colorBuffer old →
  buffers g !! positionBuffer old = Some (Float32Array (positionsArray old), up) →
  buffers g !! colorBuffer old = Some (Float32Array (colorArray old), uc) →
  ∃ buf1 g1 g2,
    updateRendererNativeArray buf g = Some (buf1, g1)
    ∧ updateRendererNativeArray buf1 g1 = Some (buf1, g2)
    ∧ nextBuffer g2 = nextBuffer g1 ∧ buffers g2 = buffers g1.
Proof.
  intros Hv Hi Hold Hvc Hic Hpl Hcl Hne Hpb Hcb.
  destruct (update_in_place_store buf old g up uc Hv Hi Hold Hvc Hic Hne Hpb Hcb)
    as (g1 & E1 & Hn1 & Hs1).
  set (P := for_vertices write_position 0 (Vertices buf) (positionsArray old)) in *.
  set (C := for_vertices write_color 0 (Vertices buf) (colorArray old)) in *.
  set (na1 := mkNativeArray (positionBuffer old) P (texcoordsBuffer old) (texcoordsBuffer2 old)
                (normalBuffer old) (tangentBuffer old) (binormalBuffer old) (colorBuffer old)
                C (indexBuffer old) (length (Indices buf)) (length (Vertices buf))) in *.
  destruct (update_in_place_store (setNativeArray (Some na1) buf) na1 g1 up uc)
    as (g2 & E2 & Hn2 & Hs2); try assumption; try reflexivity.
  - cbn. rewrite Hs1. rewrite lookup_insert_ne by congruence. apply lookup_insert_eq.
  - cbn. rewrite Hs1. apply lookup_insert_eq.
  - exists (setNativeArray (Some na1) buf), g1, g2. split; [exact E1|].
    cbn [setNativeArray Vertices Indices positionsArray colorArray positionBuffer
         texcoordsBuffer texcoordsBuffer2 normalBuffer tangentBuffer binormalBuffer
         colorBuffer indexBuffer na1] in E2, Hs2.
    subst P C. rewrite positions_idempotent, colors_idempotent in E2, Hs2 by lia.
    split; [exact E2|]. split; [exact Hn2|].
    rewrite Hs2, Hs1. rewrite (insert_insert_ne _ (colorBuffer old) (positionBuffer old))
      by congruence.
    rewrite insert_insert_eq. rewrite (insert_insert_ne _ (positionBuffer old) (colorBuffer old))
      by congruence.
    rewrite insert_insert_eq. reflexivity.
Qed.
End MeshBufferUpdates.


(** ** More on the frame *)

Section FrameResult.
Context {num M : Type} {math : CL3DMath num M}.
Variable intersectsCullingBox : M → Vect3d Z → SceneNode num → bool.

Lemma registerNodeForRendering_frame (sc : Scene num M) (n : SceneNode num) (mode : option Z) :
  let sc' := registerNodeForRendering sc n mode in
  ForceRedrawThisFrame sc' = ForceRedrawThisFrame sc ∧ RedrawMode sc' = RedrawMode sc
  ∧ LastViewProj sc' = LastViewProj sc ∧ DeletionList sc' = DeletionList sc.
Proof.
  unfold registerNodeForRendering. cbn zeta. repeat case_decide; auto.
Qed.

Lemma OnRegisterSceneNode_frame (regs : list (SceneNode num * option Z)) (sc : Scene num M) :
  let sc' := OnRegisterSceneNode regs sc in
  ForceRedrawThisFrame sc' = ForceRedrawThisFrame sc ∧ RedrawMode sc' = RedrawMode sc
  ∧ LastViewProj sc' = LastViewProj sc ∧ DeletionList sc' = DeletionList sc.
Proof.
  cbn zeta. unfold OnRegisterSceneNode. revert sc.
  induction regs as [|r regs IH]; intros sc; [auto|].
  cbn [foldl]. destruct (IH (registerNodeForRendering sc r.1 r.2)) as (E1 & E2 & E3 & E4).
  destruct (registerNodeForRendering_frame sc r.1 r.2) as (F1 & F2 & F3 & F4).
  rewrite E1, E2, E3, E4. auto.
Qed.

Lemma foldl_render_light_flag (l : list (SceneNode num)) (r : Renderer num M) :
  textureWasLoadedFlag (foldl render_light r l) = textureWasLoadedFlag r.
Proof.
  revert r. induction l as [|n l IH]; intros r; [reflexivity|].
  cbn [foldl]. rewrite IH. unfold render_light.
  destruct (LightData n), (IsDirectional n); reflexivity.
Qed.

Lemma drawAll_result (s : Scene num M) (r : Renderer num M)
    (regs : list (SceneNode num * option Z)) :
  ∃ box,
    (drawAll intersectsCullingBox s r regs).2 =
      (mkRenderEvent RENDER_MODE_CAMERA <$> option_list (camNode <$> ActiveCamera s))
      ++ (mkRenderEvent RENDER_MODE_SKYBOX <$>
            option_list (from_option Some (SkyBoxSceneNode s)
                           (last (registered RENDER_MODE_SKYBOX regs))))
      ++ (mkRenderEvent RENDER_MODE_LIGHTS <$>
            pass_order s compare_lights (registered RENDER_MODE_LIGHTS regs))
      ++ (mkRenderEvent RENDER_MODE_DEFAULT <$>
            culled box (registered RENDER_MODE_DEFAULT regs))
      ++ (mkRenderEvent RENDER_MODE_TRANSPARENT <$>
            culled box (pass_order s compare_transparent
                          (registered RENDER_MODE_TRANSPARENT regs)))
      ++ (mkRenderEvent RENDER_MODE_2DOVERLAY <$> registered RENDER_MODE_2DOVERLAY regs)
    ∧ (ActiveCamera s = None ∨ UseCulling s = false → box = None)
    ∧ NodeCountRenderedLastTime (drawAll intersectsCullingBox s r regs).1.1 =
        (length (registered RENDER_MODE_LIGHTS regs)
         + length (culled box (registered RENDER_MODE_DEFAULT regs))
         + length (culled box (pass_order s compare_transparent
                                 (registered RENDER_MODE_TRANSPARENT regs)))
         + length (registered RENDER_MODE_2DOVERLAY regs))%nat.
Proof.
  unfold drawAll, pass_order.
  destruct (drawAll_registration s regs) as (H1 & H2 & H3 & H4 & H5 & H6 & H7).
  set (s1 := OnRegisterSceneNode regs _) in *.
  cbn zeta. cbn [fst snd]. rewrite H1, H2, H3, H4, H5, H6, H7.
  destruct (ActiveCamera s) as [cam|]; cbn [fmap option_fmap option_map compose option_list];
    rewrite ?sort_when_nonempty.
  - match goal with |- context [culled ?b (registered RENDER_MODE_DEFAULT regs)] =>
      exists b end.
    split; [|split].
    + destruct (from_option Some (SkyBoxSceneNode s) _); reflexivity.
    + intros [Hc|Hc]; [discriminate Hc | rewrite Hc; reflexivity].
    + unfold StoreViewMatrixForRedrawCheck. cbn [ActiveCamera NodeCountRenderedLastTime].
      rewrite (Permutation_length (Array_sort_perm (compare_lights _)
                                    (registered RENDER_MODE_LIGHTS regs))).
      reflexivity.
  - exists None. split; [|split].
    + destruct (from_option Some (SkyBoxSceneNode s) _); reflexivity.
    + reflexivity.
    + reflexivity.
Qed.
End FrameResult.


(** Settles every comparison between render mode constants in the goal. *)
Ltac settle_modes :=
  repeat match goal with
  | |- context [decide (?a = ?b)] =>
      first [ rewrite (decide_True (P := a = b)) by reflexivity
            | rewrite (decide_False (P := a = b)) by discriminate ]
  end.

Section FrameTraces.
Context {num M : Type} {math : CL3DMath num M}.
Variable intersectsCullingBox : M → Vect3d Z → SceneNode num → bool.

Lemma rendered_in_passes (mode : Z) (c k l d t o : list (SceneNode num)) :
  rendered_in mode
    ((mkRenderEvent RENDER_MODE_CAMERA <$> c) ++ (mkRenderEvent RENDER_MODE_SKYBOX <$> k)
     ++ (mkRenderEvent RENDER_MODE_LIGHTS <$> l) ++ (mkRenderEvent RENDER_MODE_DEFAULT <$> d)
     ++ (mkRenderEvent RENDER_MODE_TRANSPARENT <$> t)
     ++ (mkRenderEvent RENDER_MODE_2DOVERLAY <$> o)) =
  (if decide (RENDER_MODE_CAMERA = mode) then c else [])
  ++ (if decide (RENDER_MODE_SKYBOX = mode) then k else [])
  ++ (if decide (RENDER_MODE_LIGHTS = mode) then l else [])
  ++ (if decide (RENDER_MODE_DEFAULT = mode) then d else [])
  ++ (if decide (RENDER_MODE_TRANSPARENT = mode) then t else [])
  ++ (if decide (RENDER_MODE_2DOVERLAY = mode) then o else []).
Proof. rewrite !rendered_in_app, !rendered_in_fmap. reflexivity. Qed.

Lemma culled_sublist (box : option (SceneNode num → bool)) (l : list (SceneNode num)) :
  culled box l `sublist_of` l.
Proof. destruct box as [b|]; [apply sublist_filter | reflexivity]. Qed.

(** X11: [drawAll] renders in passes: the trace of a frame is the camera,
    then the skybox, then the lights, the default nodes, the transparent nodes
    and the 2D overlays, each group under its own render mode; so every
    default node is rendered before every transparent node, and the overlays
    come last. *)
Theorem drawAll_renders_in_passes (s : Scene num M) (r : Renderer num M)
    (regs : list (SceneNode num * option Z)) :
  let trace := (drawAll intersectsCullingBox s r regs).2 in
  trace =
    (mkRenderEvent RENDER_MODE_CAMERA <$> rendered_in RENDER_MODE_CAMERA trace)
    ++ (mkRenderEvent RENDER_MODE_SKYBOX <$> rendered_in RENDER_MODE_SKYBOX trace)
    ++ (mkRenderEvent RENDER_MODE_LIGHTS <$> rendered_in RENDER_MODE_LIGHTS trace)
    ++ (mkRenderEvent RENDER_MODE_DEFAULT <$> rendered_in RENDER_MODE_DEFAULT trace)
    ++ (mkRenderEvent RENDER_MODE_TRANSPARENT <$> rendered_in RENDER_MODE_TRANSPARENT trace)
    ++ (mkRenderEvent RENDER_MODE_2DOVERLAY <$> rendered_in RENDER_MODE_2DOVERLAY trace).
Proof.
  cbn zeta. destruct (drawAll_result intersectsCullingBox s r regs) as (box & -> & _).
  rewrite !rendered_in_passes. settle_modes. cbn [app]. rewrite !app_nil_r. reflexivity.
Qed.

(** X12: culling touches the default and the transparent pass only, and only
    with a camera and [UseCulling] set.  The overlays registered are all
    rendered, in registration order; the lights registered are all rendered;
    the default nodes rendered are registered default nodes, in registration
    order; and without culling every registered default node is rendered, in
    registration order, and every registered transparent node. *)
Theorem drawAll_culls_default_and_transparent_only (s : Scene num M) (r : Renderer num M)
    (regs : list (SceneNode num * option Z)) :
  let trace := (drawAll intersectsCullingBox s r regs).2 in
  rendered_in RENDER_MODE_2DOVERLAY trace = registered RENDER_MODE_2DOVERLAY regs
  ∧ rendered_in RENDER_MODE_LIGHTS trace ≡ₚ registered RENDER_MODE_LIGHTS regs
  ∧ rendered_in RENDER_MODE_DEFAULT trace `sublist_of` registered RENDER_MODE_DEFAULT regs
  ∧ (ActiveCamera s = None ∨ UseCulling s = false →
     rendered_in RENDER_MODE_DEFAULT trace = registered RENDER_MODE_DEFAULT regs
     ∧ rendered_in RENDER_MODE_TRANSPARENT trace ≡ₚ registered RENDER_MODE_TRANSPARENT regs).
Proof.
  cbn zeta. destruct (drawAll_result intersectsCullingBox s r regs) as (box & -> & Hbox & _).
  rewrite !rendered_in_passes. settle_modes. cbn [app]. rewrite ?app_nil_r.
  assert (Horder : ∀ cmp l, pass_order s cmp l ≡ₚ l).
  { intros cmp l. unfold pass_order. destruct (ActiveCamera s); [apply Array_sort_perm|reflexivity]. }
  split; [reflexivity|]. split; [apply Horder|]. split; [apply culled_sublist|].
  intros Hno. rewrite (Hbox Hno). cbn [culled]. split; [reflexivity|apply Horder].
Qed.

(** X13: the node count [drawAll] records is the number of [render] calls of
    the light, default, transparent and overlay passes: nodes culled are not
    counted, and neither are the camera and the skybox. *)
Theorem drawAll_counts_rendered_nodes (s : Scene num M) (r : Renderer num M)
    (regs : list (SceneNode num * option Z)) :
  let frame := drawAll intersectsCullingBox s r regs in
  NodeCountRenderedLastTime frame.1.1 =
    (length (rendered_in RENDER_MODE_LIGHTS frame.2)
     + length (rendered_in RENDER_MODE_DEFAULT frame.2)
     + length (rendered_in RENDER_MODE_TRANSPARENT frame.2)
     + length (rendered_in RENDER_MODE_2DOVERLAY frame.2))%nat
  ∧ length frame.2 =
      (NodeCountRenderedLastTime frame.1.1
       + length (rendered_in RENDER_MODE_CAMERA frame.2)
       + length (rendered_in RENDER_MODE_SKYBOX frame.2))%nat.
Proof.
  cbn zeta. destruct (drawAll_result intersectsCullingBox s r regs) as (box & E & _ & ->).
  rewrite E, !rendered_in_passes. settle_modes. cbn [app]. rewrite ?app_nil_r.
  rewrite !length_app, !length_fmap.
  assert (Hl : length (pass_order s compare_lights (registered RENDER_MODE_LIGHTS regs)) =
               length (registered RENDER_MODE_LIGHTS regs)).
  { unfold pass_order. destruct (ActiveCamera s); [|reflexivity].
    apply Permutation_length, Array_sort_perm. }
  rewrite Hl. split; lia.
Qed.

(** X14: with no active camera [drawAll] sorts nothing and culls nothing,
    whatever [UseCulling] says: after the skybox, the lights, the default
    nodes, the transparent nodes and the overlays are rendered as they
    registered, in registration order. *)
Theorem drawAll_without_camera (s : Scene num M) (r : Renderer num M)
    (regs : list (SceneNode num * option Z)) :
  ActiveCamera s = None →
  let trace := (drawAll intersectsCullingBox s r regs).2 in
  rendered_in RENDER_MODE_CAMERA trace = []
  ∧ rendered_in RENDER_MODE_LIGHTS trace = registered RENDER_MODE_LIGHTS regs
  ∧ rendered_in RENDER_MODE_DEFAULT trace = registered RENDER_MODE_DEFAULT regs
  ∧ rendered_in RENDER_MODE_TRANSPARENT trace = registered RENDER_MODE_TRANSPARENT regs
  ∧ rendered_in RENDER_MODE_2DOVERLAY trace = registered RENDER_MODE_2DOVERLAY regs.
Proof.
  intros Hcam. cbn zeta.
  destruct (drawAll_result intersectsCullingBox s r regs) as (box & -> & Hbox & _).
  rewrite (Hbox (or_introl Hcam)). unfold pass_order. rewrite Hcam.
  rewrite !rendered_in_passes. settle_modes. cbn [app fmap option_fmap option_map option_list culled].
  rewrite ?app_nil_r. auto.
Qed.

Lemma registered_app (mode : Z) (regs1 regs2 : list (SceneNode num * option Z)) :
  registered mode (regs1 ++ regs2) = registered mode regs1 ++ registered mode regs2.
Proof. unfold registered. rewrite filter_app, fmap_app. reflexivity. Qed.

(** X15: a frame renders one skybox at most: of the nodes that register as
    skybox in the frame the last one is rendered, once, and the others are
    not rendered at all. *)
Theorem last_registered_skybox_is_rendered (s : Scene num M) (r : Renderer num M)
    (before after : list (SceneNode num * option Z)) (sky : SceneNode num) :
  registered RENDER_MODE_SKYBOX after = [] →
  rendered_in RENDER_MODE_SKYBOX
    (drawAll intersectsCullingBox s r (before ++ [(sky, Some RENDER_MODE_SKYBOX)] ++ after)).2
  = [sky].
Proof.
  intros Hafter.
  destruct (drawAll_result intersectsCullingBox s r
              (before ++ [(sky, Some RENDER_MODE_SKYBOX)] ++ after)) as (box & -> & _).
  rewrite !registered_app, Hafter, app_nil_r.
  replace (registered RENDER_MODE_SKYBOX [(sky, Some RENDER_MODE_SKYBOX)]) with [sky]
    by reflexivity.
  rewrite last_snoc.
  rewrite !rendered_in_passes. settle_modes. cbn [app]. rewrite ?app_nil_r. reflexivity.
Qed.
End FrameTraces.


Section TickAnswers.
Context {num M : Type} {math : CL3DMath num M}.
Variable intersectsCullingBox : M → Vect3d Z → SceneNode num → bool.

Lemma deletion_loop_quiet deleteAll time (l : list (DeletionEntry num)) st :
  (∀ e, e ∈ l → ¬ due deleteAll time e) → deletion_loop deleteAll time l st = (l, st).
Proof.
  induction l as [|e l IH]; intros Hq; [reflexivity|]. cbn [deletion_loop].
  destruct (deleteAll || bool_decide (timeAfterToDelete e < time)) eqn:E.
  - apply due_test in E. destruct (Hq e (list_elem_of_here _ _) E).
  - rewrite IH by (intros e' He'; apply Hq; right; exact He'). reflexivity.
Qed.

Lemma deletion_loop_flag deleteAll time (l : list (DeletionEntry num)) st :
  (deletion_loop deleteAll time l st).2.2 = true ↔
  st.2 = true ∨ ∃ e, e ∈ l ∧ due deleteAll time e.
Proof.
  revert st. induction l as [|e l IH]; intros st; cbn [deletion_loop].
  - split; [auto|]. intros [H|(e & He & _)]; [exact H|]. inversion He.
  - destruct (deleteAll || bool_decide (timeAfterToDelete e < time)) eqn:E.
    + rewrite IH. cbn [snd]. apply due_test in E.
      split; [|auto]. intros _. right. exists e. split; [left|exact E].
    + cbn [fst snd]. rewrite IH.
      assert (Hnot : ¬ due deleteAll time e) by (rewrite <- due_test, E; discriminate).
      split; (intros [H|(e' & He' & Hd)]; [auto|right]).
      * exists e'. split; [right; exact He'|exact Hd].
      * apply elem_of_cons in He' as [->|He']; [contradiction|]. eauto.
Qed.

Lemma clearDeletionList_quiet (deleteAll : bool) (time : Z) (s : Scene num M) :
  (∀ e, e ∈ DeletionList s → ¬ due deleteAll time e) →
  clearDeletionList deleteAll time s = (false, s).
Proof.
  intros Hq. unfold clearDeletionList.
  destruct (DeletionList s) as [|e l] eqn:El; [reflexivity|].
  rewrite deletion_loop_quiet by exact Hq. cbn [fst snd].
  rewrite <- El. destruct s; reflexivity.
Qed.

(** X16: [clearDeletionList] answers true exactly when an entry of the queue
    was due, and when it answers false it has left the whole scene as it
    was. *)
Theorem clearDeletionList_answers_whether_it_deleted
    (deleteAll : bool) (time : Z) (s : Scene num M) :
  ((clearDeletionList deleteAll time s).1 = true ↔
   ∃ e, e ∈ DeletionList s ∧ due deleteAll time e)
  ∧ ((clearDeletionList deleteAll time s).1 = false →
     (clearDeletionList deleteAll time s).2 = s).
Proof.
  assert (Hiff : (clearDeletionList deleteAll time s).1 = true ↔
                 ∃ e, e ∈ DeletionList s ∧ due deleteAll time e).
  { unfold clearDeletionList. destruct (DeletionList s) as [|e l] eqn:El.
    - cbn [fst]. split; [discriminate|]. intros (e & He & _). inversion He.
    - cbn [fst]. rewrite deletion_loop_flag. cbn [snd].
      split; [intros [H|H]; [discriminate H|exact H] | auto]. }
  split; [exact Hiff|]. intros Hfalse.
  rewrite clearDeletionList_quiet; [reflexivity|].
  intros e He Hd. rewrite (proj2 Hiff) in Hfalse by eauto. discriminate Hfalse.
Qed.

(** The answer of a tick on which no animator reports a change and no entry
    of the deletion queue is due. *)
Lemma doAnimate_quiet (s : Scene num M) (r : Renderer num M) (t : Tick) :
  animatorsChanged t = false →
  (∀ e, e ∈ DeletionList s → ¬ due false (now t) e) →
  (doAnimate s (Some r) t).1.1 =
    ForceRedrawThisFrame s
    || (bool_decide (RedrawMode s = 0) &&
        (HasViewChangedSinceLastRedraw s || textureWasLoadedFlag r))
    || (bool_decide (RedrawMode s = 1) &&
        (HasViewChangedSinceLastRedraw s || textureWasLoadedFlag r))
    || bool_decide (RedrawMode s = 2)
    || scriptNeedsRedraw t.
Proof.
  intros Hanim Hq. unfold doAnimate.
  set (s1 := mkScene _ _ _ _ _ _ _ _ _ _ _ _ _ _ _ _ _ _).
  rewrite (clearDeletionList_quiet false (now t) s1) by exact Hq.
  cbn [fst snd]. rewrite Hanim.
  rewrite (HasViewChanged_ext s s1) by reflexivity.
  cbn [RedrawMode ForceRedrawThisFrame s1 getAndResetTextureWasLoadedFlag fst snd].
  rewrite !orb_false_r.
  match goal with |- (if ?b then _ else _).1.1 = _ => destruct b end; reflexivity.
Qed.

(** The force flag after a tick: it is clear, or the tick asked for no
    redraw and the flag is as it was. *)
Lemma doAnimate_leaves (s : Scene num M) (r : Renderer num M) (t : Tick) :
  ForceRedrawThisFrame (doAnimate s (Some r) t).1.2 = false
  ∨ (doAnimate s (Some r) t).1.1 = false
     ∧ ForceRedrawThisFrame (doAnimate s (Some r) t).1.2 = ForceRedrawThisFrame s.
Proof.
  unfold doAnimate.
  set (s1 := mkScene _ _ _ _ _ _ _ _ _ _ _ _ _ _ _ _ _ _).
  destruct (clearDeletionList_frame false (now t) s1) as (_ & _ & Hf & _).
  set (cl := clearDeletionList false (now t) s1) in *.
  match goal with |- context [if ?b then _ else _] => destruct b end; cbn [fst snd].
  - left. reflexivity.
  - right. split; [reflexivity|exact Hf].
Qed.
End TickAnswers.


Section QuietTicks.
Context {num M : Type} {math : CL3DMath num M}.
Variable intersectsCullingBox : M → Vect3d Z → SceneNode num → bool.

Lemma drawAll_frame (s : Scene num M) (r : Renderer num M)
    (regs : list (SceneNode num * option Z)) :
  let f := drawAll intersectsCullingBox s r regs in
  ActiveCamera f.1.1 = ActiveCamera s ∧ RedrawMode f.1.1 = RedrawMode s
  ∧ ForceRedrawThisFrame f.1.1 = ForceRedrawThisFrame s
  ∧ DeletionList f.1.1 = DeletionList s
  ∧ LastViewProj f.1.1 =
      match ActiveCamera s with
      | Some cam => m4_multiply (CamProjection cam) (ViewMatrix cam)
      | None => LastViewProj s
      end
  ∧ textureWasLoadedFlag f.1.2 = textureWasLoadedFlag r.
Proof.
  cbn zeta. unfold drawAll.
  destruct (drawAll_registration s regs) as (_ & _ & _ & _ & _ & H6 & _).
  destruct (OnRegisterSceneNode_frame regs (setRenderLists s (SkyBoxSceneNode s) [] [] [] []))
    as (F1 & F2 & F3 & F4).
  set (s1 := OnRegisterSceneNode regs _) in *.
  cbn zeta. cbn [fst snd]. unfold StoreViewMatrixForRedrawCheck. cbn [ActiveCamera].
  rewrite foldl_render_light_flag. rewrite H6.
  destruct (ActiveCamera s) as [cam|];
    cbn [ActiveCamera RedrawMode ForceRedrawThisFrame DeletionList LastViewProj
         setAmbientLight clearDynamicLights render_camera textureWasLoadedFlag];
    rewrite ?H6, ?F1, ?F2, ?F3, ?F4; auto 10.
Qed.

Lemma doAnimate_queue (s : Scene num M) (renderer : option (Renderer num M)) (t : Tick)
    (e : DeletionEntry num) :
  e ∈ DeletionList (doAnimate s renderer t).1.2 → e ∈ DeletionList s.
Proof.
  destruct (doAnimate_flushes s renderer t) as (_ & _ & ->).
  unfold flush_tick.
  destruct (clearDeletionList_loop false (now t) s) as (-> & _).
  rewrite deletion_loop_kept. tauto.
Qed.

(** X17: under redraw modes 0 and 1 a scene with a camera skips the frames
    on which nothing happens.  After a tick, a following tick on which no
    animator reports a change, no entry of the deletion queue is due, no
    texture finished loading and no script asks for a redraw is not drawn:
    neither after a frame drawn by [drawAll], nor after a tick that itself
    asked for no redraw.  The matrix comparison is taken to find a matrix
    equal to itself. *)
Theorem quiet_tick_is_not_drawn (s : Scene num M) (r : Renderer num M)
    (cam : CameraSceneNode num M) (t1 t2 : Tick) :
  (∀ m : M, m4_equals m m = true) →
  RedrawMode s = 0 ∨ RedrawMode s = 1 →
  ActiveCamera s = Some cam →
  animatorsChanged t2 = false → scriptNeedsRedraw t2 = false →
  (∀ e, e ∈ DeletionList s → now t2 ≤ timeAfterToDelete e) →
  let a := doAnimate s (Some r) t1 in
  ∃ r', a.2 = Some r'
    ∧ (∀ regs, let f := drawAll intersectsCullingBox a.1.2 r' regs in
               (doAnimate f.1.1 (Some f.1.2) t2).1.1 = false)
    ∧ (a.1.1 = false → (doAnimate a.1.2 (Some r') t2).1.1 = false).
Proof.
  intros Hrefl Hmode Hcam Hanim Hscript Hq. cbn zeta.
  destruct (doAnimate_frame s (Some r) t1) as (Ac & Am & Al & _).
  assert (Aq := doAnimate_queue s (Some r) t1).
  assert (Af := doAnimate_leaves s r t1).
  destruct (doAnimate_answer s (Some r) t1) as [ch Aans].
  assert (Ar : (doAnimate s (Some r) t1).2 = Some (getAndResetTextureWasLoadedFlag r).2).
  { unfold doAnimate. cbn zeta.
    match goal with |- context [if ?b then _ else _] => destruct b end; reflexivity. }
  set (a := doAnimate s (Some r) t1) in *.
  set (r' := (getAndResetTextureWasLoadedFlag r).2) in *.
  exists r'. split; [exact Ar|].
  assert (Hquiet : ∀ s' : Scene num M,
            (∀ e, e ∈ DeletionList s' → e ∈ DeletionList s) →
            ∀ e, e ∈ DeletionList s' → ¬ due false (now t2) e).
  { intros s' Hsub e He [Hd|Hd]; [discriminate Hd|]. specialize (Hq e (Hsub e He)). lia. }
  assert (Hskipped : a.1.1 = false →
            ForceRedrawThisFrame s = false ∧ HasViewChangedSinceLastRedraw s = false).
  { intros Hno. rewrite Hno in Aans. symmetry in Aans.
    apply orb_false_iff in Aans as [Aans _]. apply orb_false_iff in Aans as [Aans _].
    apply orb_false_iff in Aans as [Aans A1]. apply orb_false_iff in Aans as [A0 A0'].
    split; [exact A0|].
    destruct Hmode as [Hm|Hm]; rewrite Hm in *.
    - rewrite bool_decide_eq_true_2 in A0' by reflexivity. cbn [andb] in A0'.
      apply orb_false_iff in A0' as [Hv _]. exact Hv.
    - rewrite bool_decide_eq_true_2 in A1 by reflexivity. cbn [andb] in A1.
      apply orb_false_iff in A1 as [A1 _]. apply orb_false_iff in A1 as [Hv _]. exact Hv. }
  assert (Hforce : ForceRedrawThisFrame a.1.2 = false).
  { destruct Af as [Hf|[Hno Hf]]; [exact Hf|]. rewrite Hf. apply Hskipped. exact Hno. }
  split.
  - intros regs. cbn zeta.
    destruct (drawAll_frame a.1.2 r' regs) as (Fc & Fm & Ff & Fq & Fl & Fr).
    set (f := drawAll intersectsCullingBox a.1.2 r' regs) in *.
    rewrite doAnimate_quiet;
      [|exact Hanim|apply Hquiet; intros e He; apply Aq; rewrite <- Fq; exact He].
    rewrite Ff, Fm, Am, Fr, Hscript, Hforce.
    assert (Hview : HasViewChangedSinceLastRedraw f.1.1 = false).
    { unfold HasViewChangedSinceLastRedraw. rewrite Fc, Fl, Ac, Hcam, Hrefl. reflexivity. }
    rewrite Hview.
    destruct Hmode as [-> | ->]; reflexivity.
  - intros Hno. destruct (Hskipped Hno) as [_ Hview].
    rewrite doAnimate_quiet; [|exact Hanim|apply Hquiet; exact Aq].
    rewrite Am, Hscript, Hforce.
    rewrite (HasViewChanged_ext s a.1.2) by assumption.
    rewrite Hview.
    cbn [r' textureWasLoadedFlag getAndResetTextureWasLoadedFlag snd].
    destruct Hmode as [-> | ->]; reflexivity.
Qed.
End QuietTicks.


(** ** The scene graph queries *)

Section GraphQueries.

Lemma GraphNode_ind' (P : GraphNode → Prop) :
  (∀ id name type children, Forall P children → P (mkGraphNode id name type children)) →
  ∀ n, P n.
Proof.
  intros H. fix IH 1. intros [id name type children]. apply H.
  induction children as [|c cs IHcs]; constructor; [apply IH|exact IHcs].
Qed.

Lemma first_result_head {A B : Type} (f : A → option B) (g : A → list B)
    (P : B → Prop) `{!∀ b, Decision (P b)} (l : list A) :
  Forall (λ c, f c = head (filter P (g c))) l →
  first_result f l = head (filter P (flat_map g l)).
Proof.
  induction 1 as [|c l Hc _ IH]; [reflexivity|].
  cbn [first_result flat_map]. rewrite filter_app, Hc, IH.
  destruct (filter P (g c)); reflexivity.
Qed.

Lemma getSceneNodeFromIdImpl_first (n : GraphNode) (id : Z) :
  getSceneNodeFromIdImpl n id = head (filter (λ m, Id m = id) (preorder n)).
Proof.
  induction n as [nid name type children IH] using GraphNode_ind'.
  cbn [getSceneNodeFromIdImpl preorder]. rewrite filter_cons. cbn [Id].
  destruct (decide (nid = id)); [reflexivity|].
  apply (first_result_head _ preorder). exact IH.
Qed.

Lemma getSceneNodeFromNameImpl_first (n : GraphNode) (name : string) :
  getSceneNodeFromNameImpl n name = head (filter (λ m, Name m = name) (preorder n)).
Proof.
  induction n as [nid nname type children IH] using GraphNode_ind'.
  cbn [getSceneNodeFromNameImpl preorder]. rewrite filter_cons. cbn [Name].
  destruct (decide (nname = name)); [reflexivity|].
  apply (first_result_head _ preorder). exact IH.
Qed.

Lemma getAllSceneNodesOfTypeImpl_filter (n : GraphNode) (c : string) (a : list GraphNode) :
  getAllSceneNodesOfTypeImpl n c a = a ++ filter (λ m, getType m = c) (preorder n).
Proof.
  revert a. induction n as [nid name type children IH] using GraphNode_ind'. intros a.
  cbn [getAllSceneNodesOfTypeImpl preorder]. rewrite filter_cons. cbn [getType].
  set (a1 := if decide (type = c) then a ++ [mkGraphNode nid name type children] else a).
  assert (Hloop : ∀ a0,
            foldl (λ a child, getAllSceneNodesOfTypeImpl child c a) a0 children =
            a0 ++ filter (λ m, getType m = c) (flat_map preorder children)).
  { induction IH as [|ch cs Hch _ IHcs]; intros a0; cbn [foldl flat_map].
    - rewrite app_nil_r. reflexivity.
    - rewrite IHcs, Hch, filter_app, app_assoc. reflexivity. }
  rewrite Hloop. subst a1. destruct (decide (type = c)); [|reflexivity].
  rewrite <- app_assoc. reflexivity.
Qed.

Lemma getSceneNodeFromId_head (RootNode : option GraphNode) (id : Z) :
  getSceneNodeFromId RootNode id = head (filter (λ m, Id m = id) (graph_nodes RootNode)).
Proof. destruct RootNode as [root|]; [apply getSceneNodeFromIdImpl_first|reflexivity]. Qed.

Lemma getSceneNodeFromName_head (RootNode : option GraphNode) (name : string) :
  getSceneNodeFromName RootNode name =
    head (filter (λ m, Name m = name) (graph_nodes RootNode)).
Proof. destruct RootNode as [root|]; [apply getSceneNodeFromNameImpl_first|reflexivity]. Qed.

Lemma head_filter_Some {A : Type} (P : A → Prop) `{!∀ a, Decision (P a)} (l : list A) (x : A) :
  head (filter P l) = Some x → x ∈ l ∧ P x.
Proof.
  intros Hh. assert (Hin : x ∈ filter P l).
  { destruct (filter P l) as [|y l']; [discriminate Hh|]. injection Hh as ->. left. }
  apply list_elem_of_filter in Hin. tauto.
Qed.

Lemma head_filter_None {A : Type} (P : A → Prop) `{!∀ a, Decision (P a)} (l : list A) :
  head (filter P l) = None ↔ ∀ x, x ∈ l → ¬ P x.
Proof.
  split.
  - intros Hh x Hx HP. assert (Hin : x ∈ filter P l) by (apply list_elem_of_filter; auto).
    destruct (filter P l); [inversion Hin | discriminate Hh].
  - intros Hnone. destruct (filter P l) as [|y l'] eqn:E; [reflexivity|].
    assert (Hin : y ∈ filter P l) by (rewrite E; left).
    apply list_elem_of_filter in Hin as [HP Hy]. destruct (Hnone y Hy HP).
Qed.

(** X18: [getSceneNodeFromId] and [getSceneNodeFromName] return the first
    node with the id, or the name, that a depth-first traversal from the root
    meets, a node before its children and children in order; they return
    null exactly when no node of the graph has the id, or the name. *)
Theorem scene_node_queries_find_first (RootNode : option GraphNode) (id : Z) (name : string) :
  getSceneNodeFromId RootNode id = head (filter (λ m, Id m = id) (graph_nodes RootNode))
  ∧ getSceneNodeFromName RootNode name =
      head (filter (λ m, Name m = name) (graph_nodes RootNode))
  ∧ (getSceneNodeFromId RootNode id = None ↔ ∀ m, m ∈ graph_nodes RootNode → Id m ≠ id)
  ∧ (getSceneNodeFromName RootNode name = None ↔
     ∀ m, m ∈ graph_nodes RootNode → Name m ≠ name).
Proof.
  rewrite getSceneNodeFromId_head, getSceneNodeFromName_head.
  split; [reflexivity|]. split; [reflexivity|]. split; apply head_filter_None.
Qed.

(** X19: [getAllSceneNodesOfType] returns the nodes of the type in the order
    of the depth-first traversal, and null only when the scene has no root;
    a node the query by id finds is among the nodes the query by its type
    returns. *)
Theorem all_scene_nodes_of_type_in_traversal_order
    (RootNode : option GraphNode) (type : string) :
  getAllSceneNodesOfType RootNode type =
    (λ root, filter (λ m, getType m = type) (preorder root)) <$> RootNode
  ∧ ∀ id m, getSceneNodeFromId RootNode id = Some m → getType m = type →
      ∃ l, getAllSceneNodesOfType RootNode type = Some l ∧ m ∈ l.
Proof.
  assert (Hall : getAllSceneNodesOfType RootNode type =
                 (λ root, filter (λ m, getType m = type) (preorder root)) <$> RootNode).
  { destruct RootNode as [root|]; [|reflexivity].
    cbn [getAllSceneNodesOfType fmap option_fmap option_map].
    rewrite getAllSceneNodesOfTypeImpl_filter. reflexivity. }
  split; [exact Hall|]. intros id m Hfound Htype.
  rewrite getSceneNodeFromId_head in Hfound. apply head_filter_Some in Hfound as [Hm _].
  rewrite Hall. destruct RootNode as [root|]; [|inversion Hm].
  eexists. split; [reflexivity|]. apply list_elem_of_filter. split; assumption.
Qed.

Lemma unused_id_loop_spec (RootNode : option GraphNode) (testId : nat → Z) (n tries : nat) :
  let id := unused_id_loop RootNode testId tries n in
  (id = -1 ∧ ∀ k, (tries ≤ k < tries + n)%nat →
               ∃ m, m ∈ graph_nodes RootNode ∧ Id m = testId k)
  ∨ (∃ k, (tries ≤ k < tries + n)%nat ∧ id = testId k
          ∧ ∀ m, m ∈ graph_nodes RootNode → Id m ≠ id).
Proof.
  cbn zeta. revert tries. induction n as [|n IH]; intros tries; cbn [unused_id_loop].
  - left. split; [reflexivity|]. intros k Hk. lia.
  - destruct (getSceneNodeFromId RootNode (testId tries)) as [m|] eqn:E.
    + rewrite getSceneNodeFromId_head in E. apply head_filter_Some in E as [Hm Hid].
      destruct (IH (S tries)) as [[Hres Hall]|(k & Hk & Hres & Hfree)].
      * left. split; [exact Hres|]. intros k Hk.
        destruct (decide (k = tries)) as [->|Hne]; [eauto|apply Hall; lia].
      * right. exists k. split; [lia|]. split; assumption.
    + right. exists tries. split; [lia|]. split; [reflexivity|].
      rewrite getSceneNodeFromId_head in E. exact (proj1 (head_filter_None _ _) E).
Qed.

(** X20: [getUnusedSceneNodeId], drawing ids between 10 and 10010, returns
    an id that no node of the graph has, and -1 exactly when each of its
    thousand draws hit an id in use. *)
Theorem unused_scene_node_id_is_unused (RootNode : option GraphNode) (testId : nat → Z) :
  (∀ k, 10 ≤ testId k ≤ 10010) →
  let id := getUnusedSceneNodeId RootNode testId in
  (id ≠ -1 → 10 ≤ id ≤ 10010 ∧ ∀ m, m ∈ graph_nodes RootNode → Id m ≠ id)
  ∧ (id = -1 ↔
     ∀ k, (k < 1000)%nat → ∃ m, m ∈ graph_nodes RootNode ∧ Id m = testId k).
Proof.
  intros Hrange. cbn zeta. unfold getUnusedSceneNodeId.
  destruct (unused_id_loop_spec RootNode testId 1000 0)
    as [[Hres Hall]|(k & Hk & Hres & Hfree)]; rewrite Hres.
  - split; [intros Hne; destruct (Hne eq_refl)|].
    split; [|reflexivity]. intros _ k Hk. apply Hall. lia.
  - split; [intros _; split; [apply Hrange|rewrite <- Hres; exact Hfree]|].
    split; [intros Hminus; specialize (Hrange k); lia|].
    intros Hall. destruct (Hall k) as (m & Hm & Hid); [lia|].
    rewrite <- Hres in Hid. destruct (Hfree m Hm Hid).
Qed.
End GraphQueries.

(** ** The animators registered for events *)

Section AnimatorRegistry.

Lemma is_registered_spec (a : Animator) (l : list Animator) :
  is_registered a l = true ↔ a ∈ l.
Proof.
  induction l as [|s l IH]; cbn [is_registered].
  - split; [discriminate|]. intros H. inversion H.
  - rewrite elem_of_cons. destruct (decide (s = a)) as [->|Hne]; [tauto|].
    rewrite IH. split; [auto|]. intros [->|H]; [contradiction|exact H].
Qed.

Lemma register_elem (a b : Animator) (l : list Animator) :
  b ∈ registerSceneNodeAnimatorForEvents (Some a) l ↔ b = a ∨ b ∈ l.
Proof.
  cbn [registerSceneNodeAnimatorForEvents].
  destruct (is_registered a l) eqn:E.
  - apply is_registered_spec in E. split; [auto|]. intros [->|H]; assumption.
  - rewrite elem_of_app, list_elem_of_singleton. tauto.
Qed.

Lemma register_NoDup (a : option Animator) (l : list Animator) :
  NoDup l → NoDup (registerSceneNodeAnimatorForEvents a l).
Proof.
  intros Hl. destruct a as [a|]; [|exact Hl]. cbn [registerSceneNodeAnimatorForEvents].
  destruct (is_registered a l) eqn:E; [exact Hl|].
  apply NoDup_app. split; [exact Hl|]. split; [|apply NoDup_singleton].
  intros x Hx Hxa. apply list_elem_of_singleton in Hxa as ->.
  apply is_registered_spec in Hx. congruence.
Qed.

Lemma splice_first_sublist (a : Animator) (l : list Animator) :
  splice_first a l `sublist_of` l.
Proof.
  induction l as [|s l IH]; cbn [splice_first]; [reflexivity|].
  destruct (decide (s = a)); [apply sublist_cons; reflexivity | apply sublist_skip; exact IH].
Qed.

Lemma splice_first_elem (a b : Animator) (l : list Animator) :
  NoDup l → (b ∈ splice_first a l ↔ b ∈ l ∧ b ≠ a).
Proof.
  induction 1 as [|s l Hs Hl IH]; cbn [splice_first].
  - split; [intros H; inversion H | intros [H _]; inversion H].
  - destruct (decide (s = a)) as [->|Hne].
    + rewrite elem_of_cons. split; [|intros [[->|H] Hb]; [contradiction|exact H]].
      intros Hb. split; [auto|]. intros ->. contradiction.
    + rewrite !elem_of_cons, IH. split; [|tauto].
      intros [->|[H Hb]]; [split; [auto|congruence] | auto].
Qed.

Lemma unregister_NoDup (a : option Animator) (l : list Animator) :
  NoDup l → NoDup (unregisterSceneNodeAnimatorForEvents a l).
Proof.
  intros Hl. destruct a as [a|]; [|exact Hl].
  exact (sublist_NoDup _ _ Hl (splice_first_sublist a l)).
Qed.

Lemma splice_first_snoc (a : Animator) (l : list Animator) :
  a ∉ l → splice_first a (l ++ [a]) = l.
Proof.
  induction l as [|s l IH]; intros Ha; cbn [splice_first app].
  - rewrite decide_True by reflexivity. reflexivity.
  - apply not_elem_of_cons in Ha as [Hne Ha].
    rewrite decide_False by congruence. rewrite IH by exact Ha. reflexivity.
Qed.

Lemma registry_after_snoc (cs : list RegistryCall) (c : RegistryCall) :
  registry_after (cs ++ [c]) = registry_call (registry_after cs) c.
Proof. unfold registry_after. rewrite foldl_app. reflexivity. Qed.

Lemma registry_after_NoDup (cs : list RegistryCall) : NoDup (registry_after cs).
Proof.
  induction cs as [|c cs IH] using rev_ind; [apply NoDup_nil_2|].
  rewrite registry_after_snoc. destruct c; [apply register_NoDup | apply unregister_NoDup];
    exact IH.
Qed.

(** X21: the list of animators registered for events is kept as a set.
    After any sequence of register and unregister calls it holds no animator
    twice; an animator is in it after its registration and not in it after
    its unregistration, and neither call changes whether another animator is
    in it; a call with null changes nothing; and unregistering an animator
    that was just registered for the first time gives back the list as it
    was. *)
Theorem animator_registry_is_a_set (cs : list RegistryCall) (a : Animator) :
  NoDup (registry_after cs)
  ∧ a ∈ registry_after (cs ++ [Register (Some a)])
  ∧ (a ∉ registry_after (cs ++ [Unregister (Some a)]))
  ∧ (∀ b, b ≠ a →
       (b ∈ registry_after (cs ++ [Register (Some a)]) ↔ b ∈ registry_after cs)
       ∧ (b ∈ registry_after (cs ++ [Unregister (Some a)]) ↔ b ∈ registry_after cs))
  ∧ registry_after (cs ++ [Register None]) = registry_after cs
  ∧ registry_after (cs ++ [Unregister None]) = registry_after cs
  ∧ (a ∉ registry_after cs →
     registry_after (cs ++ [Register (Some a); Unregister (Some a)]) = registry_after cs).
Proof.
  assert (Hnd := registry_after_NoDup cs).
  rewrite !registry_after_snoc. cbn [registry_call].
  split; [exact Hnd|]. split; [apply register_elem; auto|].
  split; [rewrite (splice_first_elem a a _ Hnd); tauto|].
  split; [intros b Hb; split;
            [rewrite register_elem; tauto
            |cbn [unregisterSceneNodeAnimatorForEvents];
             rewrite (splice_first_elem a b _ Hnd); tauto]|].
  split; [reflexivity|]. split; [reflexivity|]. intros Hnew.
  replace (cs ++ [Register (Some a); Unregister (Some a)])
    with ((cs ++ [Register (Some a)]) ++ [Unregister (Some a)])
    by (rewrite <- app_assoc; reflexivity).
  rewrite !registry_after_snoc. cbn [registry_call registerSceneNodeAnimatorForEvents
                                      unregisterSceneNodeAnimatorForEvents].
  destruct (is_registered a (registry_after cs)) eqn:E;
    [apply is_registered_spec in E; contradiction|].
  apply splice_first_snoc. exact Hnew.
Qed.

Lemma count_in_NoDup (a : Animator) (l : list Animator) :
  NoDup l → length (filter (λ s, s = a) l) = (if decide (a ∈ l) then 1 else 0)%nat.
Proof.
  induction 1 as [|s l Hs Hl IH]; [reflexivity|].
  rewrite filter_cons. destruct (decide (s = a)) as [->|Hne].
  - rewrite decide_True by left. cbn [length]. rewrite IH.
    rewrite decide_False by exact Hs. reflexivity.
  - rewrite IH. destruct (decide (a ∈ l)) as [Hin|Hout].
    + rewrite decide_True by (right; exact Hin). reflexivity.
    + rewrite decide_False; [reflexivity|].
      intros Hin. apply elem_of_cons in Hin as [->|Hin]; [congruence|contradiction].
Qed.

(** X22: an event posted to the animators reaches every registered animator
    exactly once and no other animator, whatever calls built the registry. *)
Theorem posted_event_reaches_registered_once {E : Type} (event : E)
    (cs : list RegistryCall) (a : Animator) :
  length (filter (λ c, c.1 = a) (postToAnimators event (registry_after cs))) =
    (if decide (a ∈ registry_after cs) then 1 else 0)%nat.
Proof.
  rewrite <- (count_in_NoDup a _ (registry_after_NoDup cs)).
  unfold postToAnimators. generalize (registry_after cs). intros l.
  induction l as [|s l IH]; [reflexivity|].
  rewrite fmap_cons, !filter_cons. cbn [fst].
  destruct (decide (s = a)); cbn [length]; rewrite IH; reflexivity.
Qed.
End AnimatorRegistry.

(** ** Material types *)

Section MaterialTypes.
Context {P : Type}.

Lemma createMaterialTypes_frame (later : list (option P)) (t : MaterialTables P) :
  let t' := createMaterialTypes later t in
  MinExternalMaterialTypeId t ≤ MinExternalMaterialTypeId t'
  ∧ ∀ k, k ≤ MinExternalMaterialTypeId t →
      MaterialPrograms t' !! k = MaterialPrograms t !! k
      ∧ MaterialProgramsWithLight t' !! k = MaterialProgramsWithLight t !! k.
Proof.
  cbn zeta. unfold createMaterialTypes. revert t.
  induction later as [|p later IH]; intros t; cbn [foldl]; [split; [lia|auto]|].
  destruct (IH (createMaterialType p t).2) as [Hmin Hkeep].
  destruct p as [p|]; cbn [createMaterialType snd MinExternalMaterialTypeId MaterialPrograms
                           MaterialProgramsWithLight] in *.
  - split; [lia|]. intros k Hk. destruct (Hkeep k) as [H1 H2]; [lia|].
    rewrite H1, H2, !lookup_insert_ne by lia. auto.
  - split; [exact Hmin|exact Hkeep].
Qed.

(** X23: a material type, once created, keeps its program.  A successful
    [createMaterialType] returns the counter plus one and stores the program
    under that id in both tables; whatever is created later, with or without
    success, that id still gives the program, every id up to the old counter
    gives what it gave before, and every later success returns a larger
    id. *)
Theorem created_material_type_is_kept (t : MaterialTables P) (p : P)
    (later : list (option P)) :
  let r := createMaterialType (Some p) t in
  let t' := createMaterialTypes later r.2 in
  r.1 = MinExternalMaterialTypeId t + 1
  ∧ getGLProgramFromMaterialType t' r.1 = Some p
  ∧ MaterialProgramsWithLight t' !! r.1 = Some p
  ∧ (∀ mattype, mattype ≤ MinExternalMaterialTypeId t →
       getGLProgramFromMaterialType t' mattype = getGLProgramFromMaterialType t mattype
       ∧ MaterialProgramsWithLight t' !! mattype = MaterialProgramsWithLight t !! mattype)
  ∧ (∀ q, r.1 < (createMaterialType (Some q) t').1).
Proof.
  cbn zeta. unfold getGLProgramFromMaterialType.
  destruct (createMaterialTypes_frame later (createMaterialType (Some p) t).2) as [Hmin Hkeep].
  cbn [createMaterialType fst snd MinExternalMaterialTypeId MaterialPrograms
       MaterialProgramsWithLight] in *.
  split; [reflexivity|].
  destruct (Hkeep (MinExternalMaterialTypeId t + 1)) as [H1 H2]; [lia|].
  rewrite H1, H2, !lookup_insert_eq. split; [reflexivity|]. split; [reflexivity|].
  split; [|intros q; lia].
  intros k Hk. destruct (Hkeep k) as [K1 K2]; [lia|].
  rewrite K1, K2, !lookup_insert_ne by lia. auto.
Qed.

End MaterialTypes.


(** * The further properties on concrete inputs *)

Section FurtherRuns.
Local Existing Instance integer_math.

Lemma sixty_four_is_a_power_of_two :
  isPowerOfTwo 64 = true ↔ 64 = 0 ∨ ∃ k, 0 ≤ k ∧ 64 = 2^k.
Proof. apply (isPowerOfTwo_spec 64). lia. Defined.

Lemma next_power_of_two_above_100 :
  (∃ k, 0 ≤ k ∧ nextHighestPowerOfTwo 100 = 2^k ∧ 100 ≤ 2^k ∧ 2^k < 2 * 100)
  ∧ (∀ k, 0 ≤ k → 100 = 2^k → nextHighestPowerOfTwo 100 = 100).
Proof. apply (nextHighestPowerOfTwo_spec 100). lia. Defined.

Lemma video_canvas_texture_sizes :
  OriginalWidth (textureSizesFrom2DCanvas video_canvas) = 640
  ∧ OriginalHeight (textureSizesFrom2DCanvas video_canvas) = 480
  ∧ isPowerOfTwo (CachedWidth (textureSizesFrom2DCanvas video_canvas)) = true
  ∧ isPowerOfTwo (CachedHeight (textureSizesFrom2DCanvas video_canvas)) = true.
Proof.
  destruct (texture_sizes_are_powers_of_two video_canvas)
    as (H1 & H2 & _ & _ & _ & _ & H3 & H4 & _); [vm_compute; split; discriminate ..|].
  auto.
Defined.

Lemma bare_renderer_draw_throws :
  drawMeshBuffer bare_renderer triangle_buffer None = None.
Proof.
  exact (drawMeshBuffer_without_program_throws bare_renderer triangle_buffer None empty_gl
           eq_refl eq_refl).
Defined.

Lemma short_tangents_draw_throws :
  drawMeshBuffer plain_renderer short_tangents_buffer None = None.
Proof.
  apply (first_draw_throws_when_tangents_short plain_renderer short_tangents_buffer None
           empty_gl [mkVect3d 1 0 0] [mkVect3d 0 1 0; mkVect3d 0 1 0; mkVect3d 0 1 0]
           eq_refl eq_refl eq_refl eq_refl).
  left. simpl. lia.
Defined.



Lemma one_vertex_position_update :
  ∃ na g',
    updatePositionsInRendererNativeArray one_vertex_buffer mirrored_gl =
      Some (setNativeArray (Some na) one_vertex_buffer, g')
    ∧ handles na = handles large_resource
    ∧ colorArray na = colorArray large_resource
    ∧ nextBuffer g' = nextBuffer mirrored_gl.
Proof.
  destruct (position_update_frame one_vertex_buffer large_resource mirrored_gl DYNAMIC_DRAW
              eq_refl eq_refl) as (na & g' & E & Hh & Hc & _ & _ & _ & _ & Hn & _).
  exists na, g'. auto.
Defined.

Lemma one_vertex_update_uploads :
  ∃ na g',
    updateRendererNativeArray one_vertex_buffer mirrored_gl =
      Some (setNativeArray (Some na) one_vertex_buffer, g')
    ∧ buffers g' !! positionBuffer na = Some (Float32Array (positionsArray na), DYNAMIC_DRAW)
    ∧ buffers g' !! colorBuffer na = Some (Float32Array (colorArray na), STATIC_DRAW)
    ∧ indexBuffer na = indexBuffer large_resource.
Proof.
  assert (Hv : Vertices one_vertex_buffer ≠ []) by discriminate.
  assert (Hi : Indices one_vertex_buffer ≠ []) by discriminate.
  destruct (update_in_place_uploads one_vertex_buffer large_resource mirrored_gl
              DYNAMIC_DRAW STATIC_DRAW Hv Hi eq_refl)
    as (na & g' & E & Hp & Hc & _ & Hib & _);
    [simpl; lia | simpl; lia | discriminate | reflexivity | reflexivity |].
  exists na, g'. auto.
Defined.

Lemma one_vertex_update_twice :
  ∃ buf1 g1 g2,
    updateRendererNativeArray one_vertex_buffer mirrored_gl = Some (buf1, g1)
    ∧ updateRendererNativeArray buf1 g1 = Some (buf1, g2)
    ∧ nextBuffer g2 = nextBuffer g1 ∧ buffers g2 = buffers g1.
Proof.
  assert (Hv : Vertices one_vertex_buffer ≠ []) by discriminate.
  assert (Hi : Indices one_vertex_buffer ≠ []) by discriminate.
  apply (update_in_place_idempotent one_vertex_buffer large_resource mirrored_gl
           DYNAMIC_DRAW STATIC_DRAW Hv Hi eq_refl);
    [simpl; lia | simpl; lia | simpl; lia | simpl; lia | discriminate
    | reflexivity | reflexivity].
Defined.

Lemma no_camera_registration_order :
  rendered_in RENDER_MODE_TRANSPARENT
    (drawAll no_culling empty_scene plain_renderer three_transparent).2 =
    [near_node; far_node_a; far_node_b].
Proof.
  destruct (drawAll_without_camera no_culling empty_scene plain_renderer three_transparent
              eq_refl) as (_ & _ & _ & Ht & _).
  rewrite Ht. reflexivity.
Defined.

Lemma second_skybox_wins :
  rendered_in RENDER_MODE_SKYBOX
    (drawAll no_culling empty_scene plain_renderer
       ([(near_node, Some RENDER_MODE_SKYBOX)] ++ [(far_node_a, Some RENDER_MODE_SKYBOX)]
        ++ [(far_node_b, None)])).2 = [far_node_a].
Proof.
  exact (last_registered_skybox_is_rendered no_culling empty_scene plain_renderer
           [(near_node, Some RENDER_MODE_SKYBOX)] [(far_node_b, None)] far_node_a eq_refl).
Defined.

Lemma quiet_scene_skips_second_tick :
  ∃ r', (doAnimate quiet_scene (Some plain_renderer) (mkTick 5 false false)).2 = Some r'
    ∧ (doAnimate
         (drawAll no_culling
            (doAnimate quiet_scene (Some plain_renderer) (mkTick 5 false false)).1.2 r' []).1.1
         (Some (drawAll no_culling
                  (doAnimate quiet_scene (Some plain_renderer) (mkTick 5 false false)).1.2
                  r' []).1.2)
         (mkTick 6 false false)).1.1 = false.
Proof.
  destruct (quiet_tick_is_not_drawn no_culling quiet_scene plain_renderer origin_camera
              (mkTick 5 false false) (mkTick 6 false false)) as (r' & Hr & Hdrawn & _).
  - intros m. apply Z.eqb_refl.
  - right. reflexivity.
  - reflexivity.
  - reflexivity.
  - reflexivity.
  - intros e He. inversion He.
  - exists r'. split; [exact Hr|]. exact (Hdrawn []).
Defined.

Lemma unused_id_in_empty_scene :
  (getUnusedSceneNodeId None (λ _, 10) ≠ -1 →
   10 ≤ getUnusedSceneNodeId None (λ _, 10) ≤ 10010
   ∧ ∀ m, m ∈ graph_nodes None → Id m ≠ getUnusedSceneNodeId None (λ _, 10))
  ∧ (getUnusedSceneNodeId None (λ _, 10) = -1 ↔
     ∀ k, (k < 1000)%nat → ∃ m, m ∈ graph_nodes None ∧ Id m = 10).
Proof.
  apply (unused_scene_node_id_is_unused None (λ _, 10)). intros k. lia.
Defined.
End FurtherRuns.
